(** * Keyword grouping engine: a shallow embedding of keywordGrouping utilities

    The development follows the JavaScript module "Keyword Grouping
    Utilities" (language-agnostic n-gram clustering of search queries):
    string similarity, intent classification, single-linkage clustering,
    topic extraction and the [groupKeywords] pipeline.

    Conventions.
    - A JavaScript string is the list of its UTF-16 code units ([str]).
    - A JavaScript number that is produced by the similarity arithmetic is
      a [num]: either [NaN] or a rational.  The rational is the exact value
      of the expression; the comparisons made by the program are stated on
      it.  Integer quantities (lengths, counters, click sums) are [nat] or
      [Z].
    - A call that may throw has an [outcome]; the [while (true)] loop of
      the clustering is run with fuel, and [OutOfFuel] is shown unreachable.
    - Built-ins of the host whose tables are not part of the module
      (case mapping, the Unicode letter class, [new RegExp]) are fields of
      a [Runtime] record; general theorems hold for every runtime. *)

From Stdlib Require Import String Ascii.
From Stdlib Require Import ZArith NArith QArith Qround Bool Lia.
From Stdlib Require Import List Permutation Sorted Relations.
Import ListNotations.

Close Scope Q_scope.
Set Implicit Arguments.

(** ** Host values *)

Module JS.

Inductive exn : Type := TypeError | SyntaxError.

Inductive outcome (A : Type) : Type :=
| Returns (a : A)
| Throws (e : exn)
| OutOfFuel.

Arguments Returns {A} a.
Arguments Throws {A} e.
Arguments OutOfFuel {A}.

Definition bind {A B : Type} (m : outcome A) (k : A -> outcome B) : outcome B :=
  match m with
  | Returns a => k a
  | Throws e => Throws e
  | OutOfFuel => OutOfFuel
  end.

(** Numbers of the similarity arithmetic. *)
Inductive num : Type :=
| NaN
| Num (q : Q).

Definition num_of_nat (n : nat) : num := Num (inject_Z (Z.of_nat n)).

Definition num_add (x y : num) : num :=
  match x, y with
  | Num a, Num b => Num (a + b)%Q
  | _, _ => NaN
  end.

Definition num_sub (x y : num) : num :=
  match x, y with
  | Num a, Num b => Num (a - b)%Q
  | _, _ => NaN
  end.

Definition num_mul (x y : num) : num :=
  match x, y with
  | Num a, Num b => Num (a * b)%Q
  | _, _ => NaN
  end.

(** [x / y].  The only division by zero the module performs is [0 / 0]
    (two empty sets in [jaccardSimilarity]), which is [NaN]; every other
    divisor is guarded or positive. *)
Definition num_div (x y : num) : num :=
  match x, y with
  | Num a, Num b => if Qeq_bool b 0%Q then NaN else Num (a / b)%Q
  | _, _ => NaN
  end.

(** [x < y], [x > y], [x >= y]: false as soon as an operand is [NaN]. *)
Definition num_ltb (x y : num) : bool :=
  match x, y with
  | Num a, Num b => negb (Qle_bool b a)
  | _, _ => false
  end.

Definition num_gtb (x y : num) : bool := num_ltb y x.

Definition num_geb (x y : num) : bool :=
  match x, y with
  | Num a, Num b => Qle_bool b a
  | _, _ => false
  end.

(** [Math.min] and [Math.max]: [NaN] if an argument is [NaN]. *)
Definition Math_min (x y : num) : num :=
  match x, y with
  | Num a, Num b => if Qle_bool a b then Num a else Num b
  | _, _ => NaN
  end.

Definition Math_max (x y : num) : num :=
  match x, y with
  | Num a, Num b => if Qle_bool a b then Num b else Num a
  | _, _ => NaN
  end.

Definition is_NaN (x : num) : bool :=
  match x with NaN => true | Num _ => false end.

(** Strings. *)
Definition str : Type := list N.

Definition u (s : string) : str := map N_of_ascii (list_ascii_of_string s).

Arguments u s%_string.

Fixpoint str_eqb (a b : str) : bool :=
  match a, b with
  | [], [] => true
  | x :: a', y :: b' => N.eqb x y && str_eqb a' b'
  | _, _ => false
  end.

(** White space and line terminators: the class [\s], also what [trim]
    removes. *)
Definition is_ws (c : N) : bool :=
  ((9 <=? c) && (c <=? 13) || (c =? 32) || (c =? 160) || (c =? 5760)
   || (8192 <=? c) && (c <=? 8202) || (c =? 8232) || (c =? 8233)
   || (c =? 8239) || (c =? 8287) || (c =? 12288) || (c =? 65279))%N.

Definition is_digit (c : N) : bool := ((48 <=? c) && (c <=? 57))%N.

Fixpoint dropWhile {A : Type} (p : A -> bool) (l : list A) : list A :=
  match l with
  | [] => []
  | x :: l' => if p x then dropWhile p l' else l
  end.

Definition trim (s : str) : str :=
  rev (dropWhile is_ws (rev (dropWhile is_ws s))).

(** [s.substr(i, n)] and [s.substring(i, j)] for [0 <= i <= j]. *)
Definition substr (s : str) (i n : nat) : str := firstn n (skipn i s).
Definition substring (s : str) (i j : nat) : str := firstn (j - i) (skipn i s).

Fixpoint startsWith (s p : str) : bool :=
  match p, s with
  | [], _ => true
  | y :: p', x :: s' => N.eqb x y && startsWith s' p'
  | _ :: _, [] => false
  end.

Definition endsWith (s p : str) : bool := startsWith (rev s) (rev p).

Fixpoint includes (s p : str) : bool :=
  startsWith s p ||
  match s with
  | [] => false
  | _ :: s' => includes s' p
  end.

(** A [Set] keeps its members in insertion order. *)
Definition set_has (s : list str) (x : str) : bool := existsb (str_eqb x) s.
Definition set_add (s : list str) (x : str) : list str :=
  if set_has s x then s else s ++ [x].
Definition new_Set (l : list str) : list str := fold_left set_add l [].

(** [Array.prototype.sort] with a consistent comparator: the stable sort
    ([cmp a b > 0] puts [a] after [b]). *)
Fixpoint sort_insert {A : Type} (cmp : A -> A -> Z) (x : A) (l : list A) : list A :=
  match l with
  | [] => [x]
  | y :: l' => if (cmp x y <=? 0)%Z then x :: l else y :: sort_insert cmp x l'
  end.

Fixpoint sort {A : Type} (cmp : A -> A -> Z) (l : list A) : list A :=
  match l with
  | [] => []
  | x :: l' => sort_insert cmp x (sort cmp l')
  end.

(** [a[i]] for a possibly negative index: [undefined] out of range. *)
Definition at_index {A : Type} (l : list A) (i : Z) : option A :=
  if (i <? 0)%Z then None else nth_error l (Z.to_nat i).

(** [a.indexOf(x)] *)
Fixpoint indexOf_from (l : list nat) (x : nat) (i : Z) : Z :=
  match l with
  | [] => (-1)%Z
  | y :: l' => if Nat.eqb y x then i else indexOf_from l' x (i + 1)%Z
  end.

Definition indexOf (l : list nat) (x : nat) : Z := indexOf_from l x 0.

(** What the module needs from the host and does not define itself. *)
Record Runtime : Type := {
  (** [String.prototype.toLowerCase] *)
  toLowerCase : str -> str;
  (** [Canonicalize] of a pattern compiled with the flag [i] *)
  canonicalize : N -> N;
  (** the class [\p{L}], on code points *)
  unicode_L : N -> bool;
  (** [new RegExp(src, 'i')]: [None] when the source is not a pattern
      (SyntaxError), otherwise the [test] method of the object *)
  RegExp_i : str -> option (str -> bool)
}.

End JS.

Import JS.

Notation "x <- m ;; k" := (bind m (fun x => k))
  (at level 61, m at next level, right associativity).

(** ** SimilarityEngine *)

Section Similarity.

Variable rt : Runtime.

(** [str.replace(/\s+/g, ' ')] *)
Fixpoint collapse_ws (in_ws : bool) (s : str) : str :=
  match s with
  | [] => []
  | c :: s' =>
      if is_ws c
      then (if in_ws then collapse_ws true s' else 32%N :: collapse_ws true s')
      else c :: collapse_ws false s'
  end.

Definition cleanStr (s : str) : str :=
  trim (collapse_ws false (toLowerCase rt s)).

(** [getNGrams(str, n)]: the set of the [n]-grams of [# cleanStr #];
    the loop runs for [i = 0 .. length - n] and not at all when the padded
    string is shorter than [n]. *)
Definition getNGrams (s : str) (n : nat) : list str :=
  let paddedStr := 35%N :: cleanStr s ++ [35%N] in
  new_Set (map (fun i => substr paddedStr i n)
               (seq 0 (S (length paddedStr) - n))).

(** The separator class of [getWordTokens]: white space, hyphen,
    underscore, comma, semicolon, colon, full stop, exclamation and
    question marks, the three kinds of brackets, and both quotes. *)
Definition is_separator (c : N) : bool :=
  is_ws c || existsb (N.eqb c)
    [45; 95; 44; 59; 58; 46; 33; 63; 40; 41; 91; 93; 123; 125; 39; 34]%N.

(** [s.split(/[...]+/)]: the pieces between maximal runs of separators,
    an empty piece included when the string starts or ends with one. *)
Fixpoint split_go (in_sep : bool) (cur : str) (s : str) : list str :=
  match s with
  | [] => [rev cur]
  | c :: s' =>
      if is_separator c
      then (if in_sep then split_go true [] s'
            else rev cur :: split_go true [] s')
      else split_go false (c :: cur) s'
  end.

Definition split_separators (s : str) : list str := split_go false [] s.

Definition getWordTokens (keyword : str) : list str :=
  filter (fun token => Nat.ltb 0 (length token))
         (split_separators (toLowerCase rt keyword)).

(** The test [/[一-鿿぀-ゟ゠-ヿ가-힯]/]. *)
Definition cjk_unit (c : N) : bool :=
  ((19968 <=? c) && (c <=? 40959) || (12352 <=? c) && (c <=? 12447)
   || (12448 <=? c) && (c <=? 12543) || (44032 <=? c) && (c <=? 55215))%N.

Definition isCJK (s : str) : bool := existsb cjk_unit s.

(** Code points of a string, as a pattern with the flag [u] reads them:
    a high surrogate followed by a low one is one code point. *)
Fixpoint code_points (s : str) : list N :=
  match s with
  | [] => []
  | c :: s' =>
      match s' with
      | d :: s'' =>
          if ((55296 <=? c) && (c <=? 56319) && (56320 <=? d) && (d <=? 57343))%N
          then (65536 + (c - 55296) * 1024 + (d - 56320))%N :: code_points s''
          else c :: code_points s'
      | [] => [c]
      end
  end.

(** [extractTerms(keyword)]: the tokens of at least [minLength] code units
    that contain a letter (the second test of the source, a digit together
    with a letter, is subsumed by the first). *)
Definition has_letter (token : str) : bool :=
  existsb (unicode_L rt) (code_points token).

Definition minLength (keyword : str) : nat := if isCJK keyword then 1 else 2.

Definition extractTerms (keyword : str) : list str :=
  filter (fun token =>
            if Nat.ltb (length token) (minLength keyword) then false
            else if has_letter token then true
            else if existsb is_digit token && has_letter token then true
            else false)
         (getWordTokens keyword).

(** [jaccardSimilarity(terms1, terms2)] *)
Definition jaccardSimilarity (terms1 terms2 : list str) : num :=
  let set1 := new_Set terms1 in
  let set2 := new_Set terms2 in
  let intersection := new_Set (filter (set_has set2) set1) in
  let union := new_Set (set1 ++ set2) in
  num_div (num_of_nat (length intersection)) (num_of_nat (length union)).

(** [levenshteinDistance]: the table is filled row by row.  [lev_row]
    computes [dp[i][1..n]] from the previous row, [left] being the cell
    just written, [dp[i][j-1]]. *)
Fixpoint lev_row (c : N) (s2 : str) (prev : list nat) (left : nat) : list nat :=
  match s2, prev with
  | d :: s2', diag :: ((up :: _) as prev') =>
      let v := if N.eqb c d then diag
               else Nat.min (Nat.min (up + 1) (left + 1)) (diag + 1) in
      v :: lev_row c s2' prev' v
  | _, _ => []
  end.

Definition lev_rows (str1 str2 : str) : nat * list nat :=
  fold_left (fun '(i, prev) c => (S i, S i :: lev_row c str2 prev (S i)))
            str1 (0, seq 0 (S (length str2))).

Definition levenshteinDistance (str1 str2 : str) : nat :=
  last (snd (lev_rows str1 str2)) 0.

(** [editDistanceSimilarity]: the distance is taken on the lowercased
    strings, the maximal length on the strings as given. *)
Definition editDistanceSimilarity (str1 str2 : str) : num :=
  let distance := levenshteinDistance (toLowerCase rt str1) (toLowerCase rt str2) in
  let maxLength := Nat.max (length str1) (length str2) in
  if Nat.eqb maxLength 0 then Num 1%Q
  else num_sub (Num 1%Q) (num_div (num_of_nat distance) (num_of_nat maxLength)).

(** [findLongestCommonSubstring]: [dp[i][j]] is the length of the longest
    common suffix of the prefixes; the scan keeps the first strict
    maximum.  The state of the inner loop is [(maxLength, endingPos)]. *)
Fixpoint lcs_row (c : N) (i : nat) (s2 : str) (prev : list nat)
         (st : nat * nat) : list nat * (nat * nat) :=
  match s2, prev with
  | d :: s2', diag :: prev' =>
      let v := if N.eqb c d then diag + 1 else 0 in
      let st' := if N.eqb c d && Nat.ltb (fst st) v then (v, i) else st in
      let '(row, st'') := lcs_row c i s2' prev' st' in
      (v :: row, st'')
  | _, _ => ([], st)
  end.

Definition lcs_scan (str1 str2 : str) : nat * nat :=
  let '(_, _, st) :=
    fold_left (fun '(i, prev, st) c =>
                 let '(row, st') := lcs_row c (S i) str2 prev st in
                 (S i, 0 :: row, st'))
              str1 (0, repeat 0 (S (length str2)), (0, 0)) in
  st.

Definition findLongestCommonSubstring (str1 str2 : str) : str :=
  let '(maxLength, endingPos) := lcs_scan str1 str2 in
  substring str1 (endingPos - maxLength) endingPos.

(** The token signal of the similarity. *)
Definition tokenSimilarity (keyword1 keyword2 : str) : num :=
  let tokens1 := getWordTokens keyword1 in
  let tokens2 := getWordTokens keyword2 in
  if Nat.ltb 0 (length tokens1) && Nat.ltb 0 (length tokens2)
  then jaccardSimilarity tokens1 tokens2
  else Num 0%Q.

Definition affixBonus (k1Lower k2Lower : str) : Q :=
  ((if startsWith k1Lower k2Lower || startsWith k2Lower k1Lower then 15 # 100 else 0)
   + (if endsWith k1Lower k2Lower || endsWith k2Lower k1Lower then 1 # 10 else 0))%Q.

Definition substringBonus (k1Lower k2Lower : str) : num :=
  let longestCommonSubstring := findLongestCommonSubstring k1Lower k2Lower in
  if Nat.leb 4 (length longestCommonSubstring)
  then num_mul (num_div (num_of_nat (length longestCommonSubstring))
                        (num_of_nat (Nat.max (length k1Lower) (length k2Lower))))
               (Num (2 # 10)%Q)
  else Num 0%Q.

Definition weightedSimilarity (keyword1 keyword2 : str) : num :=
  let ngramSimilarity := jaccardSimilarity (getNGrams keyword1 2) (getNGrams keyword2 2) in
  let trigramSimilarity := jaccardSimilarity (getNGrams keyword1 3) (getNGrams keyword2 3) in
  let k1Lower := toLowerCase rt keyword1 in
  let k2Lower := toLowerCase rt keyword2 in
  num_add (num_add (num_add (num_add (num_add
    (num_mul ngramSimilarity (Num (25 # 100)%Q))
    (num_mul trigramSimilarity (Num (20 # 100)%Q)))
    (num_mul (tokenSimilarity keyword1 keyword2) (Num (20 # 100)%Q)))
    (num_mul (editDistanceSimilarity keyword1 keyword2) (Num (25 # 100)%Q)))
    (num_mul (Num (affixBonus k1Lower k2Lower)) (Num (5 # 100)%Q)))
    (num_mul (substringBonus k1Lower k2Lower) (Num (5 # 100)%Q)).

Definition calculateAlgorithmicSimilarity (keyword1 keyword2 : str) : num :=
  if str_eqb (toLowerCase rt keyword1) (toLowerCase rt keyword2) then Num 1%Q
  else Math_min (weightedSimilarity keyword1 keyword2) (Num 1%Q).

Definition calculateSimilarity (keyword1 keyword2 : str) : num :=
  calculateAlgorithmicSimilarity keyword1 keyword2.

End Similarity.

(** ** IntentClassifier *)

Inductive Intent : Type :=
| informational
| commercial
| navigational
| transactional.

(** The patterns of [INTENT_PATTERNS] use literal characters, classes,
    sequence, alternation, [?], [*] and [+] on a class, and the
    assertions [^] and [$]. *)
Inductive re : Type :=
| Empty
| Char (c : N)
| Class (p : N -> bool)
| Seq (r1 r2 : re)
| Alt (r1 r2 : re)
| Opt (r : re)
| Star (p : N -> bool)
| Plus (p : N -> bool)
| Bol
| Eol.

Record pattern : Type := { source : re; ignoreCase : bool }.

Definition lit (s : str) : re := fold_right (fun c r => Seq (Char c) r) Empty s.

Fixpoint alts (l : list str) : re :=
  match l with
  | [] => Empty
  | [s] => lit s
  | s :: l' => Alt (lit s) (alts l')
  end.

Definition informational_patterns : list pattern :=
  [ {| source := Seq Bol (alts
         [u "how"; u "what"; u "why"; u "when"; u "where"; u "who";
          u "which"; u "comment"; [113; 117; 233]; [99; 243; 109; 111];
          [1082; 1086; 1075; 1076; 1072]; [1095; 1090; 1086];
          [1082; 1072; 1082]; [20160; 20040]; [24590; 20040];
          [12393; 12358]; [20309]; [50780]; [47924; 50631]]%N);
       ignoreCase := true |};
    {| source := alts
         [u "guide"; u "tutorial"; u "tips"; u "learn"; u "understand";
          [1091; 1095; 1080; 1090; 1100]; [23398; 20064];
          [1578; 1593; 1604; 1605]; [103; 117; 237; 97];
          [12460; 12452; 12489]]%N;
       ignoreCase := true |};
    {| source := Seq (Char 63) Eol; ignoreCase := false |} ].

(** In the third pattern the dollar sign among the currency signs is not
    escaped: it is the assertion [$]. *)
Definition commercial_patterns : list pattern :=
  [ {| source := alts
         [u "buy"; u "purchase"; u "price"; u "cost"; u "cheap"; u "best";
          u "review"; u "vs"; u "compare";
          [1082; 1091; 1087; 1080; 1090; 1100];
          [1087; 1086; 1082; 1091; 1087; 1082; 1072];
          [1094; 1077; 1085; 1072]; [36141; 20080]; [20215; 26684];
          [1588; 1585; 1575; 1569]; [1587; 1593; 1585]; u "comprar";
          u "precio"; [27604; 36611]; [36092; 20837]]%N;
       ignoreCase := true |};
    {| source := alts
         [u "discount"; u "deal"; u "sale"; u "offer";
          [1089; 1082; 1080; 1076; 1082; 1072]; [25240; 25187];
          [1578; 1582; 1601; 1610; 1590]; u "descuento"; [21106; 24341]]%N;
       ignoreCase := true |};
    {| source :=
         Seq (Plus is_digit)
           (Seq (Opt (Class (fun c => (c =? 46) || (c =? 44))%N))
              (Seq (Star is_digit)
                 (Seq (Star is_ws)
                    (Alt (Char 8364) (Alt Eol (Alt (Char 163)
                      (Alt (Char 165) (Alt (Char 8381) (Alt (Char 8377)
                        (Alt (Char 8361) (Char 65020)))))))))));
       ignoreCase := false |} ].

Definition navigational_patterns : list pattern :=
  [ {| source := alts
         [u "login"; u "signin"; u "website"; u "homepage"; u "contact";
          u "about"; [1074; 1093; 1086; 1076]; [30331; 24405];
          [1583; 1582; 1608; 1604];
          [12469; 12452; 12531; 12452; 12531]]%N;
       ignoreCase := true |};
    {| source := Seq Bol
         (Alt (lit (u "www."))
              (Seq (lit (u "http")) (Seq (Opt (Char 115)) (lit (u "://")))));
       ignoreCase := false |};
    {| source := alts [u ".com"; u ".org"; u ".net"; u ".edu"];
       ignoreCase := true |} ].

Definition transactional_patterns : list pattern :=
  [ {| source := alts
         [u "download"; u "install"; u "signup"; u "register";
          u "subscribe"; u "order";
          [1089; 1082; 1072; 1095; 1072; 1090; 1100]; [19979; 36733];
          [1578; 1581; 1605; 1610; 1604];
          [12480; 12454; 12531; 12525; 12540; 12489]; u "descargar"]%N;
       ignoreCase := true |};
    {| source := alts
         [u "free"; u "trial"; u "demo";
          [1073; 1077; 1089; 1087; 1083; 1072; 1090; 1085; 1086];
          [20813; 36153]; [1605; 1580; 1575; 1606; 1610];
          [28961; 26009]; u "gratis"]%N;
       ignoreCase := true |} ].

(** The entries of [INTENT_PATTERNS], in the order of their declaration. *)
Definition INTENT_PATTERNS : list (Intent * (list pattern * Q)) :=
  [ (informational, (informational_patterns, (8 # 10)%Q));
    (commercial, (commercial_patterns, (9 # 10)%Q));
    (navigational, (navigational_patterns, (7 # 10)%Q));
    (transactional, (transactional_patterns, (85 # 100)%Q)) ].

Definition patterns_of (i : Intent) : list pattern :=
  match i with
  | informational => informational_patterns
  | commercial => commercial_patterns
  | navigational => navigational_patterns
  | transactional => transactional_patterns
  end.

Definition weight_of (i : Intent) : Q :=
  match i with
  | informational => (8 # 10)%Q
  | commercial => (9 # 10)%Q
  | navigational => (7 # 10)%Q
  | transactional => (85 # 100)%Q
  end.

(** The position of a category in the declaration. *)
Definition rank (i : Intent) : nat :=
  match i with
  | informational => 0
  | commercial => 1
  | navigational => 2
  | transactional => 3
  end.

Section Intent.

Variable rt : Runtime.

(** Matching by backtracking.  [b] tells whether the position is the start
    of the input; [k] is what remains to be matched. *)
Fixpoint star_match (p : N -> bool) (b : bool) (s : str)
         (k : bool -> str -> bool) : bool :=
  k b s ||
  match s with
  | d :: s' => p d && star_match p false s' k
  | [] => false
  end.

Fixpoint rmatch (icase : bool) (r : re) (b : bool) (s : str)
         (k : bool -> str -> bool) : bool :=
  match r with
  | Empty => k b s
  | Char c =>
      match s with
      | d :: s' =>
          (if icase then N.eqb (canonicalize rt c) (canonicalize rt d)
           else N.eqb c d) && k false s'
      | [] => false
      end
  | Class p =>
      match s with
      | d :: s' => p d && k false s'
      | [] => false
      end
  | Seq r1 r2 => rmatch icase r1 b s (fun b' s' => rmatch icase r2 b' s' k)
  | Alt r1 r2 => rmatch icase r1 b s k || rmatch icase r2 b s k
  | Opt r1 => rmatch icase r1 b s k || k b s
  | Star p => star_match p b s k
  | Plus p =>
      match s with
      | d :: s' => p d && star_match p false s' k
      | [] => false
      end
  | Bol => b && k b s
  | Eol => match s with [] => k b s | _ :: _ => false end
  end.

Fixpoint search_from (icase : bool) (r : re) (b : bool) (s : str) : bool :=
  rmatch icase r b s (fun _ _ => true) ||
  match s with
  | [] => false
  | _ :: s' => search_from icase r false s'
  end.

(** [pattern.test(s)] *)
Definition test (p : pattern) (s : str) : bool :=
  search_from (ignoreCase p) (source p) true s.

(** One round of the outer loop of [classifyIntent]: the first pattern
    that matches decides, and the inner loop is left. *)
Definition classify_step (lowerKeyword : str) (st : Intent * Q)
           (entry : Intent * (list pattern * Q)) : Intent * Q :=
  let '(bestIntent, bestScore) := st in
  let '(intent, (patterns, weight)) := entry in
  if existsb (fun p => test p lowerKeyword) patterns
  then (if negb (Qle_bool weight bestScore) then (intent, weight) else st)
  else st.

Definition classify_in (table : list (Intent * (list pattern * Q)))
           (keyword : str) : Intent :=
  let lowerKeyword := toLowerCase rt keyword in
  fst (fold_left (classify_step lowerKeyword) table (informational, 0%Q)).

Definition classifyIntent (keyword : str) : Intent :=
  classify_in INTENT_PATTERNS keyword.

(** A category matches a query when one of its patterns matches the
    lowercased query. *)
Definition matching (keyword : str) (i : Intent) : bool :=
  existsb (fun p => test p (toLowerCase rt keyword)) (patterns_of i).

End Intent.

(** ** TopicExtractor *)

Section Topic.

Variable rt : Runtime.

(** The test [/^[\d\s\-_.]+$/] on a candidate (never empty here). *)
Definition mostly_separators (s : str) : bool :=
  Nat.ltb 0 (length s) &&
  forallb (fun c => is_digit c || is_ws c || (c =? 45) || (c =? 95) || (c =? 46))%N s.

(** The candidates of one length, in the order of their start offsets. *)
Definition candidates_at (keywords : list str) (firstKeyword : str) (len : nat)
  : list str :=
  filter (fun substring =>
            forallb (fun keyword => includes (toLowerCase rt keyword) substring)
                    keywords
            && negb (mostly_separators substring))
         (map (fun start => substring firstKeyword start (start + len))
              (seq 0 (S (length firstKeyword) - len))).

(** The loop over the lengths, from [len] down to 3; it stops at the first
    length that has candidates. *)
Fixpoint scan_lengths (keywords : list str) (firstKeyword : str) (len : nat)
  : list str :=
  match len with
  | 0 => []
  | S len' =>
      if Nat.leb 3 len
      then match candidates_at keywords firstKeyword len with
           | [] => scan_lengths keywords firstKeyword len'
           | c => c
           end
      else []
  end.

(** [keywords.some(k => new RegExp(`\\b${a}\\b`, 'i').test(k))]: the
    candidate is spliced into the pattern as it is, so the constructor
    throws when the result is not a pattern. *)
Definition isWord (keywords : list str) (a : str) : outcome bool :=
  match keywords with
  | [] => Returns false
  | _ :: _ =>
      match RegExp_i rt (u "\b" ++ a ++ u "\b") with
      | None => Throws SyntaxError
      | Some test_k => Returns (existsb test_k keywords)
      end
  end.

Fixpoint mapM {A B : Type} (f : A -> outcome B) (l : list A) : outcome (list B) :=
  match l with
  | [] => Returns []
  | x :: l' => y <- f x ;; ys <- mapM f l' ;; Returns (y :: ys)
  end.

Definition word_cmp (a b : str * bool) : Z :=
  if snd a && negb (snd b) then (-1)%Z
  else if negb (snd a) && snd b then 1%Z
  else (Z.of_nat (length (fst b)) - Z.of_nat (length (fst a)))%Z.

(** The final [sort]: the comparator is called only when there are two
    candidates or more, and then builds the pattern of each of them. *)
Definition sort_candidates (keywords : list str) (l : list str)
  : outcome (list str) :=
  match l with
  | [] | [_] => Returns l
  | _ =>
      flags <- mapM (isWord keywords) l ;;
      Returns (map fst (sort word_cmp (combine l flags)))
  end.

Definition findCommonSubstrings (keywords : list str) : outcome (list str) :=
  match keywords with
  | [] | [_] => Returns []
  | k0 :: _ =>
      let firstKeyword := toLowerCase rt k0 in
      let commonSubstrings :=
        scan_lengths keywords firstKeyword (Nat.min (length firstKeyword) 20) in
      sort_candidates keywords
        (filter (fun s => Nat.ltb 2 (length (trim s))) commonSubstrings)
  end.

(** [tokenFreq.set(token, (tokenFreq.get(token) || 0) + 1)] on a [Map],
    whose entries stay in insertion order. *)
Fixpoint map_incr (m : list (str * nat)) (token : str) : list (str * nat) :=
  match m with
  | [] => [(token, 1)]
  | (k, v) :: m' =>
      if str_eqb k token then (k, v + 1) :: m' else (k, v) :: map_incr m' token
  end.

Definition tokenFreq (keywords : list str) : list (str * nat) :=
  fold_left (fun m keyword =>
               fold_left (fun m token =>
                            if Nat.ltb 1 (length token) then map_incr m token else m)
                         (getWordTokens rt keyword) m)
            keywords [].

(** [freq > Math.min(2, keywords.length * 0.3)].  The product is below 2
    only for at most six keywords, where it is no integer, so the test on
    the exact value is the test the program makes. *)
Definition frequent (n : nat) (freq : nat) : bool :=
  num_gtb (num_of_nat freq)
          (Math_min (Num 2%Q) (num_mul (num_of_nat n) (Num (3 # 10)%Q))).

Definition freq_cmp (a b : str * nat) : Z :=
  if negb (Nat.eqb (snd b) (snd a))
  then (Z.of_nat (snd b) - Z.of_nat (snd a))%Z
  else (Z.of_nat (length (fst b)) - Z.of_nat (length (fst a)))%Z.

Definition commonTokens (keywords : list str) : list str :=
  map fst
    (firstn 3
       (sort freq_cmp
          (filter (fun e => frequent (length keywords) (snd e))
                  (tokenFreq keywords)))).

Fixpoint join (sep : str) (l : list str) : str :=
  match l with
  | [] => []
  | [s] => s
  | s :: l' => s ++ sep ++ join sep l'
  end.

(** [extractGroupTopic(keywords)].  The trigram counts of the source are
    never read and are left out. *)
Definition extractGroupTopic (keywords : list str) : outcome str :=
  commonSubstrings <- findCommonSubstrings keywords ;;
  match commonSubstrings with
  | s :: _ => Returns s
  | [] =>
      match commonTokens keywords with
      | (_ :: _) as tokens =>
          let firstKeyword := match keywords with k :: _ => k | [] => [] end in
          Returns (join (if isCJK firstKeyword then [] else u " + ") tokens)
      | [] =>
          match keywords with
          | [] => Throws TypeError
          | k0 :: _ =>
              let shortestKeyword :=
                fold_left (fun shortest keyword =>
                             if Nat.ltb (length keyword) (length shortest)
                             then keyword else shortest)
                          keywords k0 in
              Returns (if Nat.ltb 30 (length shortestKeyword)
                       then substring shortestKeyword 0 27 ++ u "..."
                       else shortestKeyword)
          end
      end
  end.

End Topic.

(** ** Records, groups and results *)

(** A record of the input.  A numeric field that is missing (or not a
    number) is [None]; the program reads it as [kw.clicks || 0]. *)
Record KeywordRecord : Type := {
  query : str;
  clicks : option Z;
  impressions : option Z;
  ctr : option Q;
  position : option Q
}.

(** Records are objects: the input is a list of references into a store,
    and [indexOf] compares references. *)
Abbreviation ref := nat (only parsing).

Record GroupMetrics : Type := {
  totalClicks : Z;
  totalImpressions : Z;
  avgCTR : num;
  avgPosition : num;
  keywordCount : nat
}.

Record Group : Type := {
  id : nat;   (* the number in the string group_N *)
  topic : str;
  intent : Intent;
  keywords : list ref;
  metrics : GroupMetrics;
  size : nat;
  expanded : bool
}.

(** The object returned by [groupKeywords]; a count that the object does
    not have is [None]. *)
Record GroupingResult : Type := {
  groups : list Group;
  ungrouped : list ref;
  totalGroups : option nat;
  totalKeywords : option nat;
  groupedKeywords : option nat
}.

Record Options : Type := {
  similarityThreshold : num;
  minGroupSize : Z;
  maxGroups : Z;
  groupByIntent : bool
}.

(** The defaults of the destructured [options]. *)
Definition default_options : Options :=
  {| similarityThreshold := Num (5 # 10)%Q;
     minGroupSize := 2;
     maxGroups := 20;
     groupByIntent := true |}.

(** The key of a bucket of [keywordsByIntent]. *)
Inductive bucket_key : Type :=
| key_intent (i : Intent)
| key_all.

Inductive step_result : Type :=
| Stop
| Merge (clusters : list (list ref)).

Definition or0 (x : option Z) : Z := match x with Some v => v | None => 0%Z end.
Definition or0Q (x : option Q) : Q := match x with Some v => v | None => 0%Q end.

(** [Math.round(x * scale) / scale] *)
Definition round_to (scale : Z) (x : num) : num :=
  match x with
  | NaN => NaN
  | Num q => Num (inject_Z (Qfloor (q * inject_Z scale + (1 # 2))) / inject_Z scale)%Q
  end.

(** The pairs [(i, j)] of the nested loops [i < j < n], in their order. *)
Definition pairs (n : nat) : list (nat * nat) :=
  flat_map (fun i => map (fun j => (i, j)) (seq (S i) (n - S i))) (seq 0 n).

(** [clusters.filter((_, index) => index !== i && index !== j)], the
    first element having index [k]. *)
Fixpoint remove_two {A : Type} (i j k : Z) (l : list A) : list A :=
  match l with
  | [] => []
  | x :: l' =>
      if (negb (k =? i) && negb (k =? j))%Z
      then x :: remove_two i j (k + 1) l'
      else remove_two i j (k + 1) l'
  end.

(** [a.splice(start)] removes the elements from the actual start on; a
    negative start counts from the end. *)
Definition splice_start (len start : Z) : Z :=
  if (start <? 0)%Z then Z.max (len + start) 0 else Z.min start len.

Fixpoint foldM {A B : Type} (f : A -> B -> outcome A) (l : list B) (a : A)
  : outcome A :=
  match l with
  | [] => Returns a
  | x :: l' => a' <- f a x ;; foldM f l' a'
  end.

Section Engine.

Variable rt : Runtime.
Variable heap : ref -> KeywordRecord.

(** ** GroupMetricsAggregator *)

Definition calculateGroupMetrics (kws : list ref) : GroupMetrics :=
  let totalClicks := fold_left (fun sum kw => (sum + or0 (clicks (heap kw)))%Z) kws 0%Z in
  let totalImpressions :=
    fold_left (fun sum kw => (sum + or0 (impressions (heap kw)))%Z) kws 0%Z in
  let avgCTR :=
    if (0 <? totalImpressions)%Z
    then num_mul (num_div (Num (inject_Z totalClicks)) (Num (inject_Z totalImpressions)))
                 (Num 100%Q)
    else Num 0%Q in
  let avgPosition :=
    num_div (Num (fold_left (fun sum kw => (sum + or0Q (position (heap kw)))%Q) kws 0%Q))
            (num_of_nat (length kws)) in
  {| totalClicks := totalClicks;
     totalImpressions := totalImpressions;
     avgCTR := round_to 100 avgCTR;
     avgPosition := round_to 10 avgPosition;
     keywordCount := length kws |}.

(** ** ClusterBuilder *)

(** [createSimilarityMatrix]: the diagonal is 1, the cell [(i, j)] with
    [i < j] holds the similarity of the queries [i] and [j] and is copied
    to [(j, i)]. *)
Definition createSimilarityMatrix (kws : list ref) : list (list num) :=
  let q := fun i => query (heap (nth i kws 0)) in
  map (fun i =>
         map (fun j =>
                if Nat.eqb i j then Num 1%Q
                else if Nat.ltb i j then calculateSimilarity rt (q i) (q j)
                else calculateSimilarity rt (q j) (q i))
             (seq 0 (length kws)))
      (seq 0 (length kws)).

(** [similarities[index1][index2]]: reading a row that does not exist
    throws, a cell that does not exist is [undefined], which [Math.max]
    turns into [NaN]. *)
Definition matrix_get (similarities : list (list num)) (index1 index2 : Z)
  : outcome num :=
  match at_index similarities index1 with
  | None => Throws TypeError
  | Some row =>
      Returns (match at_index row index2 with Some x => x | None => NaN end)
  end.

Definition getClusterSimilarity (cluster1 cluster2 : list ref)
           (similarities : list (list num)) (allItems : list ref) : outcome num :=
  foldM (fun maxSimilarity item1 =>
           foldM (fun maxSimilarity item2 =>
                    similarity <- matrix_get similarities
                                    (indexOf allItems item1) (indexOf allItems item2) ;;
                    Returns (Math_max maxSimilarity similarity))
                 cluster2 maxSimilarity)
        cluster1 (Num 0%Q).

(** The search for the two most similar clusters: the state is
    [(maxSimilarity, mergeIndices)]. *)
Definition best_step (items : list ref) (similarities : list (list num))
           (clusters : list (list ref)) (st : num * (Z * Z)) (ij : nat * nat)
  : outcome (num * (Z * Z)) :=
  match nth_error clusters (fst ij), nth_error clusters (snd ij) with
  | Some ci, Some cj =>
      similarity <- getClusterSimilarity ci cj similarities items ;;
      Returns (if num_gtb similarity (fst st)
               then (similarity, (Z.of_nat (fst ij), Z.of_nat (snd ij)))
               else st)
  | _, _ => Throws TypeError
  end.

Definition find_best (items : list ref) (similarities : list (list num))
           (clusters : list (list ref)) : outcome (num * (Z * Z)) :=
  foldM (best_step items similarities clusters) (pairs (length clusters))
        (Num (-1)%Q, ((-1)%Z, (-1)%Z)).

(** One round of the [while (true)] loop. *)
Definition hc_iter (items : list ref) (similarities : list (list num))
           (threshold : num) (clusters : list (list ref)) : outcome step_result :=
  best <- find_best items similarities clusters ;;
  let '(maxSimilarity, (i, j)) := best in
  if num_ltb maxSimilarity threshold then Returns Stop
  else
    match at_index clusters i with
    | None => Throws TypeError
    | Some ci =>
        match at_index clusters j with
        | None => Throws TypeError
        | Some cj =>
            let mergedCluster := ci ++ cj in
            Returns (Merge (remove_two i j 0 clusters ++ [mergedCluster]))
        end
    end.

Fixpoint hc_loop (fuel : nat) (items : list ref) (similarities : list (list num))
         (threshold : num) (clusters : list (list ref)) : outcome (list (list ref)) :=
  match fuel with
  | 0 => OutOfFuel
  | S fuel' =>
      r <- hc_iter items similarities threshold clusters ;;
      match r with
      | Stop => Returns clusters
      | Merge clusters' => hc_loop fuel' items similarities threshold clusters'
      end
  end.

(** Every round but the last removes a cluster, so one round more than
    there are items is enough (see [performHierarchicalClustering_fuel]). *)
Definition performHierarchicalClustering (items : list ref)
           (similarities : list (list num)) (threshold : num)
  : outcome (list (list ref)) :=
  hc_loop (S (length items)) items similarities threshold
          (map (fun item => [item]) items).

(** The clusters after [k] rounds, if the loop gets that far. *)
Fixpoint hc_state (k : nat) (items : list ref) (similarities : list (list num))
         (threshold : num) (clusters : list (list ref)) : option (list (list ref)) :=
  match k with
  | 0 => Some clusters
  | S k' =>
      match hc_iter items similarities threshold clusters with
      | Returns (Merge clusters') => hc_state k' items similarities threshold clusters'
      | _ => None
      end
  end.

(** ** GroupingOrchestrator *)

Definition groupBySearchIntent (keywordData : list ref)
  : list (bucket_key * list ref) :=
  map (fun i => (key_intent i,
                 filter (fun kw =>
                           match classifyIntent rt (query (heap kw)), i with
                           | informational, informational
                           | commercial, commercial
                           | navigational, navigational
                           | transactional, transactional => true
                           | _, _ => false
                           end) keywordData))
      [informational; commercial; navigational; transactional].

(** The body of [clusters.forEach]; the state is [(finalGroups, ungrouped)]. *)
Definition process_cluster (options : Options) (key : bucket_key)
           (st : list Group * list ref) (cluster : list ref)
  : outcome (list Group * list ref) :=
  let '(finalGroups, ungrouped) := st in
  if (minGroupSize options <=? Z.of_nat (length cluster))%Z
  then
    groupTopic <- extractGroupTopic rt (map (fun item => query (heap item)) cluster) ;;
    let groupMetrics := calculateGroupMetrics cluster in
    groupIntent <-
      match key with
      | key_intent i => Returns i
      | key_all =>
          match cluster with
          | c0 :: _ => Returns (classifyIntent rt (query (heap c0)))
          | [] => Throws TypeError
          end
      end ;;
    Returns (finalGroups ++
             [ {| id := length finalGroups + 1;
                  topic := groupTopic;
                  intent := groupIntent;
                  keywords := cluster;
                  metrics := groupMetrics;
                  size := length cluster;
                  expanded := false |} ],
             ungrouped)
  else Returns (finalGroups, ungrouped ++ cluster).

(** The body of the loop over the buckets. *)
Definition process_bucket (options : Options) (st : list Group * list ref)
           (bucket : bucket_key * list ref) : outcome (list Group * list ref) :=
  let '(key, intentKeywords) := bucket in
  if Nat.ltb (length intentKeywords) 2
  then Returns (fst st, snd st ++ intentKeywords)
  else
    let similarities := createSimilarityMatrix intentKeywords in
    clusters <- performHierarchicalClustering intentKeywords similarities
                  (similarityThreshold options) ;;
    foldM (process_cluster options key) clusters st.

Definition clicks_cmp (a b : Group) : Z :=
  (totalClicks (metrics b) - totalClicks (metrics a))%Z.

(** The groups formed, before they are sorted and limited. *)
Definition form_groups (keywordData : list ref) (options : Options)
  : outcome (list Group * list ref) :=
  let keywordsByIntent :=
    if groupByIntent options then groupBySearchIntent keywordData
    else [(key_all, keywordData)] in
  foldM (process_bucket options) keywordsByIntent ([], []).

(** The position from which [finalGroups.splice(maxGroups)] removes. *)
Definition cut (options : Options) (n : nat) : nat :=
  if (maxGroups options <? Z.of_nat n)%Z
  then Z.to_nat (splice_start (Z.of_nat n) (maxGroups options))
  else n.

Definition groupKeywords (keywordData : option (list ref)) (options : Options)
  : outcome GroupingResult :=
  match keywordData with
  | None | Some [] =>
      Returns {| groups := []; ungrouped := [];
                 totalGroups := None; totalKeywords := None;
                 groupedKeywords := None |}
  | Some keywordData =>
      formed <- form_groups keywordData options ;;
      let sorted := sort clicks_cmp (fst formed) in
      let finalGroups := firstn (cut options (length sorted)) sorted in
      let extraGroups := skipn (cut options (length sorted)) sorted in
      Returns {| groups := finalGroups;
                 ungrouped := snd formed ++ flat_map keywords extraGroups;
                 totalGroups := Some (length finalGroups);
                 totalKeywords := Some (length keywordData);
                 groupedKeywords :=
                   Some (fold_left (fun sum group => sum + size group) finalGroups 0) |}
  end.

End Engine.

(** ** A host for the examples

    The examples below are run on a [Runtime] that follows the host on the
    strings they use: Basic Latin, Latin-1 and basic Cyrillic letters, and
    the capital I with dot above (U+0130), which lowercases to two code
    units.  Other code units are left as they are. *)

Module Host.

Definition lower_unit (c : N) : list N :=
  (if (65 <=? c) && (c <=? 90) then [c + 32]
   else if (192 <=? c) && (c <=? 222) && negb (c =? 215) then [c + 32]
   else if c =? 304 then [105; 775]
   else if (1040 <=? c) && (c <=? 1071) then [c + 32]
   else if (1024 <=? c) && (c <=? 1039) then [c + 80]
   else [c])%N.

Definition lower (s : str) : str := flat_map lower_unit s.

Definition upper_unit (c : N) : N :=
  (if (97 <=? c) && (c <=? 122) then c - 32
   else if (224 <=? c) && (c <=? 254) && negb (c =? 247) then c - 32
   else if (1072 <=? c) && (c <=? 1103) then c - 32
   else if (1104 <=? c) && (c <=? 1119) then c - 80
   else c)%N.

Definition letter (c : N) : bool :=
  ((65 <=? c) && (c <=? 90) || (97 <=? c) && (c <=? 122)
   || (192 <=? c) && (c <=? 255) && negb (c =? 215) && negb (c =? 247)
   || (1024 <=? c) && (c <=? 1153)
   || (19968 <=? c) && (c <=? 40959) || (12353 <=? c) && (c <=? 12438)
   || (12449 <=? c) && (c <=? 12538) || (44032 <=? c) && (c <=? 55203))%N.

Definition word_char (c : option N) : bool :=
  match c with
  | Some c => ((48 <=? c) && (c <=? 57) || (65 <=? c) && (c <=? 90)
               || (97 <=? c) && (c <=? 122) || (c =? 95))%N
  | None => false
  end.

Fixpoint starts_ci (s p : str) : bool :=
  match p, s with
  | [], _ => true
  | y :: p', x :: s' => N.eqb (upper_unit x) (upper_unit y) && starts_ci s' p'
  | _ :: _, [] => false
  end.

(** The search of [\b a \b] for a literal [a]: [prev] is the character
    before the position. *)
Fixpoint word_search (a : str) (prev : option N) (k : str) : bool :=
  (starts_ci k a
   && negb (eqb (word_char prev) (word_char (nth_error k 0)))
   && negb (eqb (word_char (nth_error k (length a - 1)))
                (word_char (nth_error k (length a)))))
  || match k with
     | [] => false
     | c :: k' => word_search a (Some c) k'
     end.

(** Parentheses left open, counted from the left; [None] when one is
    closed that was not opened. *)
Fixpoint open_groups (depth : nat) (s : str) : option nat :=
  match s with
  | [] => Some depth
  | c :: s' =>
      if (c =? 40)%N then open_groups (S depth) s'
      else if (c =? 41)%N
           then match depth with
                | 0 => None
                | S d => open_groups d s'
                end
           else open_groups depth s'
  end.

(** [new RegExp(src, 'i')] for the sources that [isWord] builds: a
    literal between two [\b] is searched as a word; a source made of
    literals and parentheses is no pattern when a parenthesis stays open
    or closes nothing.  (Sources with other syntax are not met in the
    examples; they are read as literals.) *)
Definition RegExp_word (src : str) : option (str -> bool) :=
  let a := firstn (length src - 4) (skipn 2 src) in
  match open_groups 0 a with
  | Some 0 => Some (word_search a None)
  | _ => None
  end.

Definition rt : Runtime :=
  {| toLowerCase := lower;
     canonicalize := upper_unit;
     unicode_L := letter;
     RegExp_i := RegExp_word |}.

End Host.

(** ** Vocabulary of the statements *)

(** [x] may stand before [y] in a list sorted with [cmp]. *)
Definition precedes {A : Type} (cmp : A -> A -> Z) (x y : A) : Prop :=
  (cmp x y <= 0)%Z.





(** The cell of the matrix that [getClusterSimilarity] reads for two
    items ([NaN] where the row or the cell does not exist). *)
Definition cell (similarities : list (list num)) (items : list ref) (x y : ref) : num :=
  match at_index similarities (indexOf items x) with
  | Some row =>
      match at_index row (indexOf items y) with
      | Some v => v
      | None => NaN
      end
  | None => NaN
  end.

(** The single-linkage similarity of two clusters for a similarity [S] of
    items: the greatest of 0 and of the cross-pair values. *)
Definition cluster_sim (S : ref -> ref -> num) (c1 c2 : list ref) : num :=
  fold_left (fun m x => fold_left (fun m y => Math_max m (S x y)) c2 m) c1 (Num 0%Q).

(** Every item of every cluster is one of [items]. *)
Definition clusters_within (items : list ref) (clusters : list (list ref)) : Prop :=
  Forall (fun c => Forall (fun x => In x items) c) clusters.

(** No cluster holds records of both [A] and [B]. *)
Definition separated (A B : list ref) (clusters : list (list ref)) : Prop :=
  Forall (fun c => (forall x, In x c -> In x A) \/ (forall x, In x c -> In x B)) clusters.

(** The similarity of the clusters at the positions [ij], and the search
    for the best pair, on a similarity [S] of items. *)
Definition pair_sim (S : ref -> ref -> num) (clusters : list (list ref))
           (ij : nat * nat) : num :=
  cluster_sim S (nth (fst ij) clusters []) (nth (snd ij) clusters []).

Definition best_step_pure (S : ref -> ref -> num) (clusters : list (list ref))
           (st : num * (Z * Z)) (ij : nat * nat) : num * (Z * Z) :=
  if num_gtb (pair_sim S clusters ij) (fst st)
  then (pair_sim S clusters ij, (Z.of_nat (fst ij), Z.of_nat (snd ij)))
  else st.

(** The state of the search before any pair was looked at. *)
Definition no_pair : num * (Z * Z) := (Num (-1)%Q, ((-1)%Z, (-1)%Z)).

(** The records placed so far by the loop over the buckets: in a group
    or in [ungrouped]. *)
Definition placed (st : list Group * list ref) : list ref :=
  flat_map keywords (fst st) ++ snd st.

(** The order of the returned groups. *)
Definition more_clicks (a b : Group) : Prop :=
  (totalClicks (metrics b) <= totalClicks (metrics a))%Z.

(** [group.size] is the number of the keywords of the group. *)
Definition size_ok (g : Group) : Prop := size g = length (keywords g).

(** ** Inputs of the examples *)

Module Examples.

Definition record (q : string) (c : Z) : KeywordRecord :=
  {| query := u q; clicks := Some c; impressions := Some 100%Z;
     ctr := None; position := Some (3 # 1)%Q |}.

Definition store (l : list KeywordRecord) : ref -> KeywordRecord :=
  fun r => nth r l (record "" 0).

(** Three queries on running shoes (the first scenario of the
    specification), with the options of that scenario. *)
Definition shoes : ref -> KeywordRecord :=
  store [record "buy running shoes" 3; record "best running shoes" 4;
         record "running shoes price" 5].

Definition shoes_options : Options :=
  {| similarityThreshold := Num (4 # 10)%Q; minGroupSize := 2;
     maxGroups := 20; groupByIntent := false |}.

(** A chain: the first and the last query are far from each other, the
    middle one is close to both. *)
Definition chain : ref -> KeywordRecord :=
  store [record "running shoes" 1; record "running shoes sale" 1;
         record "shoes sale" 1].

(** Two pairs of the same shape, with the same clicks. *)
Definition twins : ref -> KeywordRecord :=
  store [record "aaa bbb" 1; record "aaa ccc" 1;
         record "ddd eee" 1; record "ddd fff" 1].

Definition twins_options (cap : Z) : Options :=
  {| similarityThreshold := Num (3 # 10)%Q; minGroupSize := 2;
     maxGroups := cap; groupByIntent := false |}.

(** Two queries with parentheses. *)
Definition brackets : ref -> KeywordRecord :=
  store [record "(ab-cd(" 1; record "(ab cd(" 1].

End Examples.

(** A call returns, or throws the SyntaxError of [new RegExp]. *)
Definition returns_or_SyntaxError {A : Type} (o : outcome A) : Prop :=
  (exists a, o = Returns a) \/ o = Throws SyntaxError.

(** The buckets that the loop of [groupKeywords] goes through. *)
Definition buckets (rt : Runtime) (heap : ref -> KeywordRecord)
           (keywordData : list ref) (options : Options)
  : list (bucket_key * list ref) :=
  if groupByIntent options then groupBySearchIntent rt heap keywordData
  else [(key_all, keywordData)].

(** The similarity of two records of the store: 1 for a record and
    itself, otherwise the similarity of the queries. *)
Definition record_sim (rt : Runtime) (heap : ref -> KeywordRecord) (x y : ref) : num :=
  if Nat.eqb x y then Num 1%Q
  else calculateSimilarity rt (query (heap x)) (query (heap y)).

(** Two items are linked when the similarity of the clusters that hold
    only them reaches the threshold; the items that can end in one cluster
    are those joined by a chain of links. *)
Definition linked (S : ref -> ref -> num) (threshold : num) (items : list ref)
           (x y : ref) : Prop :=
  In x items /\ In y items /\ num_geb (Math_max (Num 0%Q) (S x y)) threshold = true.

Definition connected (S : ref -> ref -> num) (threshold : num) (items : list ref)
  : ref -> ref -> Prop :=
  clos_refl_sym_trans ref (linked S threshold items).

(** Two lists of clusters hold the same clusters, as sets of records. *)
Definition same_clusters (F F' : list (list ref)) : Prop :=
  exists G, Permutation F G /\ Forall2 (@Permutation ref) G F'.

(** The first run forms no more groups than [maxGroups]: no group is
    dissolved. *)
Definition dissolves_none (rt : Runtime) (heap : ref -> KeywordRecord)
           (input : list ref) (options : Options) : Prop :=
  forall formed,
    form_groups rt heap input options = Returns formed ->
    (Z.of_nat (length (fst formed)) <= maxGroups options)%Z.

(** The similarities of the records of the input are numbers: none is
    [NaN]. *)
Definition plain_similarities (rt : Runtime) (heap : ref -> KeywordRecord)
           (input : list ref) : Prop :=
  forall x y,
    In x input -> In y input ->
    exists v, calculateSimilarity rt (query (heap x)) (query (heap y)) = Num v.

(** What the two runs have built at the same point of the loop over the
    buckets: the same groups, as sets of records, and the same records
    left over. *)
Definition agree (st st' : list Group * list ref) : Prop :=
  same_clusters (map keywords (fst st)) (map keywords (fst st'))
  /\ Permutation (snd st) (snd st').

(** An entry of a table of intent patterns matches a lowercased query. *)
Definition entry_matches (rt : Runtime) (lowerKeyword : str)
           (entry : Intent * (list pattern * Q)) : bool :=
  existsb (fun p => test rt p lowerKeyword) (fst (snd entry)).

(** ** Specifications of the two tables

    [lev a b] is the edit distance of two strings read from their ends:
    the cell [dp[i][j]] of [levenshteinDistance] is [lev] of the reversed
    prefixes of lengths [i] and [j].  [lev_cells a r s] lists the cells of
    a row from the column of the reversed prefix [r] on. *)
Fixpoint lev (a : str) : str -> nat :=
  match a with
  | [] => fun b => length b
  | x :: a' =>
      fix lev_a (b : str) : nat :=
        match b with
        | [] => S (length a')
        | y :: b' =>
            if N.eqb x y then lev a' b'
            else Nat.min (Nat.min (lev a' b + 1) (lev_a b' + 1)) (lev a' b' + 1)
        end
  end.

Fixpoint lev_cells (a r s : str) : list nat :=
  lev a r :: match s with
             | [] => []
             | d :: s' => lev_cells a (d :: r) s'
             end.

(** [common a b] is the length of the longest common prefix of [a] and
    [b]: the cell [dp[i][j]] of [findLongestCommonSubstring] is [common]
    of the reversed prefixes. *)
Fixpoint common (a b : str) : nat :=
  match a, b with
  | x :: a', y :: b' => if N.eqb x y then S (common a' b') else 0
  | _, _ => 0
  end.

(** The reversed prefixes of [rev r ++ s] that are at least as long as
    [r], shortest first. *)
Fixpoint rprefixes (r s : str) : list str :=
  r :: match s with
       | [] => []
       | d :: s' => rprefixes (d :: r) s'
       end.

(** A number of the similarity arithmetic that is not negative ([NaN] is
    left aside). *)
Definition not_negative (x : num) : Prop :=
  match x with
  | NaN => True
  | Num q => (0 <= q)%Q
  end.

(** The metrics of a group are those of its keywords. *)
Definition metrics_ok (heap : ref -> KeywordRecord) (g : Group) : Prop :=
  metrics g = calculateGroupMetrics heap (keywords g).

(** The clicks of a group, the key of the final sort. *)
Definition group_clicks (g : Group) : Z := totalClicks (metrics g).

(** No two of the groups formed have the same total of clicks. *)
Definition distinct_clicks (rt : Runtime) (heap : ref -> KeywordRecord)
           (input : list ref) (options : Options) : Prop :=
  forall formed,
    form_groups rt heap input options = Returns formed ->
    NoDup (map group_clicks (fst formed)).

(** Two groups hold the same records. *)
Definition same_records (g g' : Group) : Prop :=
  Permutation (keywords g) (keywords g').

(** ** Filtering and export of the groups *)

(** The name of a category: the key of its entry in [INTENT_PATTERNS] and
    in the buckets of [groupBySearchIntent], which is the string that
    [group.intent] holds. *)
Definition intent_name (i : Intent) : str :=
  match i with
  | informational => u "informational"
  | commercial => u "commercial"
  | navigational => u "navigational"
  | transactional => u "transactional"
  end.

(** The object [criteria] of [filterGroups]: a field that is [null] or
    missing is [None]. *)
Module Criteria.

Record t : Type := {
  intent : option str;
  minClicks : option num;
  minSize : option num;
  searchTerm : option str
}.

End Criteria.

(** A row of [exportGroupedData]. *)
Module ExportRow.

Record t : Type := {
  keyword : str;
  group_topic : str;
  group_intent : Intent;
  group_size : nat;
  clicks : Z;
  impressions : Z;
  ctr : Q;
  position : Q;
  group_total_clicks : Z;
  group_avg_position : num
}.

End ExportRow.

Section FilterAndExport.

Variable rt : Runtime.
Variable heap : ref -> KeywordRecord.

(** The callback of [groups.filter].  A criterion is applied when its
    value is truthy: a string that is not empty, a number that is neither
    0 nor [NaN]. *)
Definition filter_callback (criteria : Criteria.t) (group : Group) : bool :=
  if match Criteria.intent criteria with
     | Some ((_ :: _) as i) => negb (str_eqb (intent_name (intent group)) i)
     | _ => false
     end
  then false
  else if match Criteria.minClicks criteria with
          | Some (Num q) =>
              negb (Qeq_bool q 0%Q)
              && num_ltb (Num (inject_Z (totalClicks (metrics group)))) (Num q)
          | _ => false
          end
  then false
  else if match Criteria.minSize criteria with
          | Some (Num q) =>
              negb (Qeq_bool q 0%Q) && num_ltb (num_of_nat (size group)) (Num q)
          | _ => false
          end
  then false
  else match Criteria.searchTerm criteria with
       | Some ((_ :: _) as term) =>
           let searchLower := toLowerCase rt term in
           includes (toLowerCase rt (topic group)) searchLower
           || existsb (fun kw => includes (toLowerCase rt (query (heap kw))) searchLower)
                      (keywords group)
       | _ => true
       end.

Definition filterGroups (groups : list Group) (criteria : Criteria.t) : list Group :=
  filter (filter_callback criteria) groups.

(** [exportGroupedData(groupingResult, format)]: the rows of the groups,
    group after group, then those of the ungrouped records.  The argument
    [format] is not read. *)
Definition exportGroupedData (groupingResult : GroupingResult) (format : str)
  : list ExportRow.t :=
  flat_map (fun group =>
              map (fun keyword =>
                     {| ExportRow.keyword := query (heap keyword);
                        ExportRow.group_topic := topic group;
                        ExportRow.group_intent := intent group;
                        ExportRow.group_size := size group;
                        ExportRow.clicks := or0 (clicks (heap keyword));
                        ExportRow.impressions := or0 (impressions (heap keyword));
                        ExportRow.ctr := or0Q (ctr (heap keyword));
                        ExportRow.position := or0Q (position (heap keyword));
                        ExportRow.group_total_clicks := totalClicks (metrics group);
                        ExportRow.group_avg_position := avgPosition (metrics group) |})
                  (keywords group))
           (groups groupingResult)
  ++ map (fun keyword =>
            {| ExportRow.keyword := query (heap keyword);
               ExportRow.group_topic := u "Ungrouped";
               ExportRow.group_intent := classifyIntent rt (query (heap keyword));
               ExportRow.group_size := 1;
               ExportRow.clicks := or0 (clicks (heap keyword));
               ExportRow.impressions := or0 (impressions (heap keyword));
               ExportRow.ctr := or0Q (ctr (heap keyword));
               ExportRow.position := or0Q (position (heap keyword));
               ExportRow.group_total_clicks := or0 (clicks (heap keyword));
               ExportRow.group_avg_position := Num (or0Q (position (heap keyword))) |})
         (ungrouped groupingResult).

End FilterAndExport.

(** ** Sorting of the table *)

Section Sorting.

Variable rt : Runtime.

(** [String.prototype.localeCompare] of the host: a negative number, 0 or
    a positive number. *)
Variable localeCompare : str -> str -> Z.

(** [parseFloat(a[key])] for a key other than [query]: the number of the
    field, [NaN] when the record has no such field or no number in it. *)
Definition parseFloat_field (a : KeywordRecord) (key : str) : num :=
  if str_eqb key (u "clicks")
  then match clicks a with Some v => Num (inject_Z v) | None => NaN end
  else if str_eqb key (u "impressions")
  then match impressions a with Some v => Num (inject_Z v) | None => NaN end
  else if str_eqb key (u "ctr")
  then match ctr a with Some v => Num v | None => NaN end
  else if str_eqb key (u "position")
  then match position a with Some v => Num v | None => NaN end
  else NaN.

(** [direction === 'asc' ? 1 : -1] *)
Definition mult (direction : str) : Z :=
  if str_eqb direction (u "asc") then 1%Z else (-1)%Z.

(** The comparator of [sortDataAdvanced]: the loop over the sort keys. *)
Fixpoint compare_advanced (sortKeys : list (str * str)) (a b : KeywordRecord) : Z :=
  match sortKeys with
  | [] => 0%Z
  | (key, direction) :: rest =>
      if str_eqb key (u "query")
      then
        let valA := toLowerCase rt (query a) in
        let valB := toLowerCase rt (query b) in
        let comparison := localeCompare valA valB in
        if negb (comparison =? 0)%Z then (comparison * mult direction)%Z
        else compare_advanced rest a b
      else
        let valA := parseFloat_field a key in
        let valB := parseFloat_field b key in
        let aNaN := is_NaN valA in
        let bNaN := is_NaN valB in
        if aNaN && bNaN then compare_advanced rest a b
        else if aNaN then 1%Z
        else if bNaN then (-1)%Z
        else if num_ltb valA valB then (-1 * mult direction)%Z
        else if num_gtb valA valB then (1 * mult direction)%Z
        else compare_advanced rest a b
  end.

(** [sortDataAdvanced(data, sortKeys)]; [sortKeys] is [None] when it is
    missing. *)
Definition sortDataAdvanced (data : list KeywordRecord)
           (sortKeys : option (list (str * str))) : list KeywordRecord :=
  match sortKeys with
  | None | Some [] => data
  | Some sortKeys => sort (compare_advanced sortKeys) data
  end.

(** The comparator of [sortData]. *)
Definition compare_legacy (key direction : str) (a b : KeywordRecord) : Z :=
  if str_eqb key (u "query")
  then (localeCompare (toLowerCase rt (query a)) (toLowerCase rt (query b))
        * mult direction)%Z
  else
    let valA := parseFloat_field a key in
    let valB := parseFloat_field b key in
    let valA := if str_eqb key (u "position") && is_NaN valA
                then Num 9999%Q else valA in
    let valB := if str_eqb key (u "position") && is_NaN valB
                then Num 9999%Q else valB in
    let aNaN := is_NaN valA in
    let bNaN := is_NaN valB in
    if aNaN && bNaN then 0%Z
    else if aNaN then 1%Z
    else if bNaN then (-1)%Z
    else if num_ltb valA valB then (-1 * mult direction)%Z
    else if num_gtb valA valB then (1 * mult direction)%Z
    else 0%Z.

Definition sortData (data : list KeywordRecord) (key direction : str)
  : list KeywordRecord :=
  sort (compare_legacy key direction) data.

End Sorting.

(** * Properties *)

Unset Implicit Arguments.

Arguments num_ltb : simpl never.
Arguments num_gtb : simpl never.
Arguments num_geb : simpl never.
Arguments Math_max : simpl never.
Arguments Math_min : simpl never.

(** ** Empty input *)

(** C1 (what the program does): on a missing or empty list [groupKeywords]
    returns the object with the two empty lists only; the counts
    [totalGroups], [totalKeywords] and [groupedKeywords], which the other
    return statement fills in, are not present on this path (they read as
    [undefined], not as 0). *)
Theorem groupKeywords_empty_has_no_counts :
  forall (rt : Runtime) (heap : ref -> KeywordRecord) (options : Options)
         (keywordData : option (list ref)),
    keywordData = None \/ keywordData = Some [] ->
    groupKeywords rt heap keywordData options =
      Returns {| groups := []; ungrouped := [];
                 totalGroups := None; totalKeywords := None;
                 groupedKeywords := None |}.
Proof.
  intros rt heap options keywordData [H | H]; subst keywordData; reflexivity.
Qed.

Lemma groupKeywords_empty_has_no_counts_witness :
  groupKeywords Host.rt (fun _ => {| query := []; clicks := None; impressions := None;
                                     ctr := None; position := None |})
                (Some []) default_options =
    Returns {| groups := []; ungrouped := [];
               totalGroups := None; totalKeywords := None;
               groupedKeywords := None |}.
Proof.
  apply groupKeywords_empty_has_no_counts. right. reflexivity.
Defined.

(** ** Intent classification *)

Section IntentFacts.

Variable rt : Runtime.

(** The selection of [classifyIntent] on any table with positive weights:
    the category returned is the one of the first entry, in the order of
    the table, among the matching entries of greatest weight. *)
Lemma classify_in_first_heaviest :
  forall (table : list (Intent * (list pattern * Q))) (keyword : str),
    Forall (fun e => (0 < snd (snd e))%Q) table ->
    (Forall (fun e => entry_matches rt (toLowerCase rt keyword) e = false) table
     /\ classify_in rt table keyword = informational)
    \/ (exists before e after,
           table = before ++ e :: after
           /\ entry_matches rt (toLowerCase rt keyword) e = true
           /\ classify_in rt table keyword = fst e
           /\ Forall (fun e' => entry_matches rt (toLowerCase rt keyword) e' = true ->
                                (snd (snd e') < snd (snd e))%Q) before
           /\ Forall (fun e' => entry_matches rt (toLowerCase rt keyword) e' = true ->
                                (snd (snd e') <= snd (snd e))%Q) after).
Proof.
  intros table keyword Hpos. unfold classify_in.
  set (lk := toLowerCase rt keyword).
  assert (Hgen : forall after done st,
    Forall (fun e => (0 < snd (snd e))%Q) after ->
    ((Forall (fun e => entry_matches rt lk e = false) done /\ st = (informational, 0%Q))
     \/ (exists before e rest,
            done = before ++ e :: rest
            /\ entry_matches rt lk e = true
            /\ st = (fst e, snd (snd e))
            /\ Forall (fun e' => entry_matches rt lk e' = true ->
                                 (snd (snd e') < snd (snd e))%Q) before
            /\ Forall (fun e' => entry_matches rt lk e' = true ->
                                 (snd (snd e') <= snd (snd e))%Q) rest)) ->
    let st' := fold_left (classify_step rt lk) after st in
    (Forall (fun e => entry_matches rt lk e = false) (done ++ after)
     /\ fst st' = informational)
    \/ (exists before e rest,
           done ++ after = before ++ e :: rest
           /\ entry_matches rt lk e = true
           /\ fst st' = fst e
           /\ Forall (fun e' => entry_matches rt lk e' = true ->
                                (snd (snd e') < snd (snd e))%Q) before
           /\ Forall (fun e' => entry_matches rt lk e' = true ->
                                (snd (snd e') <= snd (snd e))%Q) rest)).
  { induction after as [| [i [ps w]] after IH]; intros done st Hp Hst.
    - simpl. rewrite app_nil_r.
      destruct Hst as [[Hn ->] | [before [e [rest [-> [He [-> [Hb Hr]]]]]]]].
      + left. auto.
      + right. exists before, e, rest. auto.
    - inversion Hp as [| ? ? Hw Hp']; subst. simpl in Hw.
      replace (done ++ (i, (ps, w)) :: after) with ((done ++ [(i, (ps, w))]) ++ after)
        by (rewrite <- app_assoc; reflexivity).
      simpl. apply IH; [exact Hp' |].
      unfold classify_step.
      destruct Hst as [[Hn ->] | [before [e [rest [-> [He [-> [Hb Hr]]]]]]]];
        cbn [fst snd].
      + destruct (existsb (fun p => test rt p lk) ps) eqn:Em.
        * assert (Hlt : Qle_bool w 0 = false).
          { destruct (Qle_bool w 0) eqn:E; [| reflexivity].
            apply Qle_bool_iff in E. exfalso. eapply Qlt_not_le; eassumption. }
          rewrite Hlt. simpl. right. exists done, (i, (ps, w)), [].
          split; [reflexivity |]. split; [exact Em |]. split; [reflexivity |].
          split; [| constructor].
          eapply Forall_impl; [| exact Hn]. simpl. intros a Ha Ha'. congruence.
        * left. split; [| reflexivity]. apply Forall_app. split; [exact Hn |].
          constructor; [exact Em | constructor].
      + destruct (existsb (fun p => test rt p lk) ps) eqn:Em.
        * destruct (Qle_bool w (snd (snd e))) eqn:E; simpl.
          -- apply Qle_bool_iff in E. right. exists before, e, (rest ++ [(i, (ps, w))]).
             split; [rewrite <- app_assoc; reflexivity |].
             split; [exact He |]. split; [reflexivity |]. split; [exact Hb |].
             apply Forall_app. split; [exact Hr |]. constructor; [| constructor].
             intros _. exact E.
          -- assert (Hlt : (snd (snd e) < w)%Q).
             { destruct (Qlt_le_dec (snd (snd e)) w) as [L | L]; [exact L |].
               apply Qle_bool_iff in L. congruence. }
             right. exists (before ++ e :: rest), (i, (ps, w)), [].
             split; [reflexivity |]. split; [exact Em |]. split; [reflexivity |].
             split; [| constructor]. simpl.
             apply Forall_app. split; [| constructor].
             ++ eapply Forall_impl; [| exact Hb]. simpl. intros a Ha Ha'.
                eapply Qlt_trans; [apply Ha, Ha' | exact Hlt].
             ++ intros _. exact Hlt.
             ++ eapply Forall_impl; [| exact Hr]. simpl. intros a Ha Ha'.
                eapply Qle_lt_trans; [apply Ha, Ha' | exact Hlt].
        * right. exists before, e, (rest ++ [(i, (ps, w))]).
          split; [rewrite <- app_assoc; reflexivity |].
          split; [exact He |]. split; [reflexivity |]. split; [exact Hb |].
          apply Forall_app. split; [exact Hr |]. constructor; [| constructor].
          intros C. unfold entry_matches in C. simpl in C. congruence. }
  destruct (Hgen table [] (informational, 0%Q) Hpos) as [H | H].
  - left. split; [constructor | reflexivity].
  - left. exact H.
  - right. exact H.
Qed.

(** C7.  [classifyIntent] returns a matching category of greatest weight,
    the first declared one among equals, and [informational] when no
    category matches; the weights are 0.8, 0.9, 0.7 and 0.85; the two
    queries of the scenario are classified as stated.  The last part says
    the same on the table itself: the entry chosen is heavier than every
    matching entry before it and at least as heavy as those after it. *)
Theorem classifyIntent_selects_heaviest_match :
  forall keyword : str,
    ((forall i, matching rt keyword i = false) ->
       classifyIntent rt keyword = informational)
    /\ (forall i, matching rt keyword i = true ->
          matching rt keyword (classifyIntent rt keyword) = true
          /\ (weight_of i <= weight_of (classifyIntent rt keyword))%Q
          /\ ((weight_of i == weight_of (classifyIntent rt keyword))%Q ->
              rank (classifyIntent rt keyword) <= rank i))
    /\ map (fun e => (fst e, snd (snd e))) INTENT_PATTERNS =
         [(informational, (8 # 10)%Q); (commercial, (9 # 10)%Q);
          (navigational, (7 # 10)%Q); (transactional, (85 # 100)%Q)]
    /\ classifyIntent Host.rt (u "how to fix a leaky faucet") = informational
    /\ classifyIntent Host.rt (u "buy iphone 15 price") = commercial
    /\ ((Forall (fun e => entry_matches rt (toLowerCase rt keyword) e = false)
                INTENT_PATTERNS
         /\ classifyIntent rt keyword = informational)
        \/ (exists before e after,
               INTENT_PATTERNS = before ++ e :: after
               /\ entry_matches rt (toLowerCase rt keyword) e = true
               /\ classifyIntent rt keyword = fst e
               /\ Forall (fun e' => entry_matches rt (toLowerCase rt keyword) e' = true ->
                                    (snd (snd e') < snd (snd e))%Q) before
               /\ Forall (fun e' => entry_matches rt (toLowerCase rt keyword) e' = true ->
                                    (snd (snd e') <= snd (snd e))%Q) after)).
Proof.
  intros keyword.
  assert (Hfirst := classify_in_first_heaviest INTENT_PATTERNS keyword).
  assert (Hpos : Forall (fun e : Intent * (list pattern * Q) => (0 < snd (snd e))%Q)
                        INTENT_PATTERNS)
    by (repeat constructor).
  specialize (Hfirst Hpos). fold (classifyIntent rt keyword) in Hfirst.
  assert (Hm : forall i, matching rt keyword i =
                 existsb (fun p => test rt p (toLowerCase rt keyword)) (patterns_of i))
    by reflexivity.
  pose proof (Hm informational) as H0. pose proof (Hm commercial) as H1.
  pose proof (Hm navigational) as H2. pose proof (Hm transactional) as H3.
  cbv [patterns_of] in H0, H1, H2, H3.
  assert (Hc : classifyIntent rt keyword =
    fst (fold_left (classify_step rt (toLowerCase rt keyword)) INTENT_PATTERNS
                   (informational, 0%Q))) by reflexivity.
  cbv [INTENT_PATTERNS fold_left classify_step] in Hc.
  rewrite <- H0, <- H1, <- H2, <- H3 in Hc.
  clear Hm.
  split; [| split; [| split; [reflexivity |
    split; [vm_compute; reflexivity | split; [vm_compute; reflexivity | exact Hfirst]]]]].
  - intros Hn. rewrite Hc, !Hn. reflexivity.
  - intros i Hi.
    destruct (matching rt keyword informational) eqn:E0,
             (matching rt keyword commercial) eqn:E1,
             (matching rt keyword navigational) eqn:E2,
             (matching rt keyword transactional) eqn:E3;
      cbn in Hc; rewrite Hc; clear Hc;
      destruct i; try congruence;
      (split; [assumption
              | split; [unfold Qle; cbn; lia
                       | unfold Qeq; cbn; intros; lia]]).
Qed.

End IntentFacts.

(** ** The stable sort *)

Section SortFacts.

Variable A : Type.
Variable cmp : A -> A -> Z.

Hypothesis cmp_total : forall x y, precedes cmp x y \/ precedes cmp y x.
Hypothesis cmp_trans :
  forall x y z, precedes cmp x y -> precedes cmp y z -> precedes cmp x z.

Lemma sort_insert_perm : forall x l, Permutation (sort_insert cmp x l) (x :: l).
Proof.
  intros x l. induction l as [| y l IH]; simpl.
  - apply Permutation_refl.
  - destruct (cmp x y <=? 0)%Z.
    + apply Permutation_refl.
    + eapply perm_trans; [apply perm_skip, IH | apply perm_swap].
Qed.

Lemma sort_perm : forall l, Permutation (sort cmp l) l.
Proof.
  induction l as [| x l IH]; simpl.
  - constructor.
  - eapply perm_trans; [apply sort_insert_perm | apply perm_skip, IH].
Qed.

Lemma sort_length : forall l, length (sort cmp l) = length l.
Proof. intros l. apply Permutation_length, sort_perm. Qed.

Lemma sort_insert_sorted :
  forall x l, StronglySorted (precedes cmp) l ->
    StronglySorted (precedes cmp) (sort_insert cmp x l).
Proof.
  intros x l Hs. induction Hs as [| y l Hs IH Hy]; simpl.
  - constructor; constructor.
  - destruct (cmp x y <=? 0)%Z eqn:E.
    + apply Z.leb_le in E. constructor.
      * constructor; assumption.
      * constructor; [exact E |].
        rewrite Forall_forall in *. intros z Hz.
        eapply cmp_trans; [exact E | apply Hy, Hz].
    + apply Z.leb_gt in E. constructor; [exact IH |].
      assert (Hyx : precedes cmp y x).
      { destruct (cmp_total x y) as [H | H]; [unfold precedes in H; lia | exact H]. }
      rewrite Forall_forall in *. intros z Hz.
      apply (Permutation_in _ (sort_insert_perm x l)) in Hz.
      destruct Hz as [<- | Hz]; [exact Hyx | apply Hy, Hz].
Qed.

Lemma sort_sorted : forall l, StronglySorted (precedes cmp) (sort cmp l).
Proof.
  induction l as [| x l IH]; simpl.
  - constructor.
  - apply sort_insert_sorted, IH.
Qed.

End SortFacts.

Lemma StronglySorted_firstn :
  forall (A : Type) (R : A -> A -> Prop) (n : nat) (l : list A),
    StronglySorted R l -> StronglySorted R (firstn n l).
Proof.
  intros A R n l Hs. revert n.
  induction Hs as [| x l Hs IH Hx]; intros [| n]; simpl; try constructor.
  - apply IH.
  - rewrite Forall_forall in *. intros y Hy. apply Hx.
    rewrite <- (firstn_skipn n l). apply in_or_app. left. exact Hy.
Qed.

Lemma StronglySorted_weaken :
  forall (A : Type) (R R' : A -> A -> Prop) (l : list A),
    (forall x y, R x y -> R' x y) -> StronglySorted R l -> StronglySorted R' l.
Proof.
  intros A R R' l HR Hs. induction Hs as [| x l Hs IH Hx]; constructor.
  - exact IH.
  - eapply Forall_impl; [| exact Hx]. intros y. apply HR.
Qed.

Lemma StronglySorted_map :
  forall (A B : Type) (R : B -> B -> Prop) (f : A -> B) (l : list A),
    StronglySorted (fun x y => R (f x) (f y)) l -> StronglySorted R (map f l).
Proof.
  intros A B R f l Hs. induction Hs as [| x l Hs IH Hx]; simpl; constructor.
  - exact IH.
  - rewrite Forall_forall in *. intros y Hy.
    apply in_map_iff in Hy. destruct Hy as [z [<- Hz]]. apply Hx, Hz.
Qed.

(** ** Strings and sets *)

Lemma str_eqb_eq : forall a b : str, str_eqb a b = true <-> a = b.
Proof.
  induction a as [| x a IH]; destruct b as [| y b]; simpl; split;
    try congruence; try reflexivity.
  - intros H. apply andb_true_iff in H. destruct H as [Hx Hab].
    apply N.eqb_eq in Hx. apply IH in Hab. congruence.
  - intros H. injection H as -> ->. apply andb_true_iff. split.
    + apply N.eqb_refl.
    + apply IH. reflexivity.
Qed.

Lemma str_eqb_refl : forall a : str, str_eqb a a = true.
Proof. intros a. apply str_eqb_eq. reflexivity. Qed.

Lemma str_eqb_neq : forall a b : str, str_eqb a b = false <-> a <> b.
Proof.
  intros a b. split.
  - intros H E. apply str_eqb_eq in E. congruence.
  - intros H. destruct (str_eqb a b) eqn:E; [| reflexivity].
    apply str_eqb_eq in E. contradiction.
Qed.

(** ** Token frequencies (topic extraction, second strategy) *)

Section TopicFacts.

Variable rt : Runtime.




Lemma existsb_str_In : forall t l, existsb (str_eqb t) l = true <-> In t l.
Proof.
  intros t l. rewrite existsb_exists. split.
  - intros [x [Hx E]]. apply str_eqb_eq in E. subst x. exact Hx.
  - intros H. exists t. split; [exact H | apply str_eqb_refl].
Qed.





End TopicFacts.




Section TopicClaim.

Variable rt : Runtime.


End TopicClaim.


(** ** Tokens *)

(** C4, as the program has it.  The minimal token length (1 for a query
    with a Han, Hiragana, Katakana or Hangul character, 2 otherwise) is
    applied by [extractTerms], which also asks for a letter in the token;
    the token signal of the similarity does not call [extractTerms]: it
    compares the tokens of [getWordTokens], from which only the empty
    pieces are removed. *)
Theorem extractTerms_filters_but_similarity_uses_getWordTokens :
  forall (rt : Runtime) (keyword : str),
    (forall token,
        In token (extractTerms rt keyword) <->
        In token (getWordTokens rt keyword)
        /\ minLength keyword <= length token
        /\ has_letter rt token = true)
    /\ minLength keyword = (if isCJK keyword then 1 else 2)
    /\ (forall token,
          In token (getWordTokens rt keyword) <->
          In token (split_separators (toLowerCase rt keyword))
          /\ 1 <= length token)
    /\ (forall keyword2,
          tokenSimilarity rt keyword keyword2 =
            if Nat.ltb 0 (length (getWordTokens rt keyword))
               && Nat.ltb 0 (length (getWordTokens rt keyword2))
            then jaccardSimilarity (getWordTokens rt keyword)
                                   (getWordTokens rt keyword2)
            else Num 0%Q).
Proof.
  intros rt keyword. split; [| split; [| split]].
  - intros token. unfold extractTerms. rewrite filter_In.
    destruct (Nat.ltb (length token) (minLength keyword)) eqn:E.
    + apply Nat.ltb_lt in E. split; [intros [_ H]; discriminate | intros [_ [H _]]; lia].
    + apply Nat.ltb_ge in E.
      destruct (has_letter rt token); [tauto |].
      rewrite andb_false_r. split; [intros [_ H]; discriminate | intros [_ [_ H]]; discriminate].
  - reflexivity.
  - intros token. unfold getWordTokens. rewrite filter_In.
    rewrite Nat.ltb_lt. reflexivity.
  - reflexivity.
Qed.

(** C4, the claim as it is written, fails: the query [a b] has no CJK
    character, yet its tokens of one code unit stay in the token signal of
    the similarity, which is 1/3 for [a b] and [a c] (and would be 0 if
    they were discarded). *)
Lemma similarity_tokens_keep_single_characters :
  isCJK (u "a b") = false
  /\ In (u "a") (getWordTokens Host.rt (u "a b"))
  /\ length (u "a") = 1
  /\ tokenSimilarity Host.rt (u "a b") (u "a c") = Num (1 # 3)%Q.
Proof.
  split; [reflexivity |]. split; [vm_compute; left; reflexivity |].
  split; reflexivity.
Qed.


(** ** Numbers *)

Lemma Math_max_Num :
  forall a b, exists c, Math_max (Num a) (Num b) = Num c /\ (a <= c)%Q /\ (b <= c)%Q
                        /\ (c = a \/ c = b).
Proof.
  intros a b. unfold Math_max. destruct (Qle_bool a b) eqn:E.
  - exists b. apply Qle_bool_iff in E. repeat split; auto. apply Qle_refl.
  - exists a. repeat split; auto; [apply Qle_refl |].
    destruct (Qlt_le_dec a b) as [H | H]; [| exact H].
    apply Qlt_le_weak, Qle_bool_iff in H. congruence.
Qed.

Lemma num_ltb_lt : forall a b, num_ltb (Num a) (Num b) = true <-> (a < b)%Q.
Proof.
  intros a b. unfold num_ltb. rewrite negb_true_iff. split.
  - intros H. destruct (Qlt_le_dec a b) as [L | L]; [exact L |].
    apply Qle_bool_iff in L. congruence.
  - intros H. destruct (Qle_bool b a) eqn:E; [| reflexivity].
    apply Qle_bool_iff in E. exfalso. eapply Qlt_not_le; eassumption.
Qed.

Lemma num_geb_le : forall a b, num_geb (Num a) (Num b) = true <-> (b <= a)%Q.
Proof. intros a b. unfold num_geb. apply Qle_bool_iff. Qed.

Lemma num_ltb_geb :
  forall a b, num_ltb (Num a) (Num b) = negb (num_geb (Num a) (Num b)).
Proof. reflexivity. Qed.

(** ** Reading the matrix *)

Lemma indexOf_from_In :
  forall (l : list ref) (x : ref) (k : Z),
    In x l ->
    (k <= indexOf_from l x k < k + Z.of_nat (length l))%Z
    /\ nth_error l (Z.to_nat (indexOf_from l x k - k)) = Some x.
Proof.
  induction l as [| y l IH]; intros x k Hin; simpl in *; [contradiction |].
  destruct (Nat.eqb y x) eqn:E.
  - apply Nat.eqb_eq in E. subst y. rewrite Z.sub_diag. simpl. split; [lia | reflexivity].
  - apply Nat.eqb_neq in E. destruct Hin as [H | H]; [contradiction |].
    destruct (IH x (k + 1)%Z H) as [Hr Hn]. split; [lia |].
    replace (Z.to_nat (indexOf_from l x (k + 1) - k))
      with (S (Z.to_nat (indexOf_from l x (k + 1) - (k + 1)))) by lia.
    exact Hn.
Qed.

Lemma indexOf_In :
  forall (l : list ref) (x : ref),
    In x l ->
    (0 <= indexOf l x < Z.of_nat (length l))%Z
    /\ nth_error l (Z.to_nat (indexOf l x)) = Some x.
Proof.
  intros l x H. unfold indexOf. destruct (indexOf_from_In l x 0 H) as [Hr Hn].
  rewrite Z.sub_0_r in Hn. split; [lia | exact Hn].
Qed.

Lemma at_index_in_range :
  forall (A : Type) (l : list A) (i : Z),
    (0 <= i < Z.of_nat (length l))%Z -> exists v, at_index l i = Some v.
Proof.
  intros A l i H. unfold at_index.
  destruct (i <? 0)%Z eqn:E; [apply Z.ltb_lt in E; lia |].
  destruct (nth_error l (Z.to_nat i)) eqn:En; [eauto |].
  apply nth_error_None in En. lia.
Qed.

Lemma matrix_get_cell :
  forall similarities items x y,
    length items <= length similarities ->
    In x items ->
    matrix_get similarities (indexOf items x) (indexOf items y)
    = Returns (cell similarities items x y).
Proof.
  intros similarities items x y Hlen Hx. unfold matrix_get, cell.
  destruct (indexOf_In items x Hx) as [Hr _].
  assert (Hi : (0 <= indexOf items x < Z.of_nat (length similarities))%Z) by lia.
  destruct (at_index_in_range _ similarities _ Hi) as [row Hrow].
  rewrite Hrow. reflexivity.
Qed.

Lemma getClusterSimilarity_returns :
  forall similarities items c1 c2,
    length items <= length similarities ->
    Forall (fun x => In x items) c1 ->
    getClusterSimilarity c1 c2 similarities items
    = Returns (cluster_sim (cell similarities items) c1 c2).
Proof.
  intros similarities items c1 c2 Hlen H1.
  unfold getClusterSimilarity, cluster_sim. generalize (Num 0%Q) as m.
  induction H1 as [| x c1 Hx H1 IH]; intros m; simpl; [reflexivity |].
  assert (Hin : forall c m,
             foldM (fun maxSimilarity item2 =>
                      similarity <- matrix_get similarities
                                      (indexOf items x) (indexOf items item2) ;;
                      Returns (Math_max maxSimilarity similarity)) c m
             = Returns (fold_left (fun m y => Math_max m (cell similarities items x y)) c m)).
  { induction c as [| y c IHc]; intros m0; simpl; [reflexivity |].
    rewrite matrix_get_cell by assumption. simpl. apply IHc. }
  rewrite Hin. simpl. apply IH.
Qed.

(** ** The search for the pair to merge *)

Lemma pairs_spec : forall n i j, In (i, j) (pairs n) <-> i < j < n.
Proof.
  intros n i j. unfold pairs. rewrite in_flat_map. split.
  - intros [k [Hk Hin]]. apply in_seq in Hk. apply in_map_iff in Hin.
    destruct Hin as [m [Heq Hm]]. injection Heq as <- <-. apply in_seq in Hm. lia.
  - intros H. exists i. split; [apply in_seq; lia |].
    apply in_map_iff. exists j. split; [reflexivity | apply in_seq; lia].
Qed.

Lemma find_best_returns :
  forall items similarities clusters,
    length items <= length similarities ->
    clusters_within items clusters ->
    find_best items similarities clusters
    = Returns (fold_left (best_step_pure (cell similarities items) clusters)
                         (pairs (length clusters)) no_pair).
Proof.
  intros items similarities clusters Hlen Hw. unfold find_best. fold no_pair.
  assert (Hps : forall p, In p (pairs (length clusters)) ->
                          fst p < length clusters /\ snd p < length clusters).
  { intros [i j] H. apply pairs_spec in H. simpl. lia. }
  revert Hps. generalize (pairs (length clusters)) as ps. generalize no_pair as st.
  intros st ps. revert st.
  induction ps as [| [i j] ps IH]; intros st Hps; simpl; [reflexivity |].
  destruct (Hps (i, j) (or_introl eq_refl)) as [Hi Hj]. simpl in Hi, Hj.
  unfold best_step at 1. simpl.
  destruct (nth_error clusters i) as [ci |] eqn:Ei;
    [| apply nth_error_None in Ei; lia].
  destruct (nth_error clusters j) as [cj |] eqn:Ej;
    [| apply nth_error_None in Ej; lia].
  rewrite getClusterSimilarity_returns; [| exact Hlen |].
  - simpl. rewrite IH by (intros p Hp; apply Hps; right; exact Hp).
    f_equal. f_equal. unfold best_step_pure, pair_sim. simpl.
    rewrite (nth_error_nth _ _ _ Ei), (nth_error_nth _ _ _ Ej). reflexivity.
  - unfold clusters_within in Hw. rewrite Forall_forall in Hw.
    apply Hw. eapply nth_error_In; eassumption.
Qed.

(** The result of the search: either no pair was taken, and then no pair
    has a similarity above -1, or the pair taken has the greatest
    similarity, and is the first one that has it. *)
Lemma best_fold_spec :
  forall S clusters ps,
    let st := fold_left (best_step_pure S clusters) ps no_pair in
    (st = no_pair
     /\ forall p, In p ps -> num_gtb (pair_sim S clusters p) (Num (-1)%Q) = false)
    \/ (exists p q,
           In p ps
           /\ st = (Num q, (Z.of_nat (fst p), Z.of_nat (snd p)))
           /\ pair_sim S clusters p = Num q
           /\ (-1 < q)%Q
           /\ forall p', In p' ps -> num_gtb (pair_sim S clusters p') (Num q) = false).
Proof.
  intros S clusters ps.
  assert (Hgen : forall ps seen st,
    ((st = no_pair
      /\ forall p, In p seen -> num_gtb (pair_sim S clusters p) (Num (-1)%Q) = false)
     \/ (exists p q,
            In p seen
            /\ st = (Num q, (Z.of_nat (fst p), Z.of_nat (snd p)))
            /\ pair_sim S clusters p = Num q
            /\ (-1 < q)%Q
            /\ forall p', In p' seen -> num_gtb (pair_sim S clusters p') (Num q) = false)) ->
    let st' := fold_left (best_step_pure S clusters) ps st in
    (st' = no_pair
      /\ forall p, In p (seen ++ ps) -> num_gtb (pair_sim S clusters p) (Num (-1)%Q) = false)
     \/ (exists p q,
            In p (seen ++ ps)
            /\ st' = (Num q, (Z.of_nat (fst p), Z.of_nat (snd p)))
            /\ pair_sim S clusters p = Num q
            /\ (-1 < q)%Q
            /\ forall p', In p' (seen ++ ps) ->
                          num_gtb (pair_sim S clusters p') (Num q) = false)).
  { clear ps. induction ps as [| p0 ps IH]; intros seen st Hst; simpl.
    - rewrite app_nil_r. exact Hst.
    - replace (seen ++ p0 :: ps) with ((seen ++ [p0]) ++ ps)
        by (rewrite <- app_assoc; reflexivity).
      apply IH. unfold best_step_pure.
      destruct Hst as [[-> Hall] | [p [q [Hp [-> [Hpq [Hq Hall]]]]]]];
        unfold no_pair; cbn [fst snd].
      + fold no_pair.
        destruct (num_gtb (pair_sim S clusters p0) (Num (-1))) eqn:E.
        * right. destruct (pair_sim S clusters p0) as [| q0] eqn:Eq0; [discriminate |].
          exists p0, q0. split; [apply in_or_app; right; left; reflexivity |].
          split; [reflexivity |]. split; [exact Eq0 |].
          apply num_ltb_lt in E. split; [exact E |].
          intros p' Hp'. apply in_app_or in Hp'. destruct Hp' as [Hp' | [<- | []]].
          -- specialize (Hall _ Hp').
             destruct (pair_sim S clusters p') as [| q'] eqn:Eq'; [reflexivity |].
             destruct (num_gtb (Num q') (Num q0)) eqn:E'; [| reflexivity].
             apply num_ltb_lt in E'.
             assert (Ht : num_gtb (Num q') (Num (-1)) = true).
             { apply num_ltb_lt. eapply Qlt_trans; eassumption. }
             congruence.
          -- rewrite Eq0. unfold num_gtb, num_ltb. rewrite negb_false_iff.
             apply Qle_bool_iff, Qle_refl.
        * left. split; [reflexivity |].
          intros p' Hp'. apply in_app_or in Hp'.
          destruct Hp' as [Hp' | [<- | []]]; [apply Hall, Hp' | exact E].
      + destruct (num_gtb (pair_sim S clusters p0) (Num q)) eqn:E.
        * right. destruct (pair_sim S clusters p0) as [| q0] eqn:Eq0; [discriminate |].
          apply num_ltb_lt in E.
          exists p0, q0. split; [apply in_or_app; right; left; reflexivity |].
          split; [reflexivity |]. split; [exact Eq0 |].
          split; [eapply Qlt_trans; eassumption |].
          intros p' Hp'. apply in_app_or in Hp'. destruct Hp' as [Hp' | [<- | []]].
          -- specialize (Hall _ Hp').
             destruct (pair_sim S clusters p') as [| q'] eqn:Eq'; [reflexivity |].
             destruct (num_gtb (Num q') (Num q0)) eqn:E'; [| reflexivity].
             apply num_ltb_lt in E'.
             assert (Ht : num_gtb (Num q') (Num q) = true).
             { apply num_ltb_lt. eapply Qlt_trans; eassumption. }
             congruence.
          -- rewrite Eq0. unfold num_gtb, num_ltb. rewrite negb_false_iff.
             apply Qle_bool_iff, Qle_refl.
        * right. exists p, q. split; [apply in_or_app; left; exact Hp |].
          split; [reflexivity |]. split; [exact Hpq |]. split; [exact Hq |].
          intros p' Hp'. apply in_app_or in Hp'.
          destruct Hp' as [Hp' | [<- | []]]; [apply Hall, Hp' | exact E]. }
  apply (Hgen ps [] no_pair). left. split; [reflexivity |]. intros p [].
Qed.

(** ** One round of the merge loop *)

Lemma remove_two_past :
  forall (A : Type) (l : list A) (i j k : Z),
    (i < k)%Z -> (j < k)%Z -> remove_two i j k l = l.
Proof.
  intros A l. induction l as [| x l IH]; intros i j k Hi Hj; simpl; [reflexivity |].
  destruct (k =? i)%Z eqn:E1; [apply Z.eqb_eq in E1; lia |].
  destruct (k =? j)%Z eqn:E2; [apply Z.eqb_eq in E2; lia |].
  simpl. f_equal. apply IH; lia.
Qed.

Lemma remove_two_second :
  forall (A : Type) (l : list A) (i j k : nat) (cj : A),
    i < k -> k <= j ->
    nth_error l (j - k) = Some cj ->
    Permutation l (cj :: remove_two (Z.of_nat i) (Z.of_nat j) (Z.of_nat k) l).
Proof.
  intros A l. induction l as [| x l IH]; intros i j k cj Hi Hj Hn.
  - destruct (j - k); discriminate.
  - simpl. destruct (Z.of_nat k =? Z.of_nat i)%Z eqn:E1; [apply Z.eqb_eq in E1; lia |].
    destruct (Z.of_nat k =? Z.of_nat j)%Z eqn:E2; simpl.
    + apply Z.eqb_eq in E2. assert (j = k) by lia. subst j.
      rewrite Nat.sub_diag in Hn. injection Hn as ->.
      rewrite remove_two_past by lia. apply Permutation_refl.
    + apply Z.eqb_neq in E2.
      destruct (j - k) as [| m] eqn:Em; [lia |]. simpl in Hn.
      replace (Z.of_nat k + 1)%Z with (Z.of_nat (S k)) by lia.
      eapply perm_trans; [| apply perm_swap].
      apply perm_skip. apply IH; [lia | lia |].
      replace (j - S k) with m by lia. exact Hn.
Qed.

Lemma remove_two_perm :
  forall (A : Type) (l : list A) (i j k : nat) (ci cj : A),
    k <= i -> i < j ->
    nth_error l (i - k) = Some ci ->
    nth_error l (j - k) = Some cj ->
    Permutation l (ci :: cj :: remove_two (Z.of_nat i) (Z.of_nat j) (Z.of_nat k) l).
Proof.
  intros A l. induction l as [| x l IH]; intros i j k ci cj Hk Hij Hi Hj.
  - destruct (i - k); discriminate.
  - simpl. destruct (Z.of_nat k =? Z.of_nat i)%Z eqn:E1; simpl.
    + apply Z.eqb_eq in E1. assert (i = k) by lia. subst i.
      rewrite Nat.sub_diag in Hi. injection Hi as ->.
      apply perm_skip.
      replace (Z.of_nat k + 1)%Z with (Z.of_nat (S k)) by lia.
      apply remove_two_second; [lia | lia |].
      destruct (j - k) as [| m] eqn:Em; [lia |]. simpl in Hj.
      replace (j - S k) with m by lia. exact Hj.
    + apply Z.eqb_neq in E1.
      destruct (Z.of_nat k =? Z.of_nat j)%Z eqn:E2; [apply Z.eqb_eq in E2; lia |].
      simpl.
      destruct (i - k) as [| m] eqn:Em; [lia |]. simpl in Hi.
      destruct (j - k) as [| m'] eqn:Em'; [lia |]. simpl in Hj.
      replace (Z.of_nat k + 1)%Z with (Z.of_nat (S k)) by lia.
      eapply perm_trans; [| apply perm_skip, perm_swap].
      eapply perm_trans; [| apply perm_swap].
      apply perm_skip. apply IH; [lia | lia | |].
      * replace (i - S k) with m by lia. exact Hi.
      * replace (j - S k) with m' by lia. exact Hj.
Qed.

(** The clusters after a merge, up to their order. *)
Lemma merge_perm :
  forall (clusters : list (list ref)) (i j : nat) (ci cj : list ref),
    i < j ->
    nth_error clusters i = Some ci ->
    nth_error clusters j = Some cj ->
    exists rest,
      Permutation clusters (ci :: cj :: rest)
      /\ Permutation (remove_two (Z.of_nat i) (Z.of_nat j) 0 clusters ++ [ci ++ cj])
                     ((ci ++ cj) :: rest).
Proof.
  intros clusters i j ci cj Hij Hi Hj.
  exists (remove_two (Z.of_nat i) (Z.of_nat j) 0 clusters). split.
  - apply (remove_two_perm _ clusters i j 0 ci cj); try lia.
    + rewrite Nat.sub_0_r. exact Hi.
    + rewrite Nat.sub_0_r. exact Hj.
  - apply Permutation_sym, Permutation_cons_append.
Qed.

Lemma at_index_nat :
  forall (A : Type) (l : list A) (i : nat), at_index l (Z.of_nat i) = nth_error l i.
Proof.
  intros A l i. unfold at_index.
  destruct (Z.of_nat i <? 0)%Z eqn:E; [apply Z.ltb_lt in E; lia |].
  rewrite Nat2Z.id. reflexivity.
Qed.

(** The three ways a round can end. *)
Lemma hc_iter_cases :
  forall items similarities threshold clusters,
    length items <= length similarities ->
    clusters_within items clusters ->
    (hc_iter items similarities threshold clusters = Returns Stop
     /\ exists q,
          num_ltb (Num q) threshold = true
          /\ (-1 <= q)%Q
          /\ forall p, In p (pairs (length clusters)) ->
                       num_gtb (pair_sim (cell similarities items) clusters p) (Num q) = false)
    \/ (exists i j ci cj q,
           i < j < length clusters
           /\ nth_error clusters i = Some ci
           /\ nth_error clusters j = Some cj
           /\ cluster_sim (cell similarities items) ci cj = Num q
           /\ (-1 < q)%Q
           /\ num_ltb (Num q) threshold = false
           /\ hc_iter items similarities threshold clusters
              = Returns (Merge (remove_two (Z.of_nat i) (Z.of_nat j) 0 clusters
                                ++ [ci ++ cj])))
    \/ (hc_iter items similarities threshold clusters = Throws TypeError
        /\ num_ltb (Num (-1)%Q) threshold = false
        /\ forall p, In p (pairs (length clusters)) ->
                     num_gtb (pair_sim (cell similarities items) clusters p)
                             (Num (-1)%Q) = false).
Proof.
  intros items similarities threshold clusters Hlen Hw.
  unfold hc_iter. rewrite find_best_returns by assumption.
  destruct (best_fold_spec (cell similarities items) clusters (pairs (length clusters)))
    as [[Hst Hall] | [[i j] [q [Hp [Hst [Hpq [Hq Hall]]]]]]];
    simpl in Hst; rewrite Hst; simpl.
  - destruct (num_ltb (Num (-1)) threshold) eqn:E.
    + left. split; [reflexivity |]. exists (-1)%Q.
      split; [exact E |]. split; [apply Qle_refl | exact Hall].
    + right. right. auto.
  - destruct (num_ltb (Num q) threshold) eqn:E.
    + left. split; [reflexivity |]. exists q.
      split; [exact E |]. split; [apply Qlt_le_weak, Hq | exact Hall].
    + right. left. apply pairs_spec in Hp.
      destruct (nth_error clusters i) as [ci |] eqn:Ei;
        [| apply nth_error_None in Ei; lia].
      destruct (nth_error clusters j) as [cj |] eqn:Ej;
        [| apply nth_error_None in Ej; lia].
      exists i, j, ci, cj, q. rewrite !at_index_nat, Ei, Ej.
      unfold pair_sim in Hpq. simpl in Hpq.
      rewrite (nth_error_nth _ _ _ Ei), (nth_error_nth _ _ _ Ej) in Hpq.
      repeat split; auto; lia.
Qed.

(** ** The merge loop *)

Lemma Permutation_concat_lists :
  forall (A : Type) (l l' : list (list A)),
    Permutation l l' -> Permutation (concat l) (concat l').
Proof.
  intros A l l' H. induction H; simpl.
  - constructor.
  - apply Permutation_app_head. assumption.
  - rewrite !app_assoc. apply Permutation_app_tail, Permutation_app_comm.
  - eapply perm_trans; eassumption.
Qed.

Section LoopFacts.

Variable items : list ref.
Variable similarities : list (list num).
Variable threshold : num.
Hypothesis matrix_rows : length items <= length similarities.

Lemma merge_within :
  forall clusters i j ci cj,
    i < j ->
    nth_error clusters i = Some ci ->
    nth_error clusters j = Some cj ->
    clusters_within items clusters ->
    clusters_within items (remove_two (Z.of_nat i) (Z.of_nat j) 0 clusters ++ [ci ++ cj]).
Proof.
  intros clusters i j ci cj Hij Hi Hj Hw. unfold clusters_within in *.
  destruct (merge_perm clusters i j ci cj Hij Hi Hj) as [rest [H1 H2]].
  eapply Permutation_Forall; [apply Permutation_sym, H2 |].
  apply (Permutation_Forall H1) in Hw.
  inversion Hw as [| ? ? Hci Hw']; subst. inversion Hw' as [| ? ? Hcj Hrest]; subst.
  constructor; [| exact Hrest]. apply Forall_app. split; assumption.
Qed.

Lemma merge_concat :
  forall (clusters : list (list ref)) i j ci cj,
    i < j ->
    nth_error clusters i = Some ci ->
    nth_error clusters j = Some cj ->
    Permutation (concat (remove_two (Z.of_nat i) (Z.of_nat j) 0 clusters ++ [ci ++ cj]))
                (concat clusters).
Proof.
  intros clusters i j ci cj Hij Hi Hj.
  destruct (merge_perm clusters i j ci cj Hij Hi Hj) as [rest [H1 H2]].
  eapply perm_trans; [apply Permutation_concat_lists, H2 |].
  eapply perm_trans; [| apply Permutation_concat_lists, Permutation_sym, H1].
  simpl. rewrite app_assoc. apply Permutation_refl.
Qed.

Lemma merge_length :
  forall (clusters : list (list ref)) i j ci cj,
    i < j ->
    nth_error clusters i = Some ci ->
    nth_error clusters j = Some cj ->
    S (length (remove_two (Z.of_nat i) (Z.of_nat j) 0 clusters ++ [ci ++ cj]))
    = length clusters.
Proof.
  intros clusters i j ci cj Hij Hi Hj.
  destruct (merge_perm clusters i j ci cj Hij Hi Hj) as [rest [H1 H2]].
  rewrite (Permutation_length H2), (Permutation_length H1). reflexivity.
Qed.

(** A round that merges keeps the items and removes one cluster. *)
Lemma hc_iter_merge :
  forall clusters clusters',
    clusters_within items clusters ->
    hc_iter items similarities threshold clusters = Returns (Merge clusters') ->
    exists i j ci cj q,
      i < j
      /\ nth_error clusters i = Some ci
      /\ nth_error clusters j = Some cj
      /\ cluster_sim (cell similarities items) ci cj = Num q
      /\ num_ltb (Num q) threshold = false
      /\ clusters' = remove_two (Z.of_nat i) (Z.of_nat j) 0 clusters ++ [ci ++ cj].
Proof.
  intros clusters clusters' Hw H.
  destruct (@hc_iter_cases items similarities threshold clusters matrix_rows Hw)
    as [[Hs _] | [[i [j [ci [cj [q [Hij [Hi [Hj [Hq [_ [Hn Hm]]]]]]]]]]] | [Ht _]]].
  - congruence.
  - rewrite Hm in H. injection H as <-.
    exists i, j, ci, cj, q. repeat split; auto; lia.
  - congruence.
Qed.

Lemma hc_state_invariant :
  forall P : list (list ref) -> Prop,
    (forall clusters clusters',
        clusters_within items clusters -> P clusters ->
        hc_iter items similarities threshold clusters = Returns (Merge clusters') ->
        P clusters') ->
    forall k clusters st,
      clusters_within items clusters -> P clusters ->
      hc_state k items similarities threshold clusters = Some st ->
      clusters_within items st /\ P st.
Proof.
  intros P Hstep. induction k as [| k IH]; intros clusters st Hw HP H; simpl in H.
  - injection H as <-. auto.
  - destruct (hc_iter items similarities threshold clusters) as [[| c'] | |] eqn:E;
      try discriminate.
    apply (IH c' st); [| eapply Hstep; eassumption | exact H].
    destruct (hc_iter_merge clusters c' Hw E) as [i [j [ci [cj [q [Hij [Hi [Hj [_ [_ ->]]]]]]]]]].
    apply merge_within; assumption.
Qed.

Lemma hc_loop_state :
  forall fuel clusters final,
    hc_loop fuel items similarities threshold clusters = Returns final ->
    exists k,
      hc_state k items similarities threshold clusters = Some final
      /\ hc_iter items similarities threshold final = Returns Stop.
Proof.
  induction fuel as [| fuel IH]; intros clusters final H; simpl in H; [discriminate |].
  destruct (hc_iter items similarities threshold clusters) as [[| c'] | |] eqn:E;
    simpl in H; try discriminate.
  - injection H as <-. exists 0. split; [reflexivity | exact E].
  - destruct (IH _ _ H) as [k [Hk Hs]]. exists (S k). simpl. rewrite E. auto.
Qed.

(** With a threshold above -1 the loop returns, and the fuel is never
    used up. *)
Lemma hc_loop_returns :
  num_ltb (Num (-1)%Q) threshold = true ->
  forall fuel clusters,
    clusters_within items clusters ->
    length clusters < fuel ->
    exists final, hc_loop fuel items similarities threshold clusters = Returns final.
Proof.
  intros Hthr. induction fuel as [| fuel IH]; intros clusters Hw Hf; [lia |].
  simpl.
  destruct (@hc_iter_cases items similarities threshold clusters matrix_rows Hw)
    as [[Hs _] | [[i [j [ci [cj [q [Hij [Hi [Hj [Hq [_ [Hn Hm]]]]]]]]]]] | [_ [Ht _]]]].
  - rewrite Hs. simpl. eauto.
  - rewrite Hm. simpl. apply IH.
    + apply merge_within; [lia | assumption..].
    + pose proof (merge_length clusters i j ci cj (proj1 Hij) Hi Hj) as Hl. lia.
  - congruence.
Qed.

(** With a threshold that is not above -1 the stop test never holds: the
    loop ends by reading the clusters at the indices [-1, -1]. *)
Lemma hc_loop_throws :
  num_ltb (Num (-1)%Q) threshold = false ->
  forall fuel clusters,
    clusters_within items clusters ->
    length clusters < fuel ->
    hc_loop fuel items similarities threshold clusters = Throws TypeError.
Proof.
  intros Hthr. induction fuel as [| fuel IH]; intros clusters Hw Hf; [lia |].
  simpl.
  destruct (@hc_iter_cases items similarities threshold clusters matrix_rows Hw)
    as [[_ [q [Hs [Hq _]]]] | [[i [j [ci [cj [q [Hij [Hi [Hj [Hq [_ [Hn Hm]]]]]]]]]]] | [Ht _]]].
  - exfalso. destruct threshold as [| t]; [discriminate |].
    apply num_ltb_lt in Hs.
    assert (Hc : num_ltb (Num (-1)) (Num t) = true).
    { apply num_ltb_lt. eapply Qle_lt_trans; eassumption. }
    congruence.
  - rewrite Hm. simpl. apply IH.
    + apply merge_within; [lia | assumption..].
    + pose proof (merge_length clusters i j ci cj (proj1 Hij) Hi Hj) as Hl. lia.
  - rewrite Ht. reflexivity.
Qed.

End LoopFacts.

(** ** The pipeline *)

Lemma foldM_invariant :
  forall (A B : Type) (f : A -> B -> outcome A) (P : A -> list B -> Prop),
    (forall a done x a', P a done -> f a x = Returns a' -> P a' (done ++ [x])) ->
    forall l done a a',
      P a done -> foldM f l a = Returns a' -> P a' (done ++ l).
Proof.
  intros A B f P Hstep. induction l as [| x l IH]; intros done a a' HP H; simpl in H.
  - injection H as <-. rewrite app_nil_r. exact HP.
  - destruct (f a x) as [a1 | |] eqn:E; simpl in H; try discriminate.
    replace (done ++ x :: l) with ((done ++ [x]) ++ l)
      by (rewrite <- app_assoc; reflexivity).
    eapply IH; [| exact H]. eapply Hstep; eassumption.
Qed.

Lemma foldM_cons :
  forall (A B : Type) (f : A -> B -> outcome A) (x : B) (l : list B) (a : A),
    foldM f (x :: l) a = bind (f a x) (fun a' => foldM f l a').
Proof. reflexivity. Qed.

Section PipelineFacts.

Variable rt : Runtime.
Variable heap : ref -> KeywordRecord.

Lemma createSimilarityMatrix_length :
  forall kws, length (createSimilarityMatrix rt heap kws) = length kws.
Proof.
  intros kws. unfold createSimilarityMatrix. rewrite length_map, length_seq. reflexivity.
Qed.

Lemma singletons_within :
  forall items : list ref, clusters_within items (map (fun item => [item]) items).
Proof.
  intros items. unfold clusters_within. apply Forall_forall. intros c Hc.
  apply in_map_iff in Hc. destruct Hc as [x [<- Hx]]. constructor; [exact Hx | constructor].
Qed.

Lemma concat_singletons :
  forall items : list ref, concat (map (fun item => [item]) items) = items.
Proof.
  induction items as [| x items IH]; simpl; [reflexivity | f_equal; exact IH].
Qed.

(** The clusters returned for a bucket hold each item of the bucket once,
    and none of them is empty. *)
Lemma clustering_partition :
  forall items similarities threshold clusters,
    length items <= length similarities ->
    performHierarchicalClustering items similarities threshold = Returns clusters ->
    Permutation (concat clusters) items /\ Forall (fun c => c <> []) clusters.
Proof.
  intros items similarities threshold clusters Hlen H.
  unfold performHierarchicalClustering in H.
  destruct (hc_loop_state _ _ _ _ _ _ H) as [k [Hk _]].
  refine (proj2 (hc_state_invariant items similarities threshold Hlen
            (fun c => Permutation (concat c) items /\ Forall (fun c0 => c0 <> []) c)
            _ k _ _ (singletons_within items) _ Hk)).
  - intros c c' Hw [Hp Hne] Hm.
    destruct (hc_iter_merge items similarities threshold Hlen c c' Hw Hm) as [i [j [ci [cj [q [Hij [Hi [Hj [_ [_ ->]]]]]]]]]].
    split.
    + eapply perm_trans; [apply merge_concat; eassumption | exact Hp].
    + destruct (merge_perm c i j ci cj Hij Hi Hj) as [rest [H1 H2]].
      apply (Permutation_Forall H1) in Hne.
      inversion Hne as [| ? ? Hci Hne']; subst. inversion Hne' as [| ? ? _ Hrest]; subst.
      apply (Permutation_Forall (Permutation_sym H2)).
      constructor; [| exact Hrest].
      intros C. apply app_eq_nil in C. destruct C as [C _]. contradiction.
  - split.
    + rewrite concat_singletons. apply Permutation_refl.
    + apply Forall_forall. intros c Hc. apply in_map_iff in Hc.
      destruct Hc as [x [<- _]]. discriminate.
Qed.

End PipelineFacts.

Section Placement.

Variable rt : Runtime.
Variable heap : ref -> KeywordRecord.
Variable options : Options.

Lemma process_cluster_placed :
  forall key st cluster st',
    process_cluster rt heap options key st cluster = Returns st' ->
    Permutation (placed st') (placed st ++ cluster)
    /\ (Forall size_ok (fst st) -> Forall size_ok (fst st')).
Proof.
  intros key [finalGroups ungrouped0] cluster st' H. unfold process_cluster in H.
  destruct (minGroupSize options <=? Z.of_nat (length cluster))%Z.
  - destruct (extractGroupTopic rt (map (fun item => query (heap item)) cluster))
      as [groupTopic | |]; simpl in H; try discriminate.
    destruct (match key with
              | key_intent i => Returns i
              | key_all =>
                  match cluster with
                  | [] => Throws TypeError
                  | c0 :: _ => Returns (classifyIntent rt (query (heap c0)))
                  end
              end) as [groupIntent | |]; simpl in H; try discriminate.
    injection H as <-. unfold placed. simpl. split.
    + rewrite flat_map_app. simpl. rewrite app_nil_r, <- !app_assoc.
      apply Permutation_app_head, Permutation_app_comm.
    + intros Hs. apply Forall_app. split; [exact Hs |].
      constructor; [reflexivity | constructor].
  - injection H as <-. unfold placed. simpl. split.
    + rewrite app_assoc. apply Permutation_refl.
    + auto.
Qed.

Lemma process_clusters_placed :
  forall key clusters st st',
    foldM (process_cluster rt heap options key) clusters st = Returns st' ->
    Permutation (placed st') (placed st ++ concat clusters)
    /\ (Forall size_ok (fst st) -> Forall size_ok (fst st')).
Proof.
  intros key clusters st st' H.
  assert (Hinv := foldM_invariant _ _ (process_cluster rt heap options key)
            (fun a done => Permutation (placed a) (placed st ++ concat done)
                           /\ (Forall size_ok (fst st) -> Forall size_ok (fst a)))).
  simpl in Hinv. apply (Hinv) with (done := []) (l := clusters) (a := st).
  - intros a done x a' [Hp Hs] Hx.
    destruct (process_cluster_placed key a x a' Hx) as [Hp' Hs']. split.
    + eapply perm_trans; [exact Hp' |].
      rewrite concat_app. simpl. rewrite app_nil_r, app_assoc.
      apply Permutation_app_tail, Hp.
    + auto.
  - simpl. rewrite app_nil_r. split; [apply Permutation_refl | auto].
  - exact H.
Qed.

Lemma process_bucket_placed :
  forall st bucket st',
    process_bucket rt heap options st bucket = Returns st' ->
    Permutation (placed st') (placed st ++ snd bucket)
    /\ (Forall size_ok (fst st) -> Forall size_ok (fst st')).
Proof.
  intros st [key intentKeywords] st' H. unfold process_bucket in H. simpl.
  destruct (Nat.ltb (length intentKeywords) 2).
  - injection H as <-. unfold placed. simpl. rewrite app_assoc.
    split; [apply Permutation_refl | auto].
  - destruct (performHierarchicalClustering intentKeywords
                (createSimilarityMatrix rt heap intentKeywords)
                (similarityThreshold options)) as [clusters | |] eqn:E;
      simpl in H; try discriminate.
    destruct (process_clusters_placed key clusters st st' H) as [Hp Hs].
    split; [| exact Hs].
    eapply perm_trans; [exact Hp |]. apply Permutation_app_head.
    apply clustering_partition in E; [tauto |].
    rewrite createSimilarityMatrix_length. apply le_n.
Qed.

Lemma groupBySearchIntent_partition :
  forall kws,
    Permutation (concat (map snd (groupBySearchIntent rt heap kws))) kws.
Proof.
  intros kws. unfold groupBySearchIntent. simpl. rewrite app_nil_r.
  induction kws as [| kw kws IH]; simpl; [constructor |].
  apply Permutation_sym in IH.
  destruct (classifyIntent rt (query (heap kw))); simpl; apply Permutation_sym.
  - apply perm_skip, IH.
  - apply Permutation_cons_app. exact IH.
  - rewrite app_assoc. rewrite app_assoc in IH.
    apply Permutation_cons_app. exact IH.
  - rewrite !app_assoc. rewrite !app_assoc in IH.
    apply Permutation_cons_app. exact IH.
Qed.

(** The groups formed and the records left over hold each record of the
    input once. *)
Lemma form_groups_placed :
  forall kws formed,
    form_groups rt heap kws options = Returns formed ->
    Permutation (placed formed) kws /\ Forall size_ok (fst formed).
Proof.
  intros kws formed H. unfold form_groups in H.
  assert (Hinv := foldM_invariant _ _ (process_bucket rt heap options)
            (fun a done => Permutation (placed a) (concat (map snd done))
                           /\ Forall size_ok (fst a))).
  simpl in Hinv.
  assert (Hstep : forall a done x a',
             Permutation (placed a) (concat (map snd done)) /\ Forall size_ok (fst a) ->
             process_bucket rt heap options a x = Returns a' ->
             Permutation (placed a') (concat (map snd (done ++ [x])))
             /\ Forall size_ok (fst a')).
  { intros a done x a' [Hp Hs] Hx.
    destruct (process_bucket_placed a x a' Hx) as [Hp' Hs']. split; [| auto].
    eapply perm_trans; [exact Hp' |].
    rewrite map_app, concat_app. simpl. rewrite app_nil_r.
    apply Permutation_app_tail, Hp. }
  assert (H0 : Permutation (placed ([], [])) (concat (map snd (@nil (bucket_key * list ref))))
               /\ Forall size_ok (fst (@nil Group, @nil ref))).
  { split; constructor. }
  destruct (Hinv Hstep _ [] _ formed H0 H) as [Hp Hs]. split; [| exact Hs].
  eapply perm_trans; [exact Hp |]. simpl.
  destruct (groupByIntent options).
  - apply groupBySearchIntent_partition.
  - simpl. rewrite app_nil_r. apply Permutation_refl.
Qed.

End Placement.

(** ** The result of [groupKeywords] *)

Lemma fold_left_size :
  forall (l : list Group) (a : nat),
    fold_left (fun sum group => sum + size group) l a = a + list_sum (map size l).
Proof.
  induction l as [| g l IH]; intros a; simpl; [lia |]. rewrite IH. lia.
Qed.

Lemma size_sum_length :
  forall l : list Group,
    Forall size_ok l -> list_sum (map size l) = length (flat_map keywords l).
Proof.
  intros l H. induction H as [| g l Hg Hl IH]; simpl; [reflexivity |].
  rewrite length_app, IH, Hg. reflexivity.
Qed.

(** What [groupKeywords] returns on a list that is not empty, in terms
    of the groups formed. *)
Lemma groupKeywords_returns :
  forall rt heap kw kws options r,
    groupKeywords rt heap (Some (kw :: kws)) options = Returns r ->
    exists formed,
      form_groups rt heap (kw :: kws) options = Returns formed
      /\ let sorted := sort clicks_cmp (fst formed) in
         let n := cut options (length sorted) in
         r = {| groups := firstn n sorted;
                ungrouped := snd formed ++ flat_map keywords (skipn n sorted);
                totalGroups := Some (length (firstn n sorted));
                totalKeywords := Some (length (kw :: kws));
                groupedKeywords :=
                  Some (fold_left (fun sum group => sum + size group)
                                  (firstn n sorted) 0) |}.
Proof.
  intros rt heap kw kws options r H. unfold groupKeywords in H.
  destruct (form_groups rt heap (kw :: kws) options) as [formed | |];
    simpl in H; try discriminate.
  injection H as <-. exists formed. split; reflexivity.
Qed.

(** C2.  On a list that is not empty, the groups and [ungrouped] of the
    returned object hold every record of the input exactly once, each
    [size] is the length of the group, [groupedKeywords] is the sum of the
    sizes, [totalKeywords] is the length of the input, and
    [groupedKeywords + ungrouped.length] equals it. *)
Theorem groupKeywords_partitions_input :
  forall rt heap input options r,
    input <> [] ->
    groupKeywords rt heap (Some input) options = Returns r ->
    Permutation (flat_map keywords (groups r) ++ ungrouped r) input
    /\ Forall size_ok (groups r)
    /\ groupedKeywords r = Some (list_sum (map size (groups r)))
    /\ totalKeywords r = Some (length input)
    /\ list_sum (map size (groups r)) + length (ungrouped r) = length input.
Proof.
  intros rt heap input options r Hne H.
  destruct input as [| kw kws]; [contradiction |].
  destruct (groupKeywords_returns _ _ _ _ _ _ H) as [formed [Hf Hr]].
  destruct (form_groups_placed rt heap options _ _ Hf) as [Hp Hs].
  simpl in Hr. subst r. simpl.
  set (sorted := sort clicks_cmp (fst formed)) in *.
  set (n := cut options (length sorted)) in *.
  assert (Hsorted : Forall size_ok sorted).
  { eapply Permutation_Forall; [apply Permutation_sym, sort_perm | exact Hs]. }
  assert (Hfirst : Forall size_ok (firstn n sorted)).
  { rewrite <- (firstn_skipn n sorted) in Hsorted. apply Forall_app in Hsorted. tauto. }
  assert (Hperm : Permutation
                    (flat_map keywords (firstn n sorted)
                     ++ snd formed ++ flat_map keywords (skipn n sorted))
                    (kw :: kws)).
  { eapply perm_trans; [| exact Hp]. unfold placed.
    eapply perm_trans;
      [apply Permutation_app_head, Permutation_app_comm |].
    rewrite app_assoc, <- flat_map_app, firstn_skipn.
    apply Permutation_app_tail. rewrite !flat_map_concat_map.
    apply Permutation_concat_lists, Permutation_map, sort_perm. }
  split; [exact Hperm |]. split; [exact Hfirst |].
  split; [rewrite fold_left_size; reflexivity |].
  split; [reflexivity |].
  rewrite (size_sum_length _ Hfirst), <- length_app.
  apply (Permutation_length Hperm).
Qed.

Lemma groupKeywords_partitions_input_witness :
  exists r,
    groupKeywords Host.rt Examples.shoes (Some [0; 1; 2]) Examples.shoes_options
    = Returns r
    /\ Permutation (flat_map keywords (groups r) ++ ungrouped r) [0; 1; 2]
    /\ Forall size_ok (groups r)
    /\ groupedKeywords r = Some (list_sum (map size (groups r)))
    /\ totalKeywords r = Some 3
    /\ list_sum (map size (groups r)) + length (ungrouped r) = 3.
Proof.
  eexists. split; [vm_compute; reflexivity |].
  apply (groupKeywords_partitions_input Host.rt Examples.shoes [0; 1; 2]
           Examples.shoes_options).
  - discriminate.
  - vm_compute. reflexivity.
Defined.

Lemma clicks_cmp_total :
  forall a b, precedes clicks_cmp a b \/ precedes clicks_cmp b a.
Proof. intros a b. unfold precedes, clicks_cmp. lia. Qed.

Lemma clicks_cmp_trans :
  forall a b c, precedes clicks_cmp a b -> precedes clicks_cmp b c ->
                precedes clicks_cmp a c.
Proof. intros a b c. unfold precedes, clicks_cmp. lia. Qed.

Lemma sorted_by_clicks :
  forall l, StronglySorted more_clicks (sort clicks_cmp l).
Proof.
  intros l. apply StronglySorted_weaken with (R := precedes clicks_cmp).
  - intros a b. unfold precedes, clicks_cmp, more_clicks. lia.
  - apply sort_sorted; [apply clicks_cmp_total | apply clicks_cmp_trans].
Qed.

Lemma form_groups_nil :
  forall rt heap options, form_groups rt heap [] options = Returns ([], []).
Proof.
  intros rt heap options. unfold form_groups.
  destruct (groupByIntent options); reflexivity.
Qed.

(** C6, as the program has it.  The returned groups are sorted by
    [metrics.totalClicks], descending.  When [maxGroups] is not negative,
    the groups returned are the first [maxGroups] of the sorted groups (all
    of them when there are not more), so there are at most [maxGroups], and
    exactly [maxGroups] when more were formed; the keywords of the others
    are appended to [ungrouped].  When [maxGroups] is negative, [splice]
    counts from the end: the last [-maxGroups] groups are dissolved, and
    the number of groups returned is above [maxGroups]. *)
Theorem groups_sorted_and_capped :
  forall rt heap input options r,
    groupKeywords rt heap (Some input) options = Returns r ->
    StronglySorted more_clicks (groups r)
    /\ exists formed,
         form_groups rt heap input options = Returns formed
         /\ (let sorted := sort clicks_cmp (fst formed) in
             let n := Z.of_nat (length (fst formed)) in
             let kept := if (maxGroups options <? 0)%Z
                         then Z.to_nat (Z.max (n + maxGroups options) 0)
                         else Z.to_nat (maxGroups options) in
             groups r = firstn kept sorted
             /\ ungrouped r = snd formed ++ flat_map keywords (skipn kept sorted)
             /\ ((0 <= maxGroups options)%Z ->
                 (Z.of_nat (length (groups r)) <= maxGroups options)%Z
                 /\ ((maxGroups options < n)%Z ->
                     Z.of_nat (length (groups r)) = maxGroups options))).
Proof.
  intros rt heap input options r H.
  assert (Hex : exists formed,
             form_groups rt heap input options = Returns formed
             /\ groups r = firstn (cut options (length (sort clicks_cmp (fst formed))))
                                 (sort clicks_cmp (fst formed))
             /\ ungrouped r =
                  snd formed
                  ++ flat_map keywords
                       (skipn (cut options (length (sort clicks_cmp (fst formed))))
                              (sort clicks_cmp (fst formed)))).
  { destruct input as [| kw kws].
    - exists ([], []). rewrite form_groups_nil. simpl in H. injection H as <-.
      simpl. rewrite firstn_nil, skipn_nil. auto.
    - destruct (groupKeywords_returns _ _ _ _ _ _ H) as [formed [Hf Hr]].
      exists formed. simpl in Hr. subst r. simpl. auto. }
  destruct Hex as [formed [Hf [Hg Hu]]].
  split.
  - rewrite Hg. apply StronglySorted_firstn, sorted_by_clicks.
  - exists formed. split; [exact Hf |]. cbv zeta.
    rewrite Hg, Hu. rewrite sort_length. unfold cut, splice_start.
    set (n := length (fst formed)).
    set (sorted := sort clicks_cmp (fst formed)).
    assert (Hn : length sorted = n) by apply sort_length.
    destruct (maxGroups options <? 0)%Z eqn:Eneg.
    + apply Z.ltb_lt in Eneg.
      destruct (maxGroups options <? Z.of_nat n)%Z eqn:E;
        [| apply Z.ltb_ge in E; lia].
      split; [reflexivity |]. split; [reflexivity |]. intros; lia.
    + apply Z.ltb_ge in Eneg.
      destruct (maxGroups options <? Z.of_nat n)%Z eqn:E.
      * apply Z.ltb_lt in E. rewrite Z.min_l by lia.
        split; [reflexivity |]. split; [reflexivity |]. intros _.
        rewrite length_firstn, Hn. lia.
      * apply Z.ltb_ge in E.
        rewrite (firstn_all2 (n := Z.to_nat (maxGroups options))) by lia.
        rewrite (skipn_all2 (n := Z.to_nat (maxGroups options))) by lia.
        rewrite <- Hn at 1 2. rewrite firstn_all, skipn_all.
        split; [reflexivity |]. split; [reflexivity |]. intros _.
        rewrite length_firstn, Hn. lia.
Qed.

Lemma groups_sorted_and_capped_witness :
  exists r,
    groupKeywords Host.rt Examples.twins (Some [0; 1; 2; 3]) (Examples.twins_options 1)
    = Returns r
    /\ length (groups r) = 1
    /\ StronglySorted more_clicks (groups r).
Proof.
  eexists. split; [vm_compute; reflexivity |]. split; [reflexivity |].
  apply (groups_sorted_and_capped Host.rt Examples.twins [0; 1; 2; 3]
           (Examples.twins_options 1)).
  vm_compute. reflexivity.
Defined.

(** C6, the claim as it is written, fails for a negative [maxGroups]:
    with [maxGroups = -1] the four records of the two pairs give two
    groups, of which one is returned, and 1 is not at most -1. *)
Lemma negative_maxGroups_is_exceeded :
  exists r,
    groupKeywords Host.rt Examples.twins (Some [0; 1; 2; 3])
                  (Examples.twins_options (-1)) = Returns r
    /\ length (groups r) = 1
    /\ (maxGroups (Examples.twins_options (-1)) < Z.of_nat (length (groups r)))%Z.
Proof.
  eexists. split; [vm_compute; reflexivity |]. split; [reflexivity |].
  simpl. lia.
Qed.

(** ** Clusters that stay apart *)

Lemma cluster_sim_below :
  forall (S : ref -> ref -> num) (threshold : num) (c1 c2 : list ref),
    num_ltb (Num 0%Q) threshold = true ->
    (forall x y, In x c1 -> In y c2 -> num_ltb (S x y) threshold = true) ->
    num_ltb (cluster_sim S c1 c2) threshold = true.
Proof.
  intros S threshold c1 c2 H0 Hcross. unfold cluster_sim.
  assert (Hmax : forall a b, num_ltb a threshold = true -> num_ltb b threshold = true ->
                             num_ltb (Math_max a b) threshold = true).
  { intros [| a] [| b] Ha Hb; try discriminate.
    destruct (Math_max_Num a b) as [c [-> [_ [_ [-> | ->]]]]]; assumption. }
  revert Hcross. generalize (Num 0%Q) H0. induction c1 as [| x c1 IH]; intros m Hm Hcross.
  - exact Hm.
  - simpl. apply IH.
    + assert (Hx : forall y, In y c2 -> num_ltb (S x y) threshold = true)
        by (intros y Hy; apply Hcross; [left; reflexivity | exact Hy]).
      clear Hcross IH. revert m Hm. induction c2 as [| y c2 IH2]; intros m Hm.
      * exact Hm.
      * simpl. apply IH2.
        -- intros y' Hy'. apply Hx. right. exact Hy'.
        -- apply Hmax; [exact Hm | apply Hx; left; reflexivity].
    + intros x' y Hx' Hy. apply Hcross; [right; exact Hx' | exact Hy].
Qed.

Section MatrixFacts.

Variable rt : Runtime.
Variable heap : ref -> KeywordRecord.

Lemma calculateSimilarity_same :
  forall s, calculateSimilarity rt s s = Num 1%Q.
Proof.
  intros s. unfold calculateSimilarity, calculateAlgorithmicSimilarity.
  rewrite str_eqb_refl. reflexivity.
Qed.

Lemma nth_error_map_seq :
  forall (A : Type) (f : nat -> A) (n i : nat),
    i < n -> nth_error (map f (seq 0 n)) i = Some (f i).
Proof.
  intros A f n i H. rewrite nth_error_map, nth_error_seq.
  destruct (Nat.ltb i n) eqn:E; [reflexivity | apply Nat.ltb_ge in E; lia].
Qed.

(** The cell read for two items of the list: 1 for an item and itself,
    otherwise the similarity of the two queries, taken in the order of
    the first positions of the items. *)
Lemma cell_of_matrix :
  forall items x y,
    In x items -> In y items ->
    cell (createSimilarityMatrix rt heap items) items x y =
      if Nat.eqb x y then Num 1%Q
      else if (indexOf items x <? indexOf items y)%Z
           then calculateSimilarity rt (query (heap x)) (query (heap y))
           else calculateSimilarity rt (query (heap y)) (query (heap x)).
Proof.
  intros items x y Hx Hy. unfold cell, createSimilarityMatrix.
  destruct (indexOf_In items x Hx) as [Hrx Hnx].
  destruct (indexOf_In items y Hy) as [Hry Hny].
  unfold at_index.
  destruct (indexOf items x <? 0)%Z eqn:E1; [apply Z.ltb_lt in E1; lia |].
  rewrite nth_error_map_seq by lia.
  destruct (indexOf items y <? 0)%Z eqn:E2; [apply Z.ltb_lt in E2; lia |].
  rewrite nth_error_map_seq by lia.
  rewrite (nth_error_nth _ _ 0 Hnx), (nth_error_nth _ _ 0 Hny).
  destruct (Nat.eqb (Z.to_nat (indexOf items x)) (Z.to_nat (indexOf items y))) eqn:E.
  - apply Nat.eqb_eq in E. rewrite E in Hnx. rewrite Hnx in Hny.
    injection Hny as ->. rewrite Nat.eqb_refl. reflexivity.
  - apply Nat.eqb_neq in E. destruct (Nat.eqb x y) eqn:Exy.
    + apply Nat.eqb_eq in Exy. subst y. contradiction.
    + destruct (Nat.ltb (Z.to_nat (indexOf items x)) (Z.to_nat (indexOf items y))) eqn:El.
      * apply Nat.ltb_lt in El.
        destruct (indexOf items x <? indexOf items y)%Z eqn:Ez;
          [reflexivity | apply Z.ltb_ge in Ez; lia].
      * apply Nat.ltb_ge in El.
        destruct (indexOf items x <? indexOf items y)%Z eqn:Ez;
          [apply Z.ltb_lt in Ez; lia | reflexivity].
Qed.

(** C8, as the program has it.  When the records of a bucket are split in
    two (every record is in [A] or in [B]), every similarity between a
    record of [A] and a record of [B] is strictly below the threshold, and
    the threshold is positive, then at no step of the merge loop does a
    cluster hold records of both, whatever the order of the records.  (A
    record outside the two sets could join them, one after the other; and
    with a threshold of 0 or less every two clusters merge.) *)
Theorem separated_halves_never_merge :
  forall items threshold A B,
    (forall x, In x items -> In x A \/ In x B) ->
    (forall a b, In a A -> In b B ->
       num_ltb (calculateSimilarity rt (query (heap a)) (query (heap b))) threshold = true
       /\ num_ltb (calculateSimilarity rt (query (heap b)) (query (heap a))) threshold
          = true) ->
    num_ltb (Num 0%Q) threshold = true ->
    (forall k st,
        hc_state k items (createSimilarityMatrix rt heap items) threshold
                 (map (fun item => [item]) items) = Some st ->
        separated A B st)
    /\ (forall clusters,
          performHierarchicalClustering items (createSimilarityMatrix rt heap items)
                                        threshold = Returns clusters ->
          separated A B clusters).
Proof.
  intros items threshold A B Hcover Hcross H0.
  assert (Hlen : length items <= length (createSimilarityMatrix rt heap items))
    by (rewrite createSimilarityMatrix_length; apply le_n).
  assert (Hcell : forall x y, In x items -> In y items ->
                    (In x A /\ In y B) \/ (In x B /\ In y A) ->
                    num_ltb (cell (createSimilarityMatrix rt heap items) items x y)
                            threshold = true).
  { intros x y Hx Hy HAB. rewrite cell_of_matrix by assumption.
    destruct (Nat.eqb x y) eqn:E.
    - apply Nat.eqb_eq in E. subst y.
      rewrite <- (calculateSimilarity_same (query (heap x))).
      destruct HAB as [[Ha Hb] | [Hb Ha]]; apply (Hcross x x Ha Hb).
    - destruct HAB as [[Ha Hb] | [Hb Ha]];
        destruct (indexOf items x <? indexOf items y)%Z;
        solve [apply (Hcross x y Ha Hb) | apply (Hcross y x Ha Hb)]. }
  assert (Hstates : forall k st,
             hc_state k items (createSimilarityMatrix rt heap items) threshold
                      (map (fun item => [item]) items) = Some st ->
             separated A B st).
  { intros k st Hk.
    refine (proj2 (hc_state_invariant items _ threshold Hlen (separated A B)
                     _ k _ _ (singletons_within items) _ Hk)).
    - intros c c' Hw Hsep Hm.
      destruct (hc_iter_merge items _ threshold Hlen c c' Hw Hm)
        as [i [j [ci [cj [q [Hij [Hi [Hj [Hq [Hn ->]]]]]]]]]].
      destruct (merge_perm c i j ci cj Hij Hi Hj) as [rest [H1 H2]].
      unfold separated in *.
      apply (Permutation_Forall H1) in Hsep.
      unfold clusters_within in Hw. apply (Permutation_Forall H1) in Hw.
      inversion Hsep as [| ? ? Sci Hsep']; subst.
      inversion Hsep' as [| ? ? Scj Srest]; subst.
      inversion Hw as [| ? ? Wci Hw']; subst. inversion Hw' as [| ? ? Wcj _]; subst.
      rewrite Forall_forall in Wci, Wcj.
      apply (Permutation_Forall (Permutation_sym H2)).
      constructor; [| exact Srest].
      assert (Hno : forall (P Q : ref -> Prop),
                 (forall x, In x ci -> P x) -> (forall y, In y cj -> Q y) ->
                 (forall x y, P x -> Q y -> (In x A /\ In y B) \/ (In x B /\ In y A)) ->
                 False).
      { intros P Q HP HQ HPQ.
        assert (Hb := cluster_sim_below
                        (cell (createSimilarityMatrix rt heap items) items)
                        threshold ci cj H0).
        rewrite Hq in Hb. rewrite Hb in Hn; [discriminate |].
        intros x y Hx Hy. apply Hcell; auto. }
      destruct Sci as [Sci | Sci], Scj as [Scj | Scj].
      + left. intros x Hx. apply in_app_or in Hx. destruct Hx; auto.
      + exfalso. apply (Hno (fun x => In x A) (fun y => In y B)); auto.
      + exfalso. apply (Hno (fun x => In x B) (fun y => In y A)); auto.
      + right. intros x Hx. apply in_app_or in Hx. destruct Hx; auto.
    - unfold separated. apply Forall_forall. intros c Hc.
      apply in_map_iff in Hc. destruct Hc as [x [<- Hx]].
      destruct (Hcover x Hx) as [Ha | Hb].
      + left. intros y [<- | []]. exact Ha.
      + right. intros y [<- | []]. exact Hb. }
  split; [exact Hstates |].
  intros clusters H. unfold performHierarchicalClustering in H.
  destruct (hc_loop_state _ _ _ _ _ _ H) as [k [Hk _]].
  apply (Hstates k clusters Hk).
Qed.

End MatrixFacts.

Lemma separated_halves_never_merge_witness :
  exists clusters,
    performHierarchicalClustering [0; 1; 2; 3]
      (createSimilarityMatrix Host.rt Examples.twins [0; 1; 2; 3])
      (Num (3 # 10)%Q) = Returns clusters
    /\ separated [0; 1] [2; 3] clusters.
Proof.
  eexists. split; [vm_compute; reflexivity |].
  apply (separated_halves_never_merge Host.rt Examples.twins [0; 1; 2; 3]
           (Num (3 # 10)%Q) [0; 1] [2; 3]).
  - intros x [<- | [<- | [<- | [<- | []]]]]; simpl; auto.
  - intros a b [<- | [<- | []]] [<- | [<- | []]]; split; vm_compute; reflexivity.
  - vm_compute. reflexivity.
  - vm_compute. reflexivity.
Defined.

(** C8, the claim as it is written, fails: in the chain of three queries
    the first and the last have a similarity below the threshold 0.5, in
    both orders, yet the middle query joins the first and then the last,
    and the loop returns one cluster that holds both. *)
Lemma bridge_record_joins_separated_records :
  num_ltb (calculateSimilarity Host.rt (query (Examples.chain 0))
                               (query (Examples.chain 2)))
          (Num (5 # 10)%Q) = true
  /\ num_ltb (calculateSimilarity Host.rt (query (Examples.chain 2))
                                  (query (Examples.chain 0)))
             (Num (5 # 10)%Q) = true
  /\ exists c,
       performHierarchicalClustering [0; 1; 2]
         (createSimilarityMatrix Host.rt Examples.chain [0; 1; 2])
         (Num (5 # 10)%Q) = Returns [c]
       /\ In 0 c /\ In 2 c.
Proof.
  split; [vm_compute; reflexivity |]. split; [vm_compute; reflexivity |].
  eexists. split; [vm_compute; reflexivity |]. simpl. auto.
Qed.

(** ** Termination and exceptions *)

Lemma clustering_returns :
  forall items similarities threshold,
    length items <= length similarities ->
    num_ltb (Num (-1)%Q) threshold = true ->
    exists clusters,
      performHierarchicalClustering items similarities threshold = Returns clusters.
Proof.
  intros items similarities threshold Hlen Hthr. unfold performHierarchicalClustering.
  apply (hc_loop_returns items similarities threshold Hlen Hthr).
  - apply singletons_within.
  - rewrite length_map. lia.
Qed.

Lemma clustering_throws :
  forall items similarities threshold,
    length items <= length similarities ->
    num_ltb (Num (-1)%Q) threshold = false ->
    performHierarchicalClustering items similarities threshold = Throws TypeError.
Proof.
  intros items similarities threshold Hlen Hthr. unfold performHierarchicalClustering.
  apply (hc_loop_throws items similarities threshold Hlen Hthr).
  - apply singletons_within.
  - rewrite length_map. lia.
Qed.

Lemma returns_or_SyntaxError_bind :
  forall (A B : Type) (m : outcome A) (k : A -> outcome B),
    returns_or_SyntaxError m ->
    (forall a, m = Returns a -> returns_or_SyntaxError (k a)) ->
    returns_or_SyntaxError (bind m k).
Proof.
  intros A B m k [[a ->] | ->] Hk; simpl.
  - apply Hk. reflexivity.
  - right. reflexivity.
Qed.

Lemma returns_or_SyntaxError_foldM :
  forall (A B : Type) (f : A -> B -> outcome A) (P : A -> Prop) (Q : B -> Prop),
    (forall a x, P a -> Q x -> returns_or_SyntaxError (f a x)) ->
    (forall a x a', P a -> Q x -> f a x = Returns a' -> P a') ->
    forall l a, P a -> Forall Q l -> returns_or_SyntaxError (foldM f l a).
Proof.
  intros A B f P Q Hf HP. induction l as [| x l IH]; intros a Ha Hl; simpl.
  - left. eauto.
  - inversion Hl as [| ? ? Hx Hl']; subst.
    apply returns_or_SyntaxError_bind; [apply Hf; assumption |].
    intros a' Ha'. apply IH; [eapply HP; eassumption | exact Hl'].
Qed.

Section Exceptions.

Variable rt : Runtime.
Variable heap : ref -> KeywordRecord.

Lemma mapM_isWord_outcome :
  forall kws l, returns_or_SyntaxError (mapM (isWord rt kws) l).
Proof.
  intros kws l. induction l as [| a l IH]; simpl.
  - left. eauto.
  - apply returns_or_SyntaxError_bind.
    + unfold isWord. destruct kws; [left; eauto |].
      destruct (RegExp_i rt _); [left; eauto | right; reflexivity].
    + intros b _. apply returns_or_SyntaxError_bind; [exact IH |].
      intros bs _. left. eauto.
Qed.

Lemma findCommonSubstrings_outcome :
  forall kws, returns_or_SyntaxError (findCommonSubstrings rt kws).
Proof.
  intros kws. unfold findCommonSubstrings.
  destruct kws as [| k0 [| k1 kws]]; try (left; eauto; fail).
  unfold sort_candidates.
  destruct (filter _ _) as [| c0 [| c1 cs]]; try (left; eauto; fail).
  apply returns_or_SyntaxError_bind; [apply mapM_isWord_outcome |].
  intros flags _. left. eauto.
Qed.

Lemma extractGroupTopic_outcome :
  forall kws, kws <> [] -> returns_or_SyntaxError (extractGroupTopic rt kws).
Proof.
  intros kws Hne. unfold extractGroupTopic.
  apply returns_or_SyntaxError_bind; [apply findCommonSubstrings_outcome |].
  intros cs _. destruct cs; [| left; eauto].
  destruct (commonTokens rt kws); [| left; eauto].
  destruct kws; [contradiction | left; eauto].
Qed.

Lemma process_cluster_outcome :
  forall options key st cluster,
    cluster <> [] ->
    returns_or_SyntaxError (process_cluster rt heap options key st cluster).
Proof.
  intros options key [finalGroups ungrouped0] cluster Hne. unfold process_cluster.
  destruct (minGroupSize options <=? Z.of_nat (length cluster))%Z; [| left; eauto].
  apply returns_or_SyntaxError_bind.
  - apply extractGroupTopic_outcome. destruct cluster; [contradiction | discriminate].
  - intros groupTopic _. destruct key; simpl; [left; eauto |].
    destruct cluster; [contradiction | simpl; left; eauto].
Qed.

Lemma process_bucket_outcome :
  forall options st bucket,
    num_ltb (Num (-1)%Q) (similarityThreshold options) = true ->
    returns_or_SyntaxError (process_bucket rt heap options st bucket).
Proof.
  intros options st [key intentKeywords] Hthr. unfold process_bucket.
  destruct (Nat.ltb (length intentKeywords) 2); [left; eauto |].
  assert (Hlen : length intentKeywords
                 <= length (createSimilarityMatrix rt heap intentKeywords))
    by (rewrite createSimilarityMatrix_length; apply le_n).
  destruct (clustering_returns intentKeywords _ _ Hlen Hthr) as [clusters Hc].
  rewrite Hc. simpl.
  apply clustering_partition in Hc; [| exact Hlen]. destruct Hc as [_ Hne].
  apply (returns_or_SyntaxError_foldM _ _ _ (fun _ => True) (fun c => c <> [])); auto.
  intros a x _ Hx. apply process_cluster_outcome. exact Hx.
Qed.

(** With a threshold above -1 the merge loop always returns, and the only
    exception that leaves [groupKeywords] is the SyntaxError of the topic
    extraction. *)
Lemma groupKeywords_outcome_above_minus_one :
  forall keywordData options,
    num_ltb (Num (-1)%Q) (similarityThreshold options) = true ->
    returns_or_SyntaxError (groupKeywords rt heap keywordData options).
Proof.
  intros keywordData options Hthr. unfold groupKeywords.
  destruct keywordData as [[| kw kws] |]; try (left; eauto; fail).
  apply returns_or_SyntaxError_bind; [| intros formed _; left; eauto].
  unfold form_groups.
  apply (returns_or_SyntaxError_foldM _ _ _ (fun _ => True) (fun _ => True)); auto.
  - intros a x _ _. apply process_bucket_outcome. exact Hthr.
  - apply Forall_forall. auto.
Qed.

(** With a threshold that is not above -1, a bucket of two records or more
    makes [groupKeywords] throw a TypeError. *)
Lemma groupKeywords_throws_at_or_below_minus_one :
  forall input options,
    num_ltb (Num (-1)%Q) (similarityThreshold options) = false ->
    Exists (fun bucket => 2 <= length (snd bucket)) (buckets rt heap input options) ->
    groupKeywords rt heap (Some input) options = Throws TypeError.
Proof.
  intros input options Hthr Hex.
  assert (Hform : form_groups rt heap input options = Throws TypeError).
  { unfold form_groups. fold (buckets rt heap input options).
    generalize (@nil Group, @nil ref).
    induction Hex as [[key b] bs Hb | [key b] bs Hbs IH]; intros st; simpl.
    - simpl in Hb. destruct (Nat.ltb (length b) 2) eqn:E;
        [apply Nat.ltb_lt in E; lia |].
      rewrite clustering_throws; [reflexivity | | exact Hthr].
      rewrite createSimilarityMatrix_length. apply le_n.
    - destruct (Nat.ltb (length b) 2) eqn:E; simpl; [apply IH |].
      rewrite clustering_throws; [reflexivity | | exact Hthr].
      rewrite createSimilarityMatrix_length. apply le_n. }
  unfold groupKeywords. destruct input as [| kw kws].
  - exfalso. unfold buckets in Hex. destruct (groupByIntent options); simpl in Hex.
    + repeat (inversion Hex as [? ? Hb | ? ? Hex']; subst;
              [simpl in Hb; lia | clear Hex; rename Hex' into Hex]).
      inversion Hex.
    + inversion Hex as [? ? Hb | ? ? Hex']; subst; [simpl in Hb; lia | inversion Hex'].
  - rewrite Hform. reflexivity.
Qed.

End Exceptions.

(** C10 (what the program does).  The two halves of the claim hold for
    the merge loop: with a threshold above -1 it returns, and at or below
    -1 a bucket of two records makes [groupKeywords] throw.  But a
    threshold above -1 does not make [groupKeywords] return for every
    input: the two queries with parentheses are clustered together, their
    two common substrings of three characters are spliced unescaped into
    [new RegExp], and the call throws a SyntaxError, with the default
    threshold 0.5. *)
Theorem groupKeywords_throws_on_unescaped_substring :
  num_ltb (Num (-1)%Q) (similarityThreshold default_options) = true
  /\ groupKeywords Host.rt Examples.brackets (Some [0; 1]) default_options
     = Throws SyntaxError
  /\ (forall rt heap items threshold,
         num_ltb (Num (-1)%Q) threshold = true ->
         exists clusters,
           performHierarchicalClustering items (createSimilarityMatrix rt heap items)
                                         threshold = Returns clusters)
  /\ (forall rt heap keywordData options,
         num_ltb (Num (-1)%Q) (similarityThreshold options) = true ->
         returns_or_SyntaxError (groupKeywords rt heap keywordData options))
  /\ (forall rt heap input options,
         num_geb (Num (-1)%Q) (similarityThreshold options) = true ->
         Exists (fun bucket => 2 <= length (snd bucket)) (buckets rt heap input options) ->
         groupKeywords rt heap (Some input) options = Throws TypeError).
Proof.
  split; [vm_compute; reflexivity |].
  split; [vm_compute; reflexivity |].
  split; [| split].
  - intros rt heap items threshold Hthr. apply clustering_returns; [| exact Hthr].
    rewrite createSimilarityMatrix_length. apply le_n.
  - intros rt heap keywordData options Hthr.
    apply groupKeywords_outcome_above_minus_one, Hthr.
  - intros rt heap input options Hthr Hex.
    apply groupKeywords_throws_at_or_below_minus_one; [| exact Hex].
    destruct (similarityThreshold options) as [| t]; [discriminate |].
    apply num_geb_le in Hthr.
    destruct (num_ltb (Num (-1)) (Num t)) eqn:E; [| reflexivity].
    apply num_ltb_lt in E. exfalso. eapply Qlt_not_le; eassumption.
Qed.

(** ** The clusters are the components of the link graph *)

Lemma cluster_sim_ext :
  forall (S S' : ref -> ref -> num) (c1 c2 : list ref),
    (forall x y, In x c1 -> In y c2 -> S x y = S' x y) ->
    cluster_sim S c1 c2 = cluster_sim S' c1 c2.
Proof.
  intros S S' c1 c2 H. unfold cluster_sim. generalize (Num 0%Q).
  induction c1 as [| x c1 IH]; intros m; simpl; [reflexivity |].
  assert (Hin : forall m0,
             fold_left (fun m y => Math_max m (S x y)) c2 m0
             = fold_left (fun m y => Math_max m (S' x y)) c2 m0).
  { assert (Hx : forall y, In y c2 -> S x y = S' x y)
      by (intros y Hy; apply H; [left; reflexivity | exact Hy]).
    clear H IH. induction c2 as [| y c2 IH2]; intros m0; simpl; [reflexivity |].
    rewrite Hx by (left; reflexivity). apply IH2.
    intros y' Hy'. apply Hx. right. exact Hy'. }
  rewrite Hin. apply IH. intros x' y Hx' Hy. apply H; [right; exact Hx' | exact Hy].
Qed.

(** The value of the single-linkage similarity when no cross-pair value
    is [NaN]: the greatest of 0 and of the cross-pair values. *)
Lemma cluster_sim_value :
  forall (S : ref -> ref -> num) (c1 c2 : list ref),
    (forall x y, In x c1 -> In y c2 -> exists v, S x y = Num v) ->
    exists q,
      cluster_sim S c1 c2 = Num q
      /\ (0 <= q)%Q
      /\ (q = 0%Q \/ exists x y, In x c1 /\ In y c2 /\ S x y = Num q)
      /\ (forall x y, In x c1 -> In y c2 -> exists v, S x y = Num v /\ (v <= q)%Q).
Proof.
  intros S c1 c2 Hnum. unfold cluster_sim.
  assert (Hgen : forall c1' m0,
    (forall x y, In x c1' -> In y c2 -> exists v, S x y = Num v) ->
    exists q,
      fold_left (fun m x => fold_left (fun m y => Math_max m (S x y)) c2 m) c1' (Num m0)
      = Num q
      /\ (m0 <= q)%Q
      /\ (q = m0 \/ exists x y, In x c1' /\ In y c2 /\ S x y = Num q)
      /\ (forall x y, In x c1' -> In y c2 -> exists v, S x y = Num v /\ (v <= q)%Q)).
  { induction c1' as [| x c1' IH]; intros m0 Hn; simpl.
    - exists m0. split; [reflexivity |]. split; [apply Qle_refl |].
      split; [left; reflexivity |]. intros x y [].
    - assert (Hinner : forall c2' m1,
        (forall y, In y c2' -> exists v, S x y = Num v) ->
        exists q,
          fold_left (fun m y => Math_max m (S x y)) c2' (Num m1) = Num q
          /\ (m1 <= q)%Q
          /\ (q = m1 \/ exists y, In y c2' /\ S x y = Num q)
          /\ (forall y, In y c2' -> exists v, S x y = Num v /\ (v <= q)%Q)).
      { induction c2' as [| y c2' IH2]; intros m1 Hy; simpl.
        - exists m1. split; [reflexivity |]. split; [apply Qle_refl |].
          split; [left; reflexivity |]. intros y [].
        - destruct (Hy y (or_introl eq_refl)) as [v Hv]. rewrite Hv.
          destruct (Math_max_Num m1 v) as [c [-> [Hm1 [Hvc Hc]]]].
          destruct (IH2 c (fun y' Hy' => Hy y' (or_intror Hy')))
            as [q [Hq [Hcq [Hwhich Hall]]]].
          exists q. split; [exact Hq |].
          split; [eapply Qle_trans; eassumption |]. split.
          + destruct Hwhich as [-> | [y' [Hy' Hs]]].
            * destruct Hc as [-> | ->]; [left; reflexivity |].
              right. exists y. split; [left; reflexivity | exact Hv].
            * right. exists y'. split; [right; exact Hy' | exact Hs].
          + intros y' [<- | Hy'].
            * exists v. split; [exact Hv | eapply Qle_trans; eassumption].
            * apply Hall, Hy'. }
      destruct (Hinner c2 m0 (fun y Hy => Hn x y (or_introl eq_refl) Hy))
        as [q1 [Hq1 [Hm1 [Hw1 Hall1]]]].
      rewrite Hq1.
      destruct (IH q1 (fun x' y Hx' Hy => Hn x' y (or_intror Hx') Hy))
        as [q [Hq [Hq1q [Hw Hall]]]].
      exists q. split; [exact Hq |].
      split; [eapply Qle_trans; eassumption |]. split.
      + destruct Hw as [-> | [x' [y [Hx' [Hy Hs]]]]].
        * destruct Hw1 as [-> | [y [Hy Hs]]]; [left; reflexivity |].
          right. exists x, y. split; [left; reflexivity | auto].
        * right. exists x', y. split; [right; exact Hx' | auto].
      + intros x' y [<- | Hx'] Hy.
        * destruct (Hall1 y Hy) as [v [Hv Hvq]].
          exists v. split; [exact Hv | eapply Qle_trans; eassumption].
        * apply Hall; assumption. }
  apply Hgen. exact Hnum.
Qed.

Section Components.

Variable items : list ref.
Variable similarities : list (list num).
Variable threshold : num.
Variable S : ref -> ref -> num.

Hypothesis matrix_rows : length items <= length similarities.
Hypothesis threshold_above : num_ltb (Num (-1)%Q) threshold = true.
Hypothesis cell_S :
  forall x y, In x items -> In y items -> cell similarities items x y = S x y.
Hypothesis S_number : forall x y, In x items -> In y items -> exists v, S x y = Num v.
Hypothesis S_symmetric : forall x y, In x items -> In y items -> S x y = S y x.

Lemma linked_sym :
  forall x y, linked S threshold items x y -> linked S threshold items y x.
Proof.
  intros x y [Hx [Hy H]]. split; [exact Hy |]. split; [exact Hx |].
  rewrite <- (S_symmetric x y Hx Hy). exact H.
Qed.

Lemma cluster_sim_cell :
  forall c1 c2,
    Forall (fun x => In x items) c1 -> Forall (fun x => In x items) c2 ->
    cluster_sim (cell similarities items) c1 c2 = cluster_sim S c1 c2.
Proof.
  intros c1 c2 H1 H2. apply cluster_sim_ext. intros x y Hx Hy.
  rewrite Forall_forall in H1, H2. apply cell_S; auto.
Qed.

(** Two clusters that are merged hold two linked items. *)
Lemma merge_links :
  forall ci cj q,
    Forall (fun x => In x items) ci -> Forall (fun x => In x items) cj ->
    ci <> [] -> cj <> [] ->
    cluster_sim (cell similarities items) ci cj = Num q ->
    num_ltb (Num q) threshold = false ->
    exists x y, In x ci /\ In y cj /\ linked S threshold items x y.
Proof.
  intros ci cj q Hi Hj Hni Hnj Hq Hn.
  rewrite cluster_sim_cell in Hq by assumption.
  rewrite Forall_forall in Hi, Hj.
  destruct threshold as [| t] eqn:Et; [discriminate |].
  assert (Htq : (t <= q)%Q).
  { destruct (Qlt_le_dec q t) as [L | L]; [| exact L].
    apply num_ltb_lt in L. congruence. }
  destruct (cluster_sim_value S ci cj) as [q' [Hq' [H0 [Hw Hall]]]].
  { intros x y Hx Hy. apply S_number; auto. }
  rewrite Hq in Hq'. injection Hq' as <-.
  destruct Hw as [-> | [x [y [Hx [Hy Hs]]]]].
  - destruct ci as [| x ci']; [contradiction |].
    destruct cj as [| y cj']; [contradiction |].
    exists x, y. split; [left; reflexivity |]. split; [left; reflexivity |].
    split; [apply Hi; left; reflexivity |]. split; [apply Hj; left; reflexivity |].
    destruct (Hall x y (or_introl eq_refl) (or_introl eq_refl)) as [v [Hv _]].
    rewrite Hv. destruct (Math_max_Num 0 v) as [c [-> [Hc _]]].
    apply num_geb_le. eapply Qle_trans; eassumption.
  - exists x, y. split; [exact Hx |]. split; [exact Hy |].
    split; [apply Hi, Hx |]. split; [apply Hj, Hy |].
    rewrite Hs. destruct (Math_max_Num 0 q) as [c [-> [_ [Hc _]]]].
    apply num_geb_le. eapply Qle_trans; eassumption.
Qed.

(** When the loop stops, no item of a cluster is linked to an item of
    another cluster. *)
Lemma stop_no_links :
  forall final,
    clusters_within items final ->
    hc_iter items similarities threshold final = Returns Stop ->
    forall i j ci cj x y,
      i <> j ->
      nth_error final i = Some ci -> nth_error final j = Some cj ->
      In x ci -> In y cj ->
      ~ linked S threshold items x y.
Proof.
  intros final Hw Hstop.
  assert (Hlt : forall i j ci cj x y,
             i < j ->
             nth_error final i = Some ci -> nth_error final j = Some cj ->
             In x ci -> In y cj ->
             ~ linked S threshold items x y).
  { intros i j ci cj x y Hij Hi Hj Hx Hy [_ [_ Hl]].
    destruct (hc_iter_cases items similarities threshold final matrix_rows Hw)
      as [[_ [qb [Hqb [_ Hall]]]] | [[i' [j' [ci' [cj' [q' [_ [_ [_ [_ [_ [_ Hm]]]]]]]]]]]
                                    | [Ht _]]]; try congruence.
    assert (Hj' : j < length final) by (apply nth_error_Some; congruence).
    specialize (Hall (i, j) (proj2 (pairs_spec _ i j) (conj Hij Hj'))).
    unfold pair_sim in Hall. simpl in Hall.
    rewrite (nth_error_nth _ _ _ Hi), (nth_error_nth _ _ _ Hj) in Hall.
    unfold clusters_within in Hw. rewrite Forall_forall in Hw.
    assert (Wi := Hw ci (nth_error_In _ _ Hi)).
    assert (Wj := Hw cj (nth_error_In _ _ Hj)).
    rewrite cluster_sim_cell in Hall by assumption.
    rewrite Forall_forall in Wi, Wj.
    destruct (cluster_sim_value S ci cj) as [q [Hq [H0 [_ Hle]]]].
    { intros a b Ha Hb. apply S_number; auto. }
    rewrite Hq in Hall.
    destruct (Hle x y Hx Hy) as [v [Hv Hvq]]. rewrite Hv in Hl.
    destruct threshold as [| t]; [discriminate |].
    apply num_ltb_lt in Hqb.
    assert (Hqqb : (q <= qb)%Q).
    { destruct (Qlt_le_dec qb q) as [L | L]; [| exact L].
      apply num_ltb_lt in L. unfold num_gtb in Hall. congruence. }
    destruct (Math_max_Num 0 v) as [c [Hc [_ [_ Hwhich]]]]. rewrite Hc in Hl.
    apply num_geb_le in Hl.
    assert (Hcq : (c <= q)%Q) by (destruct Hwhich as [-> | ->]; assumption).
    apply (Qlt_not_le _ _ Hqb).
    eapply Qle_trans; [exact Hl |]. eapply Qle_trans; eassumption. }
  intros i j ci cj x y Hij Hi Hj Hx Hy Hl.
  destruct (Nat.lt_ge_cases i j) as [L | L].
  - apply (Hlt i j ci cj x y L Hi Hj Hx Hy Hl).
  - apply (Hlt j i cj ci y x); try assumption; [lia | apply linked_sym, Hl].
Qed.

(** The clusters returned: each is connected, and closed under links. *)
Lemma clusters_are_components :
  forall clusters,
    performHierarchicalClustering items similarities threshold = Returns clusters ->
    Permutation (concat clusters) items
    /\ Forall (fun c => c <> []) clusters
    /\ (forall c x y, In c clusters -> In x c -> In y c ->
                      connected S threshold items x y)
    /\ (forall x y, connected S threshold items x y ->
                    forall c, In c clusters -> (In x c <-> In y c)).
Proof.
  intros clusters H.
  destruct (clustering_partition items similarities threshold clusters matrix_rows H)
    as [Hperm Hne].
  unfold performHierarchicalClustering in H.
  destruct (hc_loop_state _ _ _ _ _ _ H) as [k [Hk Hstop]].
  split; [exact Hperm |]. split; [exact Hne |].
  destruct (hc_state_invariant items similarities threshold matrix_rows
              (fun c => Forall (fun cl => cl <> []) c
                        /\ Forall (fun cl => forall x y, In x cl -> In y cl ->
                                               connected S threshold items x y) c))
    with (k := k) (clusters := map (fun item : ref => [item]) items) (st := clusters)
    as [Hw [_ Hconn]].
  - intros c c' Hw [Hn Hc] Hm.
    destruct (hc_iter_merge items similarities threshold matrix_rows c c' Hw Hm)
      as [i [j [ci [cj [q [Hij [Hi [Hj [Hq [Hnl ->]]]]]]]]]].
    destruct (merge_perm c i j ci cj Hij Hi Hj) as [rest [H1 H2]].
    apply (Permutation_Forall H1) in Hn. apply (Permutation_Forall H1) in Hc.
    unfold clusters_within in Hw. apply (Permutation_Forall H1) in Hw.
    inversion Hn as [| ? ? Nci Hn']; subst. inversion Hn' as [| ? ? Ncj Nrest]; subst.
    inversion Hc as [| ? ? Cci Hc']; subst. inversion Hc' as [| ? ? Ccj Crest]; subst.
    inversion Hw as [| ? ? Wci Hw']; subst. inversion Hw' as [| ? ? Wcj _]; subst.
    destruct (merge_links ci cj q Wci Wcj Nci Ncj Hq Hnl) as [a [b [Ha [Hb Hab]]]].
    split; apply (Permutation_Forall (Permutation_sym H2)); constructor; try assumption.
    + intros C. apply app_eq_nil in C. destruct C as [C _]. contradiction.
    + intros x y Hx Hy. apply in_app_or in Hx. apply in_app_or in Hy.
      assert (Hbridge : connected S threshold items a b) by (apply rst_step, Hab).
      destruct Hx as [Hx | Hx], Hy as [Hy | Hy].
      * apply Cci; assumption.
      * apply rst_trans with a; [apply Cci; assumption |].
        apply rst_trans with b; [exact Hbridge | apply Ccj; assumption].
      * apply rst_trans with b; [apply Ccj; assumption |].
        apply rst_trans with a; [apply rst_sym, Hbridge | apply Cci; assumption].
      * apply Ccj; assumption.
  - apply singletons_within.
  - split; apply Forall_forall; intros c Hc; apply in_map_iff in Hc;
      destruct Hc as [z [<- _]]; [discriminate |].
    intros x y [<- | []] [<- | []]. apply rst_refl.
  - exact Hk.
  - split.
    + intros c x y Hc. rewrite Forall_forall in Hconn. apply Hconn, Hc.
    + assert (Hstep : forall x y, linked S threshold items x y ->
                                  forall c, In c clusters -> In x c -> In y c).
      { intros x y Hl c Hc Hx. destruct Hl as [Hxi [Hyi Hl]].
        apply (Permutation_in _ (Permutation_sym Hperm)) in Hyi.
        apply in_concat in Hyi. destruct Hyi as [c' [Hc' Hy]].
        destruct (In_nth_error _ _ Hc) as [i Hi].
        destruct (In_nth_error _ _ Hc') as [j Hj].
        destruct (Nat.eq_dec i j) as [-> | Hij].
        - rewrite Hi in Hj. injection Hj as ->. exact Hy.
        - exfalso. apply (stop_no_links clusters Hw Hstop i j c c' x y Hij Hi Hj Hx Hy).
          split; [| split]; try assumption.
          apply (Permutation_in _ Hperm). apply in_concat. exists c'. auto. }
      intros x y Hxy. induction Hxy as [x y Hl | x | x y _ IH | x y z _ IH1 _ IH2];
        intros c Hc.
      * split; [apply (Hstep x y Hl c Hc) | apply (Hstep y x (linked_sym x y Hl) c Hc)].
      * tauto.
      * specialize (IH c Hc). tauto.
      * specialize (IH1 c Hc). specialize (IH2 c Hc). tauto.
Qed.

End Components.

(** ** Families of clusters *)

Lemma Permutation_filter_list :
  forall (A : Type) (p : A -> bool) (l l' : list A),
    Permutation l l' -> Permutation (filter p l) (filter p l').
Proof.
  intros A p l l' H. induction H as [| x l l' H IH | x y l | l l' l'' H1 IH1 H2 IH2]; simpl.
  - constructor.
  - destruct (p x); [apply perm_skip |]; exact IH.
  - destruct (p x), (p y); try apply Permutation_refl. apply perm_swap.
  - eapply perm_trans; eassumption.
Qed.

Lemma NoDup_app_disjoint :
  forall (A : Type) (l1 l2 : list A) (x : A),
    NoDup (l1 ++ l2) -> In x l1 -> In x l2 -> False.
Proof.
  intros A l1. induction l1 as [| a l1 IH]; intros l2 x H H1 H2; simpl in *.
  - contradiction.
  - inversion H as [| ? ? Ha Hl]; subst. destruct H1 as [-> | H1].
    + apply Ha. apply in_or_app. right. exact H2.
    + apply (IH l2 x Hl H1 H2).
Qed.

Lemma same_clusters_refl : forall F, same_clusters F F.
Proof.
  intros F. exists F. split; [apply Permutation_refl |].
  induction F; constructor; [apply Permutation_refl | assumption].
Qed.

Lemma same_clusters_app :
  forall F1 F1' F2 F2',
    same_clusters F1 F1' -> same_clusters F2 F2' ->
    same_clusters (F1 ++ F2) (F1' ++ F2').
Proof.
  intros F1 F1' F2 F2' [G1 [P1 A1]] [G2 [P2 A2]]. exists (G1 ++ G2). split.
  - apply Permutation_app; assumption.
  - apply Forall2_app; assumption.
Qed.

Lemma same_clusters_perm :
  forall F F' F1 F1',
    Permutation F1 F -> same_clusters F F' -> Permutation F' F1' ->
    same_clusters F1 F1'.
Proof.
  intros F F' F1 F1' P1 [G [PG AG]] P2.
  apply Forall2_flip in AG.
  destruct (Permutation_Forall2 P2 AG) as [G1 [PG1 AG1]].
  apply Forall2_flip in AG1. exists G1. split.
  - eapply perm_trans; [exact P1 |]. eapply perm_trans; eassumption.
  - eapply Forall2_impl; [| exact AG1]. simpl. auto.
Qed.

Lemma same_clusters_length :
  forall F F', same_clusters F F' -> length F = length F'.
Proof.
  intros F F' [G [PG AG]]. rewrite (Permutation_length PG).
  apply (Forall2_length AG).
Qed.

Lemma same_clusters_members :
  forall F F',
    same_clusters F F' ->
    (forall c, In c F -> exists c', In c' F' /\ Permutation c c')
    /\ (forall c', In c' F' -> exists c, In c F /\ Permutation c c').
Proof.
  intros F F' [G [PG AG]]. split.
  - intros c Hc. apply (Permutation_in _ PG) in Hc. clear PG.
    induction AG as [| g f G F' Hgf AG IH]; [contradiction |].
    destruct Hc as [-> | Hc].
    + exists f. split; [left; reflexivity | exact Hgf].
    + destruct (IH Hc) as [c' [Hc' Hp]]. exists c'. split; [right; exact Hc' | exact Hp].
  - intros c' Hc'.
    assert (Hex : exists c, In c G /\ Permutation c c').
    { clear PG. induction AG as [| g f G F' Hgf AG IH]; [contradiction |].
      destruct Hc' as [<- | Hc'].
      - exists g. split; [left; reflexivity | exact Hgf].
      - destruct (IH Hc') as [c [Hc Hp]]. exists c. split; [right; exact Hc | exact Hp]. }
    destruct Hex as [c [Hc Hp]]. exists c. split; [| exact Hp].
    apply (Permutation_in _ (Permutation_sym PG)), Hc.
Qed.

(** The clusters of at least [m] records, and the records of the
    others, are the same in two lists that hold the same clusters. *)
Lemma same_clusters_filter :
  forall (m : Z) F F',
    same_clusters F F' ->
    same_clusters (filter (fun c => (m <=? Z.of_nat (length c))%Z) F)
                  (filter (fun c => (m <=? Z.of_nat (length c))%Z) F')
    /\ Permutation
         (concat (filter (fun c => negb (m <=? Z.of_nat (length c))%Z) F))
         (concat (filter (fun c => negb (m <=? Z.of_nat (length c))%Z) F')).
Proof.
  intros m F F' [G [PG AG]]. split.
  - exists (filter (fun c => (m <=? Z.of_nat (length c))%Z) G). split.
    + apply Permutation_filter_list, PG.
    + clear PG. induction AG as [| g f G F' Hgf AG IH]; simpl; [constructor |].
      rewrite (Permutation_length Hgf).
      destruct (m <=? Z.of_nat (length f))%Z; [constructor |]; assumption.
  - eapply perm_trans.
    + apply Permutation_concat_lists, Permutation_filter_list, PG.
    + clear PG. induction AG as [| g f G F' Hgf AG IH]; simpl; [constructor |].
      rewrite (Permutation_length Hgf).
      destruct (m <=? Z.of_nat (length f))%Z; simpl; [exact IH |].
      apply Permutation_app; assumption.
Qed.

(** Two partitions into non-empty clusters whose clusters correspond to
    each other hold the same clusters. *)
Lemma family_bijection :
  forall F' F : list (list ref),
    NoDup (concat F) -> NoDup (concat F') ->
    Forall (fun c => c <> []) F -> Forall (fun c => c <> []) F' ->
    (forall c, In c F -> exists c', In c' F' /\ Permutation c c') ->
    (forall c', In c' F' -> exists c, In c F /\ Permutation c c') ->
    same_clusters F F'.
Proof.
  induction F' as [| c' F1' IH]; intros F HF HF' NF NF' H12 H21.
  - destruct F as [| c F]; [apply same_clusters_refl |].
    destruct (H12 c (or_introl eq_refl)) as [x [[] _]].
  - destruct (H21 c' (or_introl eq_refl)) as [c [Hc Hcc']].
    destruct (in_split _ _ Hc) as [A [B ->]].
    assert (Hmid : Permutation (A ++ c :: B) (c :: A ++ B))
      by (apply Permutation_sym, Permutation_middle).
    assert (HF1 : NoDup (c ++ concat (A ++ B))).
    { eapply Permutation_NoDup; [| exact HF].
      apply (Permutation_concat_lists _ _ _ Hmid). }
    simpl in HF'.
    inversion NF' as [| ? ? Nc' NF1']; subst.
    apply (Permutation_Forall Hmid) in NF. inversion NF as [| ? ? Nc NF1]; subst.
    assert (Hsame : same_clusters (A ++ B) F1').
    { apply IH; try assumption.
      - apply (NoDup_app_remove_l _ _ HF1).
      - apply (NoDup_app_remove_l _ _ HF').
      - intros d Hd.
        destruct (H12 d) as [d' [[<- | Hd'] Hp]].
        { apply in_app_or in Hd. apply in_or_app. simpl. tauto. }
        + exfalso. rewrite Forall_forall in NF1.
          destruct d as [| x d]; [apply (NF1 [] Hd); reflexivity |].
          apply (NoDup_app_disjoint _ _ _ x HF1).
          * apply (Permutation_in _ (Permutation_sym Hcc')).
            apply (Permutation_in _ Hp). left. reflexivity.
          * apply in_concat. exists (x :: d). split; [exact Hd | left; reflexivity].
        + exists d'. auto.
      - intros d' Hd'.
        destruct (H21 d' (or_intror Hd')) as [d [Hd Hp]].
        apply in_app_or in Hd. destruct Hd as [Hd | [<- | Hd]].
        + exists d. split; [apply in_or_app; left; exact Hd | exact Hp].
        + exfalso. rewrite Forall_forall in NF1'.
          destruct d' as [| x d']; [apply (NF1' [] Hd'); reflexivity |].
          apply (NoDup_app_disjoint _ _ _ x HF').
          * apply (Permutation_in _ Hcc').
            apply (Permutation_in _ (Permutation_sym Hp)). left. reflexivity.
          * apply in_concat. exists (x :: d'). split; [exact Hd' | left; reflexivity].
        + exists d. split; [apply in_or_app; right; exact Hd | exact Hp]. }
    destruct Hsame as [G [PG AG]]. exists (c :: G). split.
    + eapply perm_trans; [exact Hmid | apply perm_skip, PG].
    + constructor; assumption.
Qed.

(** ** Symmetry of the similarity *)

Lemma fold_set_add_spec :
  forall (l acc : list str),
    NoDup acc ->
    NoDup (fold_left set_add l acc)
    /\ forall x, In x (fold_left set_add l acc) <-> In x acc \/ In x l.
Proof.
  induction l as [| a l IH]; intros acc Hnd; simpl.
  - split; [exact Hnd | intros x; tauto].
  - assert (Hadd : NoDup (set_add acc a)
                   /\ forall x, In x (set_add acc a) <-> In x acc \/ x = a).
    { unfold set_add, set_has. destruct (existsb (str_eqb a) acc) eqn:E.
      - apply existsb_str_In in E. split; [exact Hnd |].
        intros x. split; [auto | intros [H | ->]; assumption].
      - split.
        + apply (Permutation_NoDup (Permutation_cons_append acc a)).
          constructor; [| exact Hnd]. intros H. apply existsb_str_In in H. congruence.
        + intros x. rewrite in_app_iff. simpl. split; intros [H | H]; auto.
          * destruct H as [-> | []]. auto. }
    destruct Hadd as [Hnd' Hin']. destruct (IH (set_add acc a) Hnd') as [H1 H2].
    split; [exact H1 |]. intros x. rewrite H2, Hin'. split.
    + intros [[H | ->] | H]; auto.
    + intros [H | [<- | H]]; auto.
Qed.

Lemma new_Set_spec :
  forall l : list str, NoDup (new_Set l) /\ forall x, In x (new_Set l) <-> In x l.
Proof.
  intros l. unfold new_Set. destruct (fold_set_add_spec l [] (NoDup_nil _)) as [H1 H2].
  split; [exact H1 |]. intros x. rewrite H2. simpl. tauto.
Qed.

Lemma new_Set_length_ext :
  forall l l' : list str,
    (forall x, In x l <-> In x l') -> length (new_Set l) = length (new_Set l').
Proof.
  intros l l' H. apply Permutation_length. apply NoDup_Permutation.
  - apply new_Set_spec.
  - apply new_Set_spec.
  - intros x. rewrite (proj2 (new_Set_spec l) x), (proj2 (new_Set_spec l') x). apply H.
Qed.

Lemma jaccardSimilarity_sym :
  forall terms1 terms2,
    jaccardSimilarity terms1 terms2 = jaccardSimilarity terms2 terms1.
Proof.
  intros terms1 terms2. unfold jaccardSimilarity. f_equal; f_equal.
  - apply new_Set_length_ext. intros x. rewrite !filter_In. unfold set_has.
    rewrite !existsb_str_In. tauto.
  - apply new_Set_length_ext. intros x. rewrite !in_app_iff. tauto.
Qed.

Lemma str_eqb_sym : forall a b : str, str_eqb a b = str_eqb b a.
Proof.
  intros a b. destruct (str_eqb a b) eqn:E.
  - apply str_eqb_eq in E. subst b. symmetry. apply str_eqb_refl.
  - symmetry. apply str_eqb_neq. apply str_eqb_neq in E. congruence.
Qed.

(** The edit distance. *)

Lemma lev_nil_r : forall a, lev a [] = length a.
Proof. destruct a; reflexivity. Qed.

Lemma lev_sym : forall a b, lev a b = lev b a.
Proof.
  induction a as [| x a IHa]; intros b.
  - simpl. symmetry. apply lev_nil_r.
  - induction b as [| y b IHb].
    + reflexivity.
    + change (lev (x :: a) (y :: b))
        with (if N.eqb x y then lev a b
              else Nat.min (Nat.min (lev a (y :: b) + 1) (lev (x :: a) b + 1))
                           (lev a b + 1)).
      change (lev (y :: b) (x :: a))
        with (if N.eqb y x then lev b a
              else Nat.min (Nat.min (lev b (x :: a) + 1) (lev (y :: b) a + 1))
                           (lev b a + 1)).
      rewrite (N.eqb_sym y x), IHb, (IHa b), (IHa (y :: b)).
      destruct (N.eqb x y); [reflexivity |]. lia.
Qed.

Lemma lev_le_max : forall a b, lev a b <= Nat.max (length a) (length b).
Proof.
  induction a as [| x a IHa]; intros b.
  - simpl. lia.
  - induction b as [| y b IHb].
    + simpl. lia.
    + change (lev (x :: a) (y :: b))
        with (if N.eqb x y then lev a b
              else Nat.min (Nat.min (lev a (y :: b) + 1) (lev (x :: a) b + 1))
                           (lev a b + 1)).
      specialize (IHa b). simpl length. destruct (N.eqb x y); lia.
Qed.

Lemma lev_cells_nil :
  forall s r, lev_cells [] r s = seq (length r) (S (length s)).
Proof.
  induction s as [| d s IH]; intros r; simpl; [reflexivity |].
  f_equal. rewrite IH. reflexivity.
Qed.

Lemma lev_row_cells :
  forall c a s r,
    lev_row c s (lev_cells a r s) (lev (c :: a) r) = tl (lev_cells (c :: a) r s).
Proof.
  intros c a. induction s as [| d s IH]; intros r; [reflexivity |].
  change (lev_cells a r (d :: s)) with (lev a r :: lev_cells a (d :: r) s).
  change (lev_cells (c :: a) r (d :: s))
    with (lev (c :: a) r :: lev_cells (c :: a) (d :: r) s).
  destruct s as [| d' s'] eqn:Es.
  - simpl lev_cells. cbn [lev_row tl].
    change (lev (c :: a) (d :: r))
      with (if N.eqb c d then lev a r
            else Nat.min (Nat.min (lev a (d :: r) + 1) (lev (c :: a) r + 1))
                         (lev a r + 1)).
    reflexivity.
  - rewrite <- Es in *.
    assert (Hc : lev_cells a (d :: r) s = lev a (d :: r) :: tl (lev_cells a (d :: r) s))
      by (rewrite Es; reflexivity).
    rewrite Hc. cbn [lev_row tl]. rewrite <- Hc.
    change (if N.eqb c d then lev a r
            else Nat.min (Nat.min (lev a (d :: r) + 1) (lev (c :: a) r + 1))
                         (lev a r + 1))
      with (lev (c :: a) (d :: r)).
    rewrite IH. rewrite Es. reflexivity.
Qed.

Lemma lev_rows_cells :
  forall str2 l a,
    fold_left (fun '(i, prev) c => (S i, S i :: lev_row c str2 prev (S i)))
              l (length a, lev_cells a [] str2)
    = (length a + length l, lev_cells (rev l ++ a) [] str2).
Proof.
  intros str2. induction l as [| c l IH]; intros a; simpl fold_left.
  - simpl. rewrite Nat.add_0_r. reflexivity.
  - assert (Hrow : S (length a) :: lev_row c str2 (lev_cells a [] str2) (S (length a))
                   = lev_cells (c :: a) [] str2).
    { change (S (length a)) with (lev (c :: a) []).
      rewrite lev_row_cells. destruct str2; reflexivity. }
    rewrite Hrow. change (S (length a)) with (length (c :: a)).
    rewrite IH. simpl. rewrite <- app_assoc. simpl.
    f_equal. lia.
Qed.

Lemma last_lev_cells :
  forall a s r, last (lev_cells a r s) 0 = lev a (rev s ++ r).
Proof.
  intros a. induction s as [| d s IH]; intros r; [reflexivity |].
  change (lev_cells a r (d :: s)) with (lev a r :: lev_cells a (d :: r) s).
  assert (Hne : lev_cells a (d :: r) s <> []) by (destruct s; discriminate).
  destruct (lev_cells a (d :: r) s) as [| v vs] eqn:E; [contradiction |].
  change (last (lev a r :: v :: vs) 0) with (last (v :: vs) 0).
  rewrite <- E, IH. simpl. rewrite <- app_assoc. reflexivity.
Qed.

Lemma levenshteinDistance_lev :
  forall str1 str2, levenshteinDistance str1 str2 = lev (rev str1) (rev str2).
Proof.
  intros str1 str2. unfold levenshteinDistance, lev_rows.
  pose proof (lev_cells_nil str2 []) as Hn. simpl length in Hn. rewrite <- Hn.
  change 0 with (length (@nil N)) at 1.
  rewrite lev_rows_cells. simpl snd. rewrite last_lev_cells, !app_nil_r. reflexivity.
Qed.

Lemma levenshteinDistance_sym :
  forall str1 str2, levenshteinDistance str1 str2 = levenshteinDistance str2 str1.
Proof.
  intros. rewrite !levenshteinDistance_lev. apply lev_sym.
Qed.

(** The longest common substring. *)

Lemma common_sym : forall a b, common a b = common b a.
Proof.
  induction a as [| x a IH]; destruct b as [| y b]; simpl; try reflexivity.
  rewrite (N.eqb_sym y x), IH. reflexivity.
Qed.

Lemma common_le_length : forall a b, common a b <= length a.
Proof.
  induction a as [| x a IH]; destruct b as [| y b]; simpl; try lia.
  destruct (N.eqb x y); [specialize (IH b) |]; lia.
Qed.

Lemma rprefixes_length :
  forall s r a, In a (rprefixes r s) -> length a <= length r + length s.
Proof.
  induction s as [| d s IH]; intros r a H; simpl in H.
  - destruct H as [<- | []]. lia.
  - destruct H as [<- | H]; [simpl; lia |].
    apply IH in H. simpl in *. lia.
Qed.

Lemma rprefixes_last :
  forall s r, last (rprefixes r s) [] = rev s ++ r.
Proof.
  induction s as [| d s IH]; intros r; [reflexivity |].
  change (rprefixes r (d :: s)) with (r :: rprefixes (d :: r) s).
  destruct (rprefixes (d :: r) s) as [| v vs] eqn:E; [destruct s; discriminate |].
  change (last (r :: v :: vs) []) with (last (v :: vs) []).
  rewrite <- E, IH. simpl. rewrite <- app_assoc. reflexivity.
Qed.

(** A row of the table: the new cells, and what the scan has kept. *)
Lemma lcs_row_cells :
  forall c a i s r st,
    exists st',
      lcs_row c i s (map (common a) (rprefixes r s)) st
      = (map (common (c :: a)) (tl (rprefixes r s)), st')
      /\ fst st <= fst st'
      /\ (forall r', In r' (tl (rprefixes r s)) -> common (c :: a) r' <= fst st')
      /\ (st' = st
          \/ exists r', In r' (tl (rprefixes r s)) /\ st' = (common (c :: a) r', i)).
Proof.
  intros c a i. induction s as [| d s IH]; intros r st.
  - exists st. simpl. split; [reflexivity |]. split; [lia |].
    split; [intros r' [] | left; reflexivity].
  - change (rprefixes r (d :: s)) with (r :: rprefixes (d :: r) s).
    cbn [map tl lcs_row].
    set (v := if N.eqb c d then common a r + 1 else 0).
    set (st1 := if N.eqb c d && Nat.ltb (fst st) v then (v, i) else st).
    assert (Hv : v = common (c :: a) (d :: r)).
    { unfold v. simpl. destruct (N.eqb c d); lia. }
    assert (Hst1 : fst st <= fst st1 /\ v <= fst st1
                   /\ (st1 = st \/ st1 = (v, i))).
    { unfold st1. destruct (N.eqb c d) eqn:Ec; simpl.
      - destruct (Nat.ltb (fst st) v) eqn:El; simpl.
        + apply Nat.ltb_lt in El. split; [lia |]. split; [lia | right; reflexivity].
        + apply Nat.ltb_ge in El. split; [lia |]. split; [lia | left; reflexivity].
      - unfold v. simpl. split; [lia |]. split; [lia | left; reflexivity]. }
    destruct Hst1 as [H1 [H2 H3]].
    destruct (IH (d :: r) st1) as [st' [Hrow [Hle [Hall Hwhich]]]].
    exists st'.
    assert (Hhd : rprefixes (d :: r) s = (d :: r) :: tl (rprefixes (d :: r) s))
      by (destruct s; reflexivity).
    split; [| split; [| split]].
    + rewrite Hrow. rewrite Hhd at 2. cbn [map]. rewrite <- Hv. reflexivity.
    + lia.
    + intros r' Hr'. rewrite Hhd in Hr'. destruct Hr' as [<- | Hr'].
      * rewrite <- Hv. lia.
      * apply Hall, Hr'.
    + destruct Hwhich as [-> | [r' [Hr' ->]]].
      * destruct H3 as [-> | ->]; [left; reflexivity |].
        right. exists (d :: r). split; [rewrite Hhd; left; reflexivity |].
        rewrite Hv. reflexivity.
      * right. exists r'. split; [rewrite Hhd; right; exact Hr' | reflexivity].
Qed.

Lemma common_nil_cells :
  forall s r, map (common []) (rprefixes r s) = repeat 0 (S (length s)).
Proof.
  induction s as [| d s IH]; intros r; [reflexivity |].
  change (rprefixes r (d :: s)) with (r :: rprefixes (d :: r) s).
  cbn [map]. rewrite IH. reflexivity.
Qed.

Lemma lcs_fold_cells :
  forall str2 l a st,
    exists st',
      fold_left (fun '(i, prev, st) c =>
                   let '(row, st') := lcs_row c (S i) str2 prev st in
                   (S i, 0 :: row, st'))
                l (length a, map (common a) (rprefixes [] str2), st)
      = (length a + length l, map (common (rev l ++ a)) (rprefixes [] str2), st')
      /\ fst st <= fst st'
      /\ (forall a' r, In a' (tl (rprefixes a l)) -> In r (rprefixes [] str2) ->
                       common a' r <= fst st')
      /\ (st' = st
          \/ exists a' r, In a' (tl (rprefixes a l)) /\ In r (rprefixes [] str2)
                          /\ st' = (common a' r, length a')).
Proof.
  intros str2. induction l as [| c l IH]; intros a st.
  - exists st. simpl. rewrite Nat.add_0_r. split; [reflexivity |]. split; [lia |].
    split; [intros a' r [] | left; reflexivity].
  - change (rprefixes a (c :: l)) with (a :: rprefixes (c :: a) l). cbn [tl fold_left].
    destruct (lcs_row_cells c a (S (length a)) str2 [] st)
      as [st1 [Hrow [Hle1 [Hall1 Hwhich1]]]].
    rewrite Hrow.
    assert (Hhd : rprefixes [] str2 = [] :: tl (rprefixes [] str2))
      by (destruct str2; reflexivity).
    assert (Hprev : 0 :: map (common (c :: a)) (tl (rprefixes [] str2))
                    = map (common (c :: a)) (rprefixes [] str2)).
    { rewrite Hhd at 2. reflexivity. }
    rewrite Hprev. change (S (length a)) with (length (c :: a)).
    destruct (IH (c :: a) st1) as [st' [Hfold [Hle [Hall Hwhich]]]].
    exists st'. rewrite Hfold.
    assert (Hcons : rprefixes (c :: a) l = (c :: a) :: tl (rprefixes (c :: a) l))
      by (destruct l; reflexivity).
    split; [| split; [| split]].
    + simpl. rewrite <- app_assoc. simpl. f_equal. f_equal. lia.
    + lia.
    + intros a' r Ha' Hr. rewrite Hcons in Ha'. destruct Ha' as [<- | Ha'].
      * rewrite Hhd in Hr. destruct Hr as [<- | Hr].
        -- simpl. lia.
        -- specialize (Hall1 r Hr). lia.
      * apply Hall; assumption.
    + destruct Hwhich as [-> | [a' [r [Ha' [Hr ->]]]]].
      * destruct Hwhich1 as [-> | [r [Hr ->]]]; [left; reflexivity |].
        right. exists (c :: a), r. split; [rewrite Hcons; left; reflexivity |].
        split; [rewrite Hhd; right; exact Hr | reflexivity].
      * right. exists a', r. split; [rewrite Hcons; right; exact Ha' |]. auto.
Qed.

(** The greatest cell of the table, and the row where the scan met it. *)
Lemma lcs_scan_spec :
  forall str1 str2,
    (forall a r, In a (rprefixes [] str1) -> In r (rprefixes [] str2) ->
                 common a r <= fst (lcs_scan str1 str2))
    /\ (exists a r,
           In a (rprefixes [] str1) /\ In r (rprefixes [] str2)
           /\ fst (lcs_scan str1 str2) = common a r
           /\ (lcs_scan str1 str2 = (0, 0) \/ snd (lcs_scan str1 str2) = length a)).
Proof.
  intros str1 str2. unfold lcs_scan.
  destruct (lcs_fold_cells str2 str1 [] (0, 0)) as [st' [Hfold [_ [Hall Hwhich]]]].
  rewrite common_nil_cells in Hfold. simpl length in Hfold.
  rewrite Hfold.
  assert (Hhd1 : rprefixes [] str1 = [] :: tl (rprefixes [] str1))
    by (destruct str1; reflexivity).
  assert (Hhd2 : rprefixes [] str2 = [] :: tl (rprefixes [] str2))
    by (destruct str2; reflexivity).
  split.
  - intros a r Ha Hr. rewrite Hhd1 in Ha. destruct Ha as [<- | Ha].
    + simpl. lia.
    + apply Hall; assumption.
  - destruct Hwhich as [-> | [a [r [Ha [Hr ->]]]]].
    + exists [], []. split; [rewrite Hhd1; left; reflexivity |].
      split; [rewrite Hhd2; left; reflexivity |]. split; [reflexivity | left; reflexivity].
    + exists a, r. split; [rewrite Hhd1; right; exact Ha |].
      split; [exact Hr |]. split; [reflexivity | right; reflexivity].
Qed.

Lemma lcs_scan_sym :
  forall str1 str2, fst (lcs_scan str1 str2) = fst (lcs_scan str2 str1).
Proof.
  assert (Hle : forall s1 s2, fst (lcs_scan s1 s2) <= fst (lcs_scan s2 s1)).
  { intros s1 s2. destruct (lcs_scan_spec s1 s2) as [_ [a [r [Ha [Hr [Heq _]]]]]].
    rewrite Heq, common_sym. apply (proj1 (lcs_scan_spec s2 s1)); assumption. }
  intros str1 str2. apply Nat.le_antisymm; apply Hle.
Qed.

Lemma findLongestCommonSubstring_length :
  forall str1 str2,
    length (findLongestCommonSubstring str1 str2) = fst (lcs_scan str1 str2).
Proof.
  intros str1 str2. unfold findLongestCommonSubstring.
  destruct (lcs_scan_spec str1 str2) as [_ [a [r [Ha [_ [Hm He]]]]]].
  destruct (lcs_scan str1 str2) as [m e]. simpl in Hm, He.
  unfold substring. rewrite length_firstn, length_skipn.
  destruct He as [He | He].
  - injection He as -> ->. reflexivity.
  - pose proof (rprefixes_length str1 [] a Ha) as Hl. simpl in Hl.
    pose proof (common_le_length a r) as Hc. simpl. lia.
Qed.

Section SimilaritySymmetry.

Variable rt : Runtime.

Lemma editDistanceSimilarity_sym :
  forall str1 str2,
    editDistanceSimilarity rt str1 str2 = editDistanceSimilarity rt str2 str1.
Proof.
  intros str1 str2. unfold editDistanceSimilarity.
  rewrite levenshteinDistance_sym, (Nat.max_comm (length str1)). reflexivity.
Qed.

Lemma tokenSimilarity_sym :
  forall keyword1 keyword2,
    tokenSimilarity rt keyword1 keyword2 = tokenSimilarity rt keyword2 keyword1.
Proof.
  intros keyword1 keyword2. unfold tokenSimilarity.
  rewrite andb_comm, jaccardSimilarity_sym. reflexivity.
Qed.

Lemma substringBonus_sym :
  forall k1 k2, substringBonus k1 k2 = substringBonus k2 k1.
Proof.
  intros k1 k2. unfold substringBonus.
  rewrite !findLongestCommonSubstring_length, lcs_scan_sym,
    (Nat.max_comm (length k1)). reflexivity.
Qed.

Lemma affixBonus_sym : forall k1 k2, affixBonus k1 k2 = affixBonus k2 k1.
Proof.
  intros k1 k2. unfold affixBonus.
  rewrite (orb_comm (startsWith k1 k2)), (orb_comm (endsWith k1 k2)). reflexivity.
Qed.

(** The similarity does not depend on the order of the two queries. *)
Lemma calculateSimilarity_sym :
  forall keyword1 keyword2,
    calculateSimilarity rt keyword1 keyword2 = calculateSimilarity rt keyword2 keyword1.
Proof.
  intros keyword1 keyword2.
  unfold calculateSimilarity, calculateAlgorithmicSimilarity, weightedSimilarity.
  rewrite (str_eqb_sym (toLowerCase rt keyword1)).
  rewrite (jaccardSimilarity_sym (getNGrams rt keyword1 2)).
  rewrite (jaccardSimilarity_sym (getNGrams rt keyword1 3)).
  rewrite (tokenSimilarity_sym keyword1), (editDistanceSimilarity_sym keyword1).
  rewrite (affixBonus_sym (toLowerCase rt keyword1)).
  rewrite (substringBonus_sym (toLowerCase rt keyword1)).
  reflexivity.
Qed.

(** The similarity never exceeds 1. *)
Lemma calculateSimilarity_at_most_one :
  forall keyword1 keyword2 q,
    calculateSimilarity rt keyword1 keyword2 = Num q -> (q <= 1)%Q.
Proof.
  intros keyword1 keyword2 q. unfold calculateSimilarity, calculateAlgorithmicSimilarity.
  destruct (str_eqb _ _).
  - intros H. injection H as <-. apply Qle_refl.
  - destruct (weightedSimilarity rt keyword1 keyword2) as [| w]; [discriminate |].
    unfold Math_min. destruct (Qle_bool w 1) eqn:E; intros H; injection H as <-.
    + apply Qle_bool_iff, E.
    + apply Qle_refl.
Qed.

Lemma not_negative_add :
  forall x y, not_negative x -> not_negative y -> not_negative (num_add x y).
Proof.
  intros [| a] [| b] Ha Hb; simpl; auto.
  replace 0%Q with (0 + 0)%Q by reflexivity. apply Qplus_le_compat; assumption.
Qed.

Lemma not_negative_mul :
  forall x y, not_negative x -> not_negative y -> not_negative (num_mul x y).
Proof.
  intros [| a] [| b] Ha Hb; simpl; auto. apply Qmult_le_0_compat; assumption.
Qed.

Lemma not_negative_div_nat :
  forall a b, not_negative (num_div (num_of_nat a) (num_of_nat b)).
Proof.
  intros a b. unfold num_div, num_of_nat.
  destruct (Qeq_bool (inject_Z (Z.of_nat b)) 0) eqn:E; simpl; [exact I |].
  unfold Qdiv. apply Qmult_le_0_compat.
  - unfold Qle. simpl. lia.
  - apply Qinv_le_0_compat. unfold Qle. simpl. lia.
Qed.

Lemma not_negative_jaccard :
  forall terms1 terms2, not_negative (jaccardSimilarity terms1 terms2).
Proof. intros. unfold jaccardSimilarity. apply not_negative_div_nat. Qed.

Lemma not_negative_edit :
  forall str1 str2,
    length (toLowerCase rt str1) = length str1 ->
    length (toLowerCase rt str2) = length str2 ->
    not_negative (editDistanceSimilarity rt str1 str2).
Proof.
  intros str1 str2 H1 H2. unfold editDistanceSimilarity.
  destruct (Nat.eqb (Nat.max (length str1) (length str2)) 0) eqn:E.
  - simpl. unfold Qle. simpl. lia.
  - apply Nat.eqb_neq in E.
    pose proof (lev_le_max (rev (toLowerCase rt str1)) (rev (toLowerCase rt str2))) as Hd.
    rewrite <- levenshteinDistance_lev, !length_rev, H1, H2 in Hd.
    unfold num_div, num_of_nat.
    destruct (Qeq_bool (inject_Z (Z.of_nat (Nat.max (length str1) (length str2)))) 0);
      simpl; [exact I |].
    set (d := levenshteinDistance (toLowerCase rt str1) (toLowerCase rt str2)) in *.
    set (m := Nat.max (length str1) (length str2)) in *.
    apply (proj1 (Qle_minus_iff (inject_Z (Z.of_nat d) / inject_Z (Z.of_nat m)) 1)).
    apply Qle_shift_div_r.
    + unfold Qlt. simpl. lia.
    + unfold Qle. simpl. destruct (Z.of_nat m) eqn:Em; lia.
Qed.

(** The similarity of two strings whose length the lowercasing keeps is
    in the unit interval as soon as it is a number. *)
Lemma calculateSimilarity_unit_interval :
  forall keyword1 keyword2 q,
    length (toLowerCase rt keyword1) = length keyword1 ->
    length (toLowerCase rt keyword2) = length keyword2 ->
    calculateSimilarity rt keyword1 keyword2 = Num q ->
    (0 <= q <= 1)%Q.
Proof.
  intros keyword1 keyword2 q H1 H2 H. split;
    [| apply (calculateSimilarity_at_most_one keyword1 keyword2 q H)].
  unfold calculateSimilarity, calculateAlgorithmicSimilarity in H.
  destruct (str_eqb _ _).
  - injection H as <-. unfold Qle. simpl. lia.
  - assert (Hw : not_negative (weightedSimilarity rt keyword1 keyword2)).
    { assert (Hc : forall a b : positive, not_negative (Num (Z.pos a # b)))
        by (intros a b; simpl; unfold Qle; simpl; lia).
      unfold weightedSimilarity.
      repeat apply not_negative_add; apply not_negative_mul; try apply Hc.
      - apply not_negative_jaccard.
      - apply not_negative_jaccard.
      - unfold tokenSimilarity. destruct (_ && _); [apply not_negative_jaccard |].
        simpl. apply Qle_refl.
      - apply not_negative_edit; assumption.
      - simpl. unfold affixBonus.
        destruct (_ || _), (_ || _); unfold Qle; simpl; lia.
      - unfold substringBonus. destruct (Nat.leb 4 _); [| simpl; apply Qle_refl].
        apply not_negative_mul; [apply not_negative_div_nat | apply Hc]. }
    destruct (weightedSimilarity rt keyword1 keyword2) as [| w]; [discriminate |].
    simpl in Hw. unfold Math_min in H.
    destruct (Qle_bool w 1); injection H as <-; [exact Hw |].
    unfold Qle. simpl. lia.
Qed.

End SimilaritySymmetry.

(** ** Bounds of the similarity *)

(** C5 (what the program does).  The score is clipped from above only.
    It is in [[0, 1]] whenever it is a number and lowercasing keeps the
    length of both strings; but two different strings of white space have
    no trigram, so the trigram signal is [0 / 0] and the similarity is
    [NaN], which lies outside [[0, 1]]; and the queries [İİİ] (three times
    U+0130, whose lowercase form has six code units) and [xyz] get a
    negative edit signal and the similarity -1/4. *)
Theorem similarity_outside_unit_interval :
  calculateAlgorithmicSimilarity Host.rt (u " ") (u "  ") = NaN
  /\ num_geb (calculateAlgorithmicSimilarity Host.rt (u " ") (u "  ")) (Num 0%Q) = false
  /\ num_ltb (editDistanceSimilarity Host.rt [304; 304; 304]%N (u "xyz"))
             (Num 0%Q) = true
  /\ num_ltb (calculateAlgorithmicSimilarity Host.rt [304; 304; 304]%N (u "xyz"))
             (Num 0%Q) = true
  /\ (forall rt keyword1 keyword2 q,
         calculateAlgorithmicSimilarity rt keyword1 keyword2 = Num q -> (q <= 1)%Q)
  /\ (forall rt keyword1 keyword2 q,
         length (toLowerCase rt keyword1) = length keyword1 ->
         length (toLowerCase rt keyword2) = length keyword2 ->
         calculateAlgorithmicSimilarity rt keyword1 keyword2 = Num q ->
         (0 <= q <= 1)%Q).
Proof.
  split; [vm_compute; reflexivity |].
  split; [vm_compute; reflexivity |].
  split; [vm_compute; reflexivity |].
  split; [vm_compute; reflexivity |].
  split.
  - intros rt keyword1 keyword2 q H.
    apply (calculateSimilarity_at_most_one rt keyword1 keyword2 q H).
  - intros rt keyword1 keyword2 q H1 H2 H.
    apply (calculateSimilarity_unit_interval rt keyword1 keyword2 q H1 H2 H).
Qed.

(** ** The order of the input *)

Lemma connected_items :
  forall S threshold items items' x y,
    (forall z, In z items -> In z items') ->
    connected S threshold items x y -> connected S threshold items' x y.
Proof.
  intros S threshold items items' x y Hsub H.
  induction H as [x y [Hx [Hy Hl]] | x | x y _ IH | x y z _ IH1 _ IH2].
  - apply rst_step. split; [apply Hsub, Hx |]. split; [apply Hsub, Hy | exact Hl].
  - apply rst_refl.
  - apply rst_sym, IH.
  - eapply rst_trans; eassumption.
Qed.

Lemma NoDup_concat_member :
  forall (A : Type) (L : list (list A)) (c : list A),
    NoDup (concat L) -> In c L -> NoDup c.
Proof.
  intros A L c. induction L as [| c0 L IH]; intros H Hc; simpl in *; [contradiction |].
  destruct Hc as [-> | Hc].
  - apply (NoDup_app_remove_r _ _ H).
  - apply IH; [apply (NoDup_app_remove_l _ _ H) | exact Hc].
Qed.

Section Order.

Variable rt : Runtime.
Variable heap : ref -> KeywordRecord.

Lemma record_sim_cell :
  forall items,
    plain_similarities rt heap items ->
    forall x y, In x items -> In y items ->
      cell (createSimilarityMatrix rt heap items) items x y = record_sim rt heap x y.
Proof.
  intros items Hplain x y Hx Hy. rewrite cell_of_matrix by assumption.
  unfold record_sim. destruct (Nat.eqb x y); [reflexivity |].
  destruct (indexOf items x <? indexOf items y)%Z; [reflexivity |].
  apply calculateSimilarity_sym.
Qed.

Lemma record_sim_number :
  forall items,
    plain_similarities rt heap items ->
    forall x y, In x items -> In y items -> exists v, record_sim rt heap x y = Num v.
Proof.
  intros items Hplain x y Hx Hy. unfold record_sim.
  destruct (Nat.eqb x y); [eauto | apply (Hplain x y Hx Hy)].
Qed.

Lemma record_sim_symmetric :
  forall items,
    plain_similarities rt heap items ->
    forall x y, In x items -> In y items ->
      record_sim rt heap x y = record_sim rt heap y x.
Proof.
  intros items Hplain x y Hx Hy. unfold record_sim.
  rewrite (Nat.eqb_sym y x). destruct (Nat.eqb x y); [reflexivity |].
  apply calculateSimilarity_sym.
Qed.

Lemma plain_similarities_sub :
  forall items items',
    (forall z, In z items' -> In z items) ->
    plain_similarities rt heap items -> plain_similarities rt heap items'.
Proof.
  intros items items' Hsub H x y Hx Hy. apply H; apply Hsub; assumption.
Qed.

(** The clusters of a bucket do not depend on the order of its records. *)
Lemma bucket_clusters_agree :
  forall threshold b b' clusters clusters',
    Permutation b b' -> NoDup b -> plain_similarities rt heap b ->
    performHierarchicalClustering b (createSimilarityMatrix rt heap b) threshold
    = Returns clusters ->
    performHierarchicalClustering b' (createSimilarityMatrix rt heap b') threshold
    = Returns clusters' ->
    same_clusters clusters clusters'.
Proof.
  intros threshold b b' clusters clusters' Hperm Hnd Hplain H H'.
  assert (Hplain' : plain_similarities rt heap b').
  { apply (plain_similarities_sub b); [| exact Hplain].
    intros z. apply Permutation_in, Permutation_sym, Hperm. }
  assert (Hlen : forall l, length l <= length (createSimilarityMatrix rt heap l))
    by (intros l; rewrite createSimilarityMatrix_length; apply le_n).
  assert (Hthr : num_ltb (Num (-1)%Q) threshold = true).
  { destruct (num_ltb (Num (-1)%Q) threshold) eqn:E; [reflexivity |].
    rewrite (clustering_throws b _ threshold (Hlen b) E) in H. discriminate. }
  destruct (clusters_are_components b _ threshold (record_sim rt heap) (Hlen b) Hthr
              (record_sim_cell b Hplain) (record_sim_number b Hplain)
              (record_sim_symmetric b Hplain) clusters H)
    as [P1 [N1 [C1 D1]]].
  destruct (clusters_are_components b' _ threshold (record_sim rt heap) (Hlen b') Hthr
              (record_sim_cell b' Hplain') (record_sim_number b' Hplain')
              (record_sim_symmetric b' Hplain') clusters' H')
    as [P2 [N2 [C2 D2]]].
  assert (Hnd1 : NoDup (concat clusters))
    by (apply (Permutation_NoDup (Permutation_sym P1)), Hnd).
  assert (Hnd2 : NoDup (concat clusters')).
  { apply (Permutation_NoDup (Permutation_sym P2)).
    apply (Permutation_NoDup Hperm), Hnd. }
  assert (Hto : forall x y, connected (record_sim rt heap) threshold b x y ->
                            connected (record_sim rt heap) threshold b' x y).
  { intros x y. apply connected_items. intros z. apply Permutation_in, Hperm. }
  assert (Hfrom : forall x y, connected (record_sim rt heap) threshold b' x y ->
                              connected (record_sim rt heap) threshold b x y).
  { intros x y. apply connected_items. intros z.
    apply Permutation_in, Permutation_sym, Hperm. }
  assert (Hmatch : forall c c' x,
             In c clusters -> In c' clusters' -> In x c -> In x c' ->
             Permutation c c').
  { intros c c' x Hc Hc' Hx Hx'. apply NoDup_Permutation.
    - apply (NoDup_concat_member _ _ _ Hnd1 Hc).
    - apply (NoDup_concat_member _ _ _ Hnd2 Hc').
    - intros y. split; intros Hy.
      + apply (D2 x y (Hto x y (C1 c x y Hc Hx Hy)) c' Hc'), Hx'.
      + apply (D1 x y (Hfrom x y (C2 c' x y Hc' Hx' Hy)) c Hc), Hx. }
  apply family_bijection; try assumption.
  - intros c Hc. rewrite Forall_forall in N1.
    destruct c as [| x c0] eqn:Ec; [exfalso; apply (N1 [] Hc); reflexivity |].
    assert (Hx : In x (concat clusters'))
      by (apply (Permutation_in _ (Permutation_sym P2)), (Permutation_in _ Hperm),
                (Permutation_in _ P1), in_concat; exists (x :: c0);
          split; [exact Hc | left; reflexivity]).
    apply in_concat in Hx. destruct Hx as [c' [Hc' Hx']].
    exists c'. split; [exact Hc' |].
    apply (Hmatch (x :: c0) c' x Hc Hc'); [left; reflexivity | exact Hx'].
  - intros c' Hc'. rewrite Forall_forall in N2.
    destruct c' as [| x c0] eqn:Ec; [exfalso; apply (N2 [] Hc'); reflexivity |].
    assert (Hx : In x (concat clusters))
      by (apply (Permutation_in _ (Permutation_sym P1)),
                (Permutation_in _ (Permutation_sym Hperm)),
                (Permutation_in _ P2), in_concat; exists (x :: c0);
          split; [exact Hc' | left; reflexivity]).
    apply in_concat in Hx. destruct Hx as [c [Hc Hx']].
    exists c. split; [exact Hc |].
    apply (Hmatch c (x :: c0) x Hc Hc'); [exact Hx' | left; reflexivity].
Qed.

End Order.

Section OrderOfInput.

Variable rt : Runtime.
Variable heap : ref -> KeywordRecord.
Variable options : Options.

Lemma process_clusters_family :
  forall key clusters st st',
    foldM (process_cluster rt heap options key) clusters st = Returns st' ->
    map keywords (fst st') =
      map keywords (fst st)
      ++ filter (fun c => (minGroupSize options <=? Z.of_nat (length c))%Z) clusters
    /\ snd st' =
         snd st
         ++ concat (filter (fun c => negb (minGroupSize options <=? Z.of_nat (length c))%Z)
                           clusters).
Proof.
  intros key clusters. induction clusters as [| c clusters IH]; intros st st' H.
  - simpl in H. injection H as <-. simpl. rewrite !app_nil_r. auto.
  - rewrite foldM_cons in H.
    destruct (process_cluster rt heap options key st c) as [st1 | |] eqn:E;
      simpl in H; try discriminate.
    destruct (IH st1 st' H) as [Hg Hu]. rewrite Hg, Hu. clear IH H Hg Hu.
    destruct st as [finalGroups ungrouped0]. unfold process_cluster in E. simpl.
    destruct (minGroupSize options <=? Z.of_nat (length c))%Z; simpl.
    + destruct (extractGroupTopic rt (map (fun item => query (heap item)) c));
        simpl in E; try discriminate.
      destruct (match key with
                | key_intent i => Returns i
                | key_all =>
                    match c with
                    | [] => Throws TypeError
                    | c0 :: _ => Returns (classifyIntent rt (query (heap c0)))
                    end
                end); simpl in E; try discriminate.
      injection E as <-. simpl. rewrite map_app. simpl.
      rewrite <- app_assoc. auto.
    + injection E as <-. simpl. rewrite <- app_assoc. auto.
Qed.

Lemma process_bucket_agree :
  forall st st' key key' b b' st1 st1',
    agree st st' ->
    Permutation b b' -> NoDup b -> plain_similarities rt heap b ->
    process_bucket rt heap options st (key, b) = Returns st1 ->
    process_bucket rt heap options st' (key', b') = Returns st1' ->
    agree st1 st1'.
Proof.
  intros st st' key key' b b' st1 st1' [Hg Hu] Hperm Hnd Hplain H H'.
  unfold process_bucket in H, H'. rewrite <- (Permutation_length Hperm) in H'.
  destruct (Nat.ltb (length b) 2).
  - injection H as <-. injection H' as <-. split; simpl; [exact Hg |].
    apply Permutation_app; assumption.
  - destruct (performHierarchicalClustering b (createSimilarityMatrix rt heap b)
                (similarityThreshold options)) as [clusters | |] eqn:E;
      simpl in H; try discriminate.
    destruct (performHierarchicalClustering b' (createSimilarityMatrix rt heap b')
                (similarityThreshold options)) as [clusters' | |] eqn:E';
      simpl in H'; try discriminate.
    pose proof (bucket_clusters_agree rt heap _ b b' clusters clusters'
                  Hperm Hnd Hplain E E') as Hsame.
    destruct (same_clusters_filter (minGroupSize options) _ _ Hsame) as [Hbig Hsmall].
    destruct (process_clusters_family key clusters st st1 H) as [G1 U1].
    destruct (process_clusters_family key' clusters' st' st1' H') as [G2 U2].
    split.
    + rewrite G1, G2. apply same_clusters_app; assumption.
    + rewrite U1, U2. apply Permutation_app; assumption.
Qed.

Lemma process_buckets_agree :
  forall bs bs',
    Forall2 (fun b b' => Permutation (snd b) (snd b') /\ NoDup (snd b)
                         /\ plain_similarities rt heap (snd b)) bs bs' ->
    forall st st' f f',
      agree st st' ->
      foldM (process_bucket rt heap options) bs st = Returns f ->
      foldM (process_bucket rt heap options) bs' st' = Returns f' ->
      agree f f'.
Proof.
  intros bs bs' HF. induction HF as [| [key b] [key' b'] bs bs' [Hp [Hn Hs]] HF IH];
    intros st st' f f' Hag H H'.
  - simpl in H, H'. injection H as <-. injection H' as <-. exact Hag.
  - rewrite foldM_cons in H, H'.
    destruct (process_bucket rt heap options st (key, b)) as [st1 | |] eqn:E;
      simpl in H; try discriminate.
    destruct (process_bucket rt heap options st' (key', b')) as [st1' | |] eqn:E';
      simpl in H'; try discriminate.
    apply (IH st1 st1' f f'); try assumption.
    apply (process_bucket_agree st st' key key' b b' st1 st1'); assumption.
Qed.

Lemma form_groups_agree :
  forall input input' formed formed',
    Permutation input input' -> NoDup input -> plain_similarities rt heap input ->
    form_groups rt heap input options = Returns formed ->
    form_groups rt heap input' options = Returns formed' ->
    agree formed formed'.
Proof.
  intros input input' formed formed' Hperm Hnd Hplain H H'.
  unfold form_groups in H, H'.
  apply (process_buckets_agree
           (if groupByIntent options then groupBySearchIntent rt heap input
            else [(key_all, input)])
           (if groupByIntent options then groupBySearchIntent rt heap input'
            else [(key_all, input')])) with (st := ([], [])) (st' := ([], []));
    try assumption.
  - assert (Hb : forall p : ref -> bool,
               Permutation (filter p input) (filter p input')
               /\ NoDup (filter p input)
               /\ plain_similarities rt heap (filter p input)).
    { intros p. split; [apply Permutation_filter_list, Hperm |].
      split; [apply NoDup_filter, Hnd |].
      apply (plain_similarities_sub rt heap input); [| exact Hplain].
      intros z Hz. apply filter_In in Hz. tauto. }
    destruct (groupByIntent options).
    + unfold groupBySearchIntent. simpl.
      do 4 (constructor; [apply Hb |]). constructor.
    + constructor; [| constructor]. simpl. auto.
  - split; [apply same_clusters_refl | constructor].
Qed.

End OrderOfInput.

(** ** The final sort when no two groups have the same clicks *)

Lemma click_sum_perm :
  forall (heap : ref -> KeywordRecord) (c c' : list ref) (a : Z),
    Permutation c c' ->
    fold_left (fun sum kw => (sum + or0 (clicks (heap kw)))%Z) c a
    = fold_left (fun sum kw => (sum + or0 (clicks (heap kw)))%Z) c' a.
Proof.
  intros heap c c' a H. revert a.
  induction H as [| x l l' H IH | x y l | l l' l'' H1 IH1 H2 IH2]; intros a; simpl.
  - reflexivity.
  - apply IH.
  - f_equal. lia.
  - rewrite IH1. apply IH2.
Qed.

Lemma same_records_clicks :
  forall heap g g',
    metrics_ok heap g -> metrics_ok heap g' -> same_records g g' ->
    group_clicks g = group_clicks g'.
Proof.
  intros heap g g' Hg Hg' Hp. unfold group_clicks. rewrite Hg, Hg'.
  unfold calculateGroupMetrics. simpl. apply click_sum_perm, Hp.
Qed.

Lemma sorted_keys_unique :
  forall a b : list Z,
    StronglySorted (fun x y => (y <= x)%Z) a ->
    StronglySorted (fun x y => (y <= x)%Z) b ->
    NoDup a -> Permutation a b -> a = b.
Proof.
  induction a as [| x a IH]; intros b Sa Sb Nd Hp.
  - apply Permutation_nil in Hp. subst b. reflexivity.
  - destruct b as [| y b]; [apply Permutation_sym, Permutation_nil in Hp; discriminate |].
    inversion Sa as [| ? ? Sa' Ha]; subst. inversion Sb as [| ? ? Sb' Hb]; subst.
    inversion Nd as [| ? ? Hx Nd']; subst.
    rewrite Forall_forall in Ha, Hb.
    assert (Hxy : x = y).
    { assert (Hx' : In x (y :: b)) by (apply (Permutation_in _ Hp); left; reflexivity).
      assert (Hy' : In y (x :: a))
        by (apply (Permutation_in _ (Permutation_sym Hp)); left; reflexivity).
      destruct Hx' as [-> | Hx']; [reflexivity |].
      destruct Hy' as [-> | Hy']; [reflexivity |].
      specialize (Ha y Hy'). specialize (Hb x Hx'). lia. }
    subst y. f_equal. apply IH; try assumption.
    apply (Permutation_cons_inv Hp).
Qed.

Lemma Forall2_same_records_keywords :
  forall l l' : list Group,
    Forall2 same_records l l' ->
    Forall2 (@Permutation ref) (map keywords l) (map keywords l').
Proof.
  intros l l' H. induction H; simpl; constructor; assumption.
Qed.

Lemma Forall2_same_records_flat :
  forall l l' : list Group,
    Forall2 same_records l l' ->
    Permutation (flat_map keywords l) (flat_map keywords l').
Proof.
  intros l l' H. induction H; simpl; [constructor |].
  apply Permutation_app; assumption.
Qed.

Lemma Forall2_firstn_skipn :
  forall (A B : Type) (R : A -> B -> Prop) (n : nat) (l : list A) (l' : list B),
    Forall2 R l l' ->
    Forall2 R (firstn n l) (firstn n l') /\ Forall2 R (skipn n l) (skipn n l').
Proof.
  intros A B R n l l' H. revert n.
  induction H as [| x y l l' Hxy H IH]; intros [| n]; simpl;
    try (split; constructor; assumption).
  destruct (IH n) as [H1 H2]. split; [constructor; assumption | exact H2].
Qed.

(** Sorted by clicks that are all different, two lists of groups that
    hold the same clusters are the same, group by group. *)
Lemma sorted_groups_agree :
  forall heap (l l' : list Group),
    Forall (metrics_ok heap) l -> Forall (metrics_ok heap) l' ->
    NoDup (map group_clicks l) ->
    same_clusters (map keywords l) (map keywords l') ->
    Forall2 same_records (sort clicks_cmp l) (sort clicks_cmp l').
Proof.
  intros heap l l' Hm Hm' Hnd Hsame.
  assert (Hkeys : Permutation (map group_clicks l) (map group_clicks l')).
  { destruct Hsame as [G [PG AG]].
    assert (Hk : forall m : list Group,
               Forall (metrics_ok heap) m ->
               map group_clicks m
               = map (fun c => fold_left (fun sum kw => (sum + or0 (clicks (heap kw)))%Z) c 0%Z)
                     (map keywords m)).
    { intros m Hmm. rewrite map_map. apply map_ext_in. intros g Hg.
      rewrite Forall_forall in Hmm. unfold group_clicks. rewrite (Hmm g Hg). reflexivity. }
    rewrite (Hk l Hm), (Hk l' Hm').
    eapply perm_trans; [apply Permutation_map, PG |].
    clear PG. induction AG as [| c c' G F Hc AG IH]; simpl; [constructor |].
    rewrite (click_sum_perm heap c c' 0%Z Hc). apply perm_skip, IH. }
  set (s := sort clicks_cmp l). set (s' := sort clicks_cmp l').
  assert (Ps : Permutation s l) by apply sort_perm.
  assert (Ps' : Permutation s' l') by apply sort_perm.
  assert (Hks : map group_clicks s = map group_clicks s').
  { apply sorted_keys_unique.
    - apply StronglySorted_map. apply sorted_by_clicks.
    - apply StronglySorted_map. apply sorted_by_clicks.
    - apply (Permutation_NoDup (Permutation_map _ (Permutation_sym Ps))), Hnd.
    - eapply perm_trans; [apply Permutation_map, Ps |].
      eapply perm_trans; [exact Hkeys | apply Permutation_map, Permutation_sym, Ps']. }
  assert (Hnd' : NoDup (map group_clicks s')).
  { rewrite <- Hks. apply (Permutation_NoDup (Permutation_map _ (Permutation_sym Ps))), Hnd. }
  assert (Hto : forall g, In g s -> exists g', In g' s' /\ same_records g g'
                                               /\ group_clicks g = group_clicks g').
  { intros g Hg. apply (Permutation_in _ Ps) in Hg.
    destruct (proj1 (same_clusters_members _ _ Hsame) (keywords g)) as [c' [Hc' Hp]].
    { apply in_map, Hg. }
    apply in_map_iff in Hc'. destruct Hc' as [g' [<- Hg']].
    exists g'. split; [apply (Permutation_in _ (Permutation_sym Ps')), Hg' |].
    split; [exact Hp |].
    rewrite Forall_forall in Hm, Hm'.
    apply (same_records_clicks heap); auto. }
  clearbody s s'. clear Ps Ps' Hkeys Hsame Hnd Hm Hm' l l'.
  revert s' Hks Hnd' Hto. induction s as [| g s IH]; intros s' Hks Hnd' Hto.
  - destruct s'; [constructor | discriminate].
  - destruct s' as [| g' s']; [discriminate |].
    simpl in Hks. injection Hks as Hk Hks.
    inversion Hnd' as [| ? ? Hg' Hnd'']; subst.
    assert (Hinj : forall h, In h (g' :: s') -> group_clicks h = group_clicks g' -> h = g').
    { intros h [<- | Hh] Hkh; [reflexivity |].
      exfalso. apply Hg'. rewrite <- Hkh. apply in_map, Hh. }
    constructor.
    + destruct (Hto g (or_introl eq_refl)) as [h [Hh [Hp Hkh]]].
      rewrite (Hinj h Hh) in Hp; [exact Hp | congruence].
    + apply IH; try assumption.
      intros x Hx. destruct (Hto x (or_intror Hx)) as [h [Hh [Hp Hkh]]].
      exists h. split; [| auto].
      destruct Hh as [<- | Hh]; [| exact Hh].
      exfalso. apply Hg'. rewrite <- Hks, <- Hkh. apply in_map, Hx.
Qed.

Section MetricsOfGroups.

Variable rt : Runtime.
Variable heap : ref -> KeywordRecord.
Variable options : Options.

Lemma process_cluster_metrics :
  forall key st cluster st',
    Forall (metrics_ok heap) (fst st) ->
    process_cluster rt heap options key st cluster = Returns st' ->
    Forall (metrics_ok heap) (fst st').
Proof.
  intros key [finalGroups ungrouped0] cluster st' Hm H. unfold process_cluster in H.
  destruct (minGroupSize options <=? Z.of_nat (length cluster))%Z.
  - destruct (extractGroupTopic rt (map (fun item => query (heap item)) cluster));
      simpl in H; try discriminate.
    destruct (match key with
              | key_intent i => Returns i
              | key_all =>
                  match cluster with
                  | [] => Throws TypeError
                  | c0 :: _ => Returns (classifyIntent rt (query (heap c0)))
                  end
              end); simpl in H; try discriminate.
    injection H as <-. simpl. apply Forall_app. split; [exact Hm |].
    constructor; [reflexivity | constructor].
  - injection H as <-. exact Hm.
Qed.

Lemma form_groups_metrics :
  forall kws formed,
    form_groups rt heap kws options = Returns formed ->
    Forall (metrics_ok heap) (fst formed).
Proof.
  intros kws formed H. unfold form_groups in H.
  apply (foldM_invariant _ _ (process_bucket rt heap options)
           (fun a _ => Forall (metrics_ok heap) (fst a)))
    with (done := []) (l := if groupByIntent options
                            then groupBySearchIntent rt heap kws
                            else [(key_all, kws)])
         (a := ([], [])); [| constructor | exact H].
  intros a done [key b] a' Ha Hb. unfold process_bucket in Hb.
  destruct (Nat.ltb (length b) 2); [injection Hb as <-; exact Ha |].
  destruct (performHierarchicalClustering b (createSimilarityMatrix rt heap b)
              (similarityThreshold options)) as [clusters | |];
    simpl in Hb; try discriminate.
  apply (foldM_invariant _ _ (process_cluster rt heap options key)
           (fun a0 _ => Forall (metrics_ok heap) (fst a0)))
    with (done := []) (l := clusters) (a := a); [| exact Ha | exact Hb].
  intros a0 done0 c a1 Ha0 Hc. apply (process_cluster_metrics key a0 c a1 Ha0 Hc).
Qed.

End MetricsOfGroups.

(** C9, as the program has it.  For a list of distinct records whose
    pairwise similarities are numbers (not [NaN]), and for every
    permutation of the list: when both runs return and the first forms no
    more than [maxGroups] groups (no group is dissolved), or no two of the
    groups it forms have the same total of clicks, the groups of the two
    results are the same sets of records and so are the ungrouped
    records. *)
Theorem permuted_input_same_membership :
  forall rt heap options input input' r r',
    Permutation input input' ->
    NoDup input ->
    plain_similarities rt heap input ->
    dissolves_none rt heap input options \/ distinct_clicks rt heap input options ->
    groupKeywords rt heap (Some input) options = Returns r ->
    groupKeywords rt heap (Some input') options = Returns r' ->
    same_clusters (map keywords (groups r)) (map keywords (groups r'))
    /\ Permutation (ungrouped r) (ungrouped r').
Proof.
  intros rt heap options input input' r r' Hperm Hnd Hplain Hcase H H'.
  destruct input as [| kw kws].
  - apply Permutation_nil in Hperm. subst input'. simpl in H, H'.
    injection H as <-. injection H' as <-. simpl.
    split; [apply same_clusters_refl | constructor].
  - destruct input' as [| kw' kws'];
      [apply Permutation_sym, Permutation_nil in Hperm; discriminate |].
    destruct (groupKeywords_returns _ _ _ _ _ _ H) as [formed [Hf Hr]].
    destruct (groupKeywords_returns _ _ _ _ _ _ H') as [formed' [Hf' Hr']].
    destruct (form_groups_agree rt heap options _ _ formed formed'
                Hperm Hnd Hplain Hf Hf') as [Hg Hu].
    assert (Hlen : length (fst formed') = length (fst formed)).
    { apply same_clusters_length in Hg. rewrite !length_map in Hg. lia. }
    destruct Hcase as [Hnone | Hdistinct].
    + specialize (Hnone formed Hf).
      assert (Hcut : forall l : list Group,
                 length l = length (fst formed) ->
                 cut options (length (sort clicks_cmp l)) = length (sort clicks_cmp l)).
      { intros l Hl. unfold cut. rewrite sort_length, Hl.
        destruct (maxGroups options <? Z.of_nat (length (fst formed)))%Z eqn:E;
          [apply Z.ltb_lt in E; lia | reflexivity]. }
      cbv zeta in Hr, Hr'.
      rewrite (Hcut (fst formed) eq_refl) in Hr. rewrite (Hcut (fst formed') Hlen) in Hr'.
      rewrite firstn_all, skipn_all in Hr, Hr'. subst r r'. simpl.
      rewrite !app_nil_r. split; [| exact Hu].
      apply (same_clusters_perm (map keywords (fst formed)) (map keywords (fst formed'))).
      * apply Permutation_map, sort_perm.
      * exact Hg.
      * apply Permutation_map, Permutation_sym, sort_perm.
    + specialize (Hdistinct formed Hf).
      pose proof (sorted_groups_agree heap (fst formed) (fst formed')
                    (form_groups_metrics rt heap options _ _ Hf)
                    (form_groups_metrics rt heap options _ _ Hf')
                    Hdistinct Hg) as Hs.
      cbv zeta in Hr, Hr'. rewrite !sort_length in Hr, Hr'. rewrite Hlen in Hr'.
      destruct (Forall2_firstn_skipn _ _ _ (cut options (length (fst formed))) _ _ Hs)
        as [Hfirst Hskip].
      subst r r'. simpl. split.
      * exists (map keywords
                    (firstn (cut options (length (fst formed)))
                            (sort clicks_cmp (fst formed)))).
        split; [apply Permutation_refl |].
        apply Forall2_same_records_keywords, Hfirst.
      * apply Permutation_app; [exact Hu |].
        apply Forall2_same_records_flat, Hskip.
Qed.

Lemma permuted_input_same_membership_witness :
  exists r r',
    groupKeywords Host.rt Examples.twins (Some [0; 1; 2; 3]) (Examples.twins_options 20)
    = Returns r
    /\ groupKeywords Host.rt Examples.twins (Some (rev [0; 1; 2; 3]))
                     (Examples.twins_options 20) = Returns r'
    /\ same_clusters (map keywords (groups r)) (map keywords (groups r'))
    /\ Permutation (ungrouped r) (ungrouped r').
Proof.
  eexists. eexists.
  split; [vm_compute; reflexivity |]. split; [vm_compute; reflexivity |].
  apply (permuted_input_same_membership Host.rt Examples.twins
           (Examples.twins_options 20) [0; 1; 2; 3] (rev [0; 1; 2; 3])).
  - apply Permutation_rev.
  - repeat constructor; simpl; intuition discriminate.
  - intros x y [<- | [<- | [<- | [<- | []]]]] [<- | [<- | [<- | [<- | []]]]];
      eexists; vm_compute; reflexivity.
  - left. intros formed H. vm_compute in H. injection H as <-. simpl. lia.
  - vm_compute. reflexivity.
  - vm_compute. reflexivity.
Defined.

(** C9, the claim as it is written, fails: the two pairs have the same
    similarity and the same clicks, so with [maxGroups = 1] the group that
    is kept is the one whose records come first in the input; the run on
    the permuted list keeps the other group. *)
Lemma permuted_input_changes_kept_group :
  exists r r',
    Permutation [0; 1; 2; 3] [2; 3; 0; 1]
    /\ groupKeywords Host.rt Examples.twins (Some [0; 1; 2; 3]) (Examples.twins_options 1)
       = Returns r
    /\ groupKeywords Host.rt Examples.twins (Some [2; 3; 0; 1]) (Examples.twins_options 1)
       = Returns r'
    /\ map keywords (groups r) = [[0; 1]]
    /\ map keywords (groups r') = [[2; 3]]
    /\ ungrouped r = [2; 3]
    /\ ungrouped r' = [0; 1].
Proof.
  eexists. eexists.
  split; [apply (Permutation_app_comm [0; 1] [2; 3]) |].
  split; [vm_compute; reflexivity |]. split; [vm_compute; reflexivity |].
  repeat split.
Qed.
